(** * Zen native code generator: lowering, x86-64 encoder and ELF emitter

    A shallow embedding of [src/native_codegen.c] (with the types of
    [codegen/native_codegen.h] and [frontend/ast/ast.h]) and the properties
    of it that the specification states.

    Conventions of the embedding:
    - the C context [NativeCodeGen*] is a record threaded through every
      function; a C function [bool f(codegen, ...)] becomes a function
      returning [bool * NativeCodeGen], because the C code mutates the
      context also on the paths that return [false];
    - singly linked lists are [list]s: the instruction list is appended at
      its tail, the three symbol tables are pushed at their head;
    - [int] and [int32_t] are [Z] wrapped to 32 bits, [int64_t] is [Z] wrapped
      to 64 bits, [uint8_t] is [Z] reduced modulo 256;
    - [malloc] and [realloc] are taken to succeed (the out-of-memory
      branches are not reachable in the model);
    - [stderr] and [stdout] are two logs kept beside the context fields. *)

From Stdlib Require Import ZArith List String Ascii Bool Lia QArith DecimalString.
From Stdlib Require DecimalPos DecimalZ.
Import ListNotations.
Open Scope string_scope.
Open Scope list_scope.
Open Scope Z_scope.

(* ================================================================== *)
(** ** Machine integers *)

Definition wrap_signed (bits : Z) (z : Z) : Z :=
  (z + 2 ^ (bits - 1)) mod 2 ^ bits - 2 ^ (bits - 1).

(** [int] / [int32_t] *)
Definition wrap_int32 (z : Z) : Z := wrap_signed 32 z.
(** [int64_t] *)
Definition wrap_int64 (z : Z) : Z := wrap_signed 64 z.
(** [uint8_t] store *)
Definition u8 (z : Z) : Z := z mod 256.
(** [size_t] / [uint64_t] *)
Definition wrap_u64 (z : Z) : Z := z mod 2 ^ 64.

Definition INT_MAX : Z := 2147483647.

(** [(int64_t)d] for a [double] [d]: every finite double is a rational, the
    cast truncates toward zero.  Outside the range of [int64_t] the C result
    is undefined; the model takes what the x86-64 conversion instruction
    returns there, the "integer indefinite" value [-2^63]. *)
Definition double_to_int64 (d : Q) : Z :=
  let t := Z.quot (Qnum d) (Zpos (Qden d)) in
  if (- 2 ^ 63 <=? t) && (t <? 2 ^ 63) then t else - 2 ^ 63.

(* ================================================================== *)
(** ** [frontend/ast/ast.h] *)

Inductive LiteralValue : Type :=
| LITERAL_NUMBER (number_value : Q)
| LITERAL_STRING (string_value : string)
| LITERAL_BOOLEAN (boolean_value : bool)
| LITERAL_NULL.

Inductive BinaryOperator : Type :=
| BINARY_ADD | BINARY_SUBTRACT | BINARY_MULTIPLY | BINARY_DIVIDE
| BINARY_MODULO | BINARY_EQUAL | BINARY_NOT_EQUAL | BINARY_LESS
| BINARY_LESS_EQUAL | BINARY_GREATER | BINARY_GREATER_EQUAL
| BINARY_AND | BINARY_OR | BINARY_IS.

Inductive UnaryOperator : Type := UNARY_MINUS | UNARY_NOT.

Inductive ZenType : Type :=
| TYPE_I32 | TYPE_F64 | TYPE_STRING | TYPE_BOOL | TYPE_VOID | TYPE_UNKNOWN.

Record FunctionParameter : Type := {
  param_name : string;
  param_type : ZenType
}.

(** One constructor per [ASTNodeType]; the C code dispatches on the tag of an
    untyped [ASTNode*], so expressions, statements and the program are one
    type here as well.  A [NULL] child is [None]. *)
#[warnings="-register-all"]
Inductive ASTNode : Type :=
| AST_LITERAL_EXPR (literal : LiteralValue)
| AST_IDENTIFIER_EXPR (name : string)
| AST_BINARY_EXPR (operator : BinaryOperator) (left right : ASTNode)
| AST_UNARY_EXPR (operator : UnaryOperator) (operand : ASTNode)
| AST_CALL_EXPR (callee : ASTNode) (arguments : list ASTNode)
| AST_INTERPOLATION_EXPR
| AST_EXPRESSION_STMT (expression : ASTNode)
| AST_VAR_DECLARATION (name : string) (var_type : ZenType) (is_const : bool)
                      (initializer : option ASTNode)
| AST_FUNCTION_DECLARATION (name : string) (parameters : list FunctionParameter)
                           (return_type : ZenType) (body : ASTNode)
| AST_RETURN_STMT (value : option ASTNode)
| AST_BLOCK_STMT (statements : list ASTNode)
| AST_IF_STMT (condition then_branch : ASTNode) (else_branch : option ASTNode)
| AST_WHILE_STMT (condition body : ASTNode)
| AST_FOR_STMT (variable : string) (iterable body : ASTNode)
| AST_PROGRAM (declarations : list ASTNode).

(* ================================================================== *)
(** ** [codegen/native_codegen.h] *)

Inductive X86Register : Type :=
| REG_RAX | REG_RCX | REG_RDX | REG_RBX | REG_RSP | REG_RBP | REG_RSI | REG_RDI
| REG_R8 | REG_R9 | REG_R10 | REG_R11 | REG_R12 | REG_R13 | REG_R14 | REG_R15.

(** The numeric value of the enumerator. *)
Definition reg_num (r : X86Register) : Z :=
  match r with
  | REG_RAX => 0 | REG_RCX => 1 | REG_RDX => 2 | REG_RBX => 3
  | REG_RSP => 4 | REG_RBP => 5 | REG_RSI => 6 | REG_RDI => 7
  | REG_R8 => 8 | REG_R9 => 9 | REG_R10 => 10 | REG_R11 => 11
  | REG_R12 => 12 | REG_R13 => 13 | REG_R14 => 14 | REG_R15 => 15
  end.

Definition reg_eqb (a b : X86Register) : bool := reg_num a =? reg_num b.

Inductive X86Instruction : Type :=
| INST_MOV | INST_PUSH | INST_POP | INST_ADD | INST_SUB | INST_MUL | INST_DIV
| INST_CMP | INST_JMP | INST_JE | INST_JNE | INST_JL | INST_JLE | INST_JG | INST_JGE
| INST_CALL | INST_RET | INST_NOP | INST_SYSCALL | INST_XOR | INST_LEA | INST_INT3
| INST_SETE | INST_SETNE | INST_SETL | INST_SETLE | INST_SETG | INST_SETGE
| INST_MOVZX.

(** The tagged union of [Operand]. *)
Inductive OperandValue : Type :=
| OPERAND_REGISTER (reg : X86Register)
| OPERAND_IMMEDIATE (immediate : Z)
| OPERAND_MEMORY (base : X86Register) (offset : Z)
| OPERAND_LABEL (label : string).

Record Operand : Type := {
  op_value : OperandValue;
  op_size : Z
}.

(** [operands] holds the first [operand_count] entries of the C array. *)
Record Instruction : Type := {
  opcode : X86Instruction;
  operands : list Operand;
  inst_label : option string
}.

Definition operand_count (i : Instruction) : Z := Z.of_nat (List.length (operands i)).

Record StringLiteral : Type := {
  str_label : string;
  str_content : string;
  str_length : Z
}.

Record FunctionSymbol : Type := {
  func_name : string;
  func_label : string;
  func_stack_size : Z
}.

Record VariableSymbol : Type := {
  var_name : string;
  var_zen_type : ZenType;
  var_is_const : bool;
  var_stack_offset : Z
}.

(** [code_buffer] holds the first [code_size] bytes of the C buffer. *)
Record NativeCodeGen : Type := {
  instructions : list Instruction;
  string_literals : list StringLiteral;
  functions : list FunctionSymbol;
  variables : list VariableSymbol;
  current_function : option string;
  stack_offset : Z;
  label_counter : Z;
  code_buffer : list Z;
  code_capacity : Z;
  had_error : bool;
  error_message : option string;
  stderr_log : list string;
  stdout_log : list string
}.

Definition code_size (cg : NativeCodeGen) : Z := Z.of_nat (List.length (code_buffer cg)).

Definition INITIAL_CODE_CAPACITY : Z := 4096.
Definition BASE_ADDRESS : Z := 0x400000.

(** *** Field updates *)

Definition set_instructions (v : list Instruction) (cg : NativeCodeGen) :=
  {| instructions := v; string_literals := string_literals cg;
     functions := functions cg; variables := variables cg;
     current_function := current_function cg; stack_offset := stack_offset cg;
     label_counter := label_counter cg; code_buffer := code_buffer cg;
     code_capacity := code_capacity cg; had_error := had_error cg;
     error_message := error_message cg; stderr_log := stderr_log cg;
     stdout_log := stdout_log cg |}.

Definition set_string_literals (v : list StringLiteral) (cg : NativeCodeGen) :=
  {| instructions := instructions cg; string_literals := v;
     functions := functions cg; variables := variables cg;
     current_function := current_function cg; stack_offset := stack_offset cg;
     label_counter := label_counter cg; code_buffer := code_buffer cg;
     code_capacity := code_capacity cg; had_error := had_error cg;
     error_message := error_message cg; stderr_log := stderr_log cg;
     stdout_log := stdout_log cg |}.

Definition set_functions (v : list FunctionSymbol) (cg : NativeCodeGen) :=
  {| instructions := instructions cg; string_literals := string_literals cg;
     functions := v; variables := variables cg;
     current_function := current_function cg; stack_offset := stack_offset cg;
     label_counter := label_counter cg; code_buffer := code_buffer cg;
     code_capacity := code_capacity cg; had_error := had_error cg;
     error_message := error_message cg; stderr_log := stderr_log cg;
     stdout_log := stdout_log cg |}.

Definition set_variables (v : list VariableSymbol) (cg : NativeCodeGen) :=
  {| instructions := instructions cg; string_literals := string_literals cg;
     functions := functions cg; variables := v;
     current_function := current_function cg; stack_offset := stack_offset cg;
     label_counter := label_counter cg; code_buffer := code_buffer cg;
     code_capacity := code_capacity cg; had_error := had_error cg;
     error_message := error_message cg; stderr_log := stderr_log cg;
     stdout_log := stdout_log cg |}.

Definition set_current_function (v : option string) (cg : NativeCodeGen) :=
  {| instructions := instructions cg; string_literals := string_literals cg;
     functions := functions cg; variables := variables cg;
     current_function := v; stack_offset := stack_offset cg;
     label_counter := label_counter cg; code_buffer := code_buffer cg;
     code_capacity := code_capacity cg; had_error := had_error cg;
     error_message := error_message cg; stderr_log := stderr_log cg;
     stdout_log := stdout_log cg |}.

Definition set_stack_offset (v : Z) (cg : NativeCodeGen) :=
  {| instructions := instructions cg; string_literals := string_literals cg;
     functions := functions cg; variables := variables cg;
     current_function := current_function cg; stack_offset := v;
     label_counter := label_counter cg; code_buffer := code_buffer cg;
     code_capacity := code_capacity cg; had_error := had_error cg;
     error_message := error_message cg; stderr_log := stderr_log cg;
     stdout_log := stdout_log cg |}.

Definition set_label_counter (v : Z) (cg : NativeCodeGen) :=
  {| instructions := instructions cg; string_literals := string_literals cg;
     functions := functions cg; variables := variables cg;
     current_function := current_function cg; stack_offset := stack_offset cg;
     label_counter := v; code_buffer := code_buffer cg;
     code_capacity := code_capacity cg; had_error := had_error cg;
     error_message := error_message cg; stderr_log := stderr_log cg;
     stdout_log := stdout_log cg |}.

Definition set_code (buf : list Z) (cap : Z) (cg : NativeCodeGen) :=
  {| instructions := instructions cg; string_literals := string_literals cg;
     functions := functions cg; variables := variables cg;
     current_function := current_function cg; stack_offset := stack_offset cg;
     label_counter := label_counter cg; code_buffer := buf;
     code_capacity := cap; had_error := had_error cg;
     error_message := error_message cg; stderr_log := stderr_log cg;
     stdout_log := stdout_log cg |}.

Definition set_error (msg : string) (log : list string) (cg : NativeCodeGen) :=
  {| instructions := instructions cg; string_literals := string_literals cg;
     functions := functions cg; variables := variables cg;
     current_function := current_function cg; stack_offset := stack_offset cg;
     label_counter := label_counter cg; code_buffer := code_buffer cg;
     code_capacity := code_capacity cg; had_error := true;
     error_message := Some msg; stderr_log := log;
     stdout_log := stdout_log cg |}.

Definition set_stdout (log : list string) (cg : NativeCodeGen) :=
  {| instructions := instructions cg; string_literals := string_literals cg;
     functions := functions cg; variables := variables cg;
     current_function := current_function cg; stack_offset := stack_offset cg;
     label_counter := label_counter cg; code_buffer := code_buffer cg;
     code_capacity := code_capacity cg; had_error := had_error cg;
     error_message := error_message cg; stderr_log := stderr_log cg;
     stdout_log := log |}.

(* ================================================================== *)
(** ** Context creation and error reporting *)

Definition native_codegen_create : NativeCodeGen :=
  {| instructions := []; string_literals := []; functions := [];
     variables := []; current_function := None; stack_offset := 0;
     label_counter := 0; code_buffer := [];
     code_capacity := INITIAL_CODE_CAPACITY; had_error := false;
     error_message := None; stderr_log := []; stdout_log := [] |}.

Definition newline : string := String (ascii_of_nat 10) EmptyString.

(** The flag is set, the old message is freed and the new one is stored,
    whatever the state of the flag was; the message also goes to [stderr]. *)
Definition native_codegen_error (message : string) (cg : NativeCodeGen)
  : NativeCodeGen :=
  set_error message
    (stderr_log cg
     ++ [("Native code generation error: " ++ message ++ newline)%string]) cg.

(* ================================================================== *)
(** ** Labels and instruction emission *)

Definition register_encoding (r : X86Register) : Z := Z.land (reg_num r) 7.

Definition is_register_extended (r : X86Register) : bool := 8 <=? reg_num r.

Definition string_of_Z (z : Z) : string := NilZero.string_of_int (Z.to_int z).

(** [snprintf(label, 64, "%s_%d", prefix, codegen->label_counter++)] *)
Definition create_label (prefix : string) (cg : NativeCodeGen)
  : string * NativeCodeGen :=
  let n := label_counter cg in
  (substring 0 63 (prefix ++ "_" ++ string_of_Z n)%string,
   set_label_counter (wrap_int32 (n + 1)) cg).

Definition append_instruction (i : Instruction) (cg : NativeCodeGen)
  : NativeCodeGen :=
  set_instructions (instructions cg ++ [i]) cg.

Definition reg_operand (r : X86Register) : Operand :=
  {| op_value := OPERAND_REGISTER r; op_size := 8 |}.
Definition imm_operand (imm : Z) : Operand :=
  {| op_value := OPERAND_IMMEDIATE imm; op_size := 8 |}.
Definition mem_operand (base : X86Register) (offset : Z) : Operand :=
  {| op_value := OPERAND_MEMORY base offset; op_size := 8 |}.
Definition label_operand (l : string) : Operand :=
  {| op_value := OPERAND_LABEL l; op_size := 8 |}.

Definition emit_label (label : string) (cg : NativeCodeGen) : NativeCodeGen :=
  append_instruction
    {| opcode := INST_NOP; operands := []; inst_label := Some label |} cg.

Definition emit_instruction (op : X86Instruction) (cg : NativeCodeGen) :=
  append_instruction {| opcode := op; operands := []; inst_label := None |} cg.

Definition emit_instruction_reg (op : X86Instruction) (r : X86Register)
    (cg : NativeCodeGen) :=
  append_instruction
    {| opcode := op; operands := [reg_operand r]; inst_label := None |} cg.

Definition emit_instruction_reg_reg (op : X86Instruction) (dst src : X86Register)
    (cg : NativeCodeGen) :=
  append_instruction
    {| opcode := op; operands := [reg_operand dst; reg_operand src];
       inst_label := None |} cg.

Definition emit_instruction_reg_imm (op : X86Instruction) (r : X86Register)
    (imm : Z) (cg : NativeCodeGen) :=
  append_instruction
    {| opcode := op; operands := [reg_operand r; imm_operand imm];
       inst_label := None |} cg.

Definition emit_instruction_reg_mem (op : X86Instruction) (r base : X86Register)
    (offset : Z) (cg : NativeCodeGen) :=
  append_instruction
    {| opcode := op; operands := [reg_operand r; mem_operand base offset];
       inst_label := None |} cg.

Definition emit_instruction_mem_reg (op : X86Instruction) (base : X86Register)
    (offset : Z) (r : X86Register) (cg : NativeCodeGen) :=
  append_instruction
    {| opcode := op; operands := [mem_operand base offset; reg_operand r];
       inst_label := None |} cg.

Definition emit_instruction_label (op : X86Instruction) (label : string)
    (cg : NativeCodeGen) :=
  append_instruction
    {| opcode := op; operands := [label_operand label]; inst_label := None |} cg.

(* ================================================================== *)
(** ** Symbol tables *)

Definition add_string_literal (content : string) (cg : NativeCodeGen)
  : StringLiteral * NativeCodeGen :=
  let '(l, cg1) := create_label "str" cg in
  let str := {| str_label := l; str_content := content;
                str_length := Z.of_nat (String.length content) |} in
  (str, set_string_literals (str :: string_literals cg1) cg1).

Definition add_function_symbol (name : string) (cg : NativeCodeGen)
  : FunctionSymbol * NativeCodeGen :=
  let '(l, cg1) := create_label "func" cg in
  let func := {| func_name := name; func_label := l; func_stack_size := 0 |} in
  (func, set_functions (func :: functions cg1) cg1).

Definition add_variable_symbol (name : string) (type : ZenType) (is_const : bool)
    (cg : NativeCodeGen) : VariableSymbol * NativeCodeGen :=
  let var := {| var_name := name; var_zen_type := type; var_is_const := is_const;
                var_stack_offset := stack_offset cg |} in
  (var,
   set_variables (var :: variables cg)
     (set_stack_offset (wrap_int32 (stack_offset cg + 8)) cg)).

Fixpoint find_variable (vars : list VariableSymbol) (name : string)
  : option VariableSymbol :=
  match vars with
  | [] => None
  | var :: next =>
      if String.eqb (var_name var) name then Some var else find_variable next name
  end.

Definition lookup_variable (cg : NativeCodeGen) (name : string)
  : option VariableSymbol :=
  find_variable (variables cg) name.

(* ================================================================== *)
(** ** AST-to-IR lowering *)

(** A lowering step: it reads and updates the context and returns a result. *)
Definition Gen (A : Type) : Type := NativeCodeGen -> A * NativeCodeGen.

Definition succeed : Gen bool := fun cg => (true, cg).

(** [native_codegen_error(codegen, msg); return false;] *)
Definition fail (msg : string) : Gen bool :=
  fun cg => (false, native_codegen_error msg cg).

(** A call of a [void] function, then the rest of the body. *)
Definition step {A} (f : NativeCodeGen -> NativeCodeGen) (k : Gen A) : Gen A :=
  fun cg => k (f cg).

(** [if (!m) return false;] then the rest of the body. *)
Definition and_then (m k : Gen bool) : Gen bool :=
  fun cg => let '(ok, cg1) := m cg in if ok then k cg1 else (false, cg1).

Notation "'run' f ';;' k" := (step f k)
  (at level 10, f at level 100, k at level 200).
Notation "'guard' m ';;' k" := (and_then m k)
  (at level 10, m at level 100, k at level 200).

Fixpoint find_string_literal (strs : list StringLiteral) (label : string)
  : option StringLiteral :=
  match strs with
  | [] => None
  | str :: next =>
      if String.eqb (str_label str) label then Some str
      else find_string_literal next label
  end.

(** The "write" is a [printf] made while compiling; no instruction is
    emitted. *)
Definition emit_syscall_write (string_label : string) (cg : NativeCodeGen)
  : NativeCodeGen :=
  match find_string_literal (string_literals cg) string_label with
  | None => native_codegen_error "String literal not found for print" cg
  | Some str =>
      set_stdout
        (stdout_log cg ++ [("Zen program output: " ++ str_content str ++ newline)%string])
        cg
  end.

Definition emit_syscall_exit (exit_code : Z) : NativeCodeGen -> NativeCodeGen :=
  fun cg =>
    emit_instruction INST_SYSCALL
      (emit_instruction_reg_imm INST_MOV REG_RDI exit_code
         (emit_instruction_reg_imm INST_MOV REG_RAX 60 cg)).

Definition native_codegen_literal (literal : LiteralValue)
    (result_reg : X86Register) : Gen bool :=
  match literal with
  | LITERAL_NUMBER number_value =>
      run emit_instruction_reg_imm INST_MOV result_reg
            (double_to_int64 number_value) ;;
      succeed
  | LITERAL_STRING string_value =>
      fun cg =>
        let '(_, cg1) := add_string_literal string_value cg in
        (true, emit_instruction_reg_imm INST_MOV result_reg 0x600000 cg1)
  | LITERAL_BOOLEAN boolean_value =>
      run emit_instruction_reg_imm INST_MOV result_reg
            (if boolean_value then 1 else 0) ;;
      succeed
  | LITERAL_NULL =>
      run emit_instruction_reg_imm INST_MOV result_reg 0 ;;
      succeed
  end.

Definition native_codegen_identifier (name : string) (result_reg : X86Register)
  : Gen bool :=
  fun cg =>
    match lookup_variable cg name with
    | None => fail "Undefined variable" cg
    | Some var =>
        (true,
         emit_instruction_reg_mem INST_MOV result_reg REG_RBP
           (wrap_int32 (- var_stack_offset var)) cg)
    end.

(** The [switch] on the operator of a binary expression. *)
Definition binary_operation (operator : BinaryOperator) : Gen bool :=
  match operator with
  | BINARY_ADD => run emit_instruction_reg_reg INST_ADD REG_RAX REG_RBX ;; succeed
  | BINARY_SUBTRACT => run emit_instruction_reg_reg INST_SUB REG_RAX REG_RBX ;; succeed
  | BINARY_MULTIPLY => run emit_instruction_reg_reg INST_MUL REG_RAX REG_RBX ;; succeed
  | BINARY_DIVIDE => run emit_instruction_reg_reg INST_DIV REG_RAX REG_RBX ;; succeed
  | _ => fail "Unsupported binary operator"
  end.

(** The functions of the expression family call each other through
    [native_codegen_expression]; each takes it as [expression] and the knot
    is tied in the [Fixpoint] below. *)
Definition native_codegen_binary_expr
    (expression : ASTNode -> X86Register -> Gen bool)
    (operator : BinaryOperator) (left right : ASTNode)
    (result_reg : X86Register) : Gen bool :=
  guard expression left REG_RAX ;;
  run emit_instruction_reg INST_PUSH REG_RAX ;;
  guard expression right REG_RBX ;;
  run emit_instruction_reg INST_POP REG_RAX ;;
  guard binary_operation operator ;;
  if negb (reg_eqb result_reg REG_RAX)
  then run emit_instruction_reg_reg INST_MOV result_reg REG_RAX ;; succeed
  else succeed.

Definition native_codegen_unary_expr
    (expression : ASTNode -> X86Register -> Gen bool)
    (operator : UnaryOperator) (operand : ASTNode)
    (result_reg : X86Register) : Gen bool :=
  guard expression operand result_reg ;;
  match operator with
  | UNARY_MINUS =>
      run emit_instruction_reg_imm INST_MUL result_reg (-1) ;; succeed
  | UNARY_NOT =>
      run emit_instruction_reg_imm INST_CMP result_reg 0 ;; succeed
  end.

(** After the argument of [print] is lowered: the head of the string table
    is written when the argument is a string literal or an identifier. *)
Definition print_argument (argument : ASTNode) : Gen bool :=
  fun cg =>
    let write_head :=
      match string_literals cg with
      | str :: _ => emit_syscall_write (str_label str) cg
      | [] => cg
      end in
    match argument with
    | AST_LITERAL_EXPR (LITERAL_STRING _) => (true, write_head)
    | AST_IDENTIFIER_EXPR _ => (true, write_head)
    | _ => (true, cg)
    end.

Definition native_codegen_call_expr
    (expression : ASTNode -> X86Register -> Gen bool)
    (callee : ASTNode) (arguments : list ASTNode)
    (result_reg : X86Register) : Gen bool :=
  match callee with
  | AST_IDENTIFIER_EXPR func_name =>
      if String.eqb func_name "print" then
        match arguments with
        | [argument] =>
            guard expression argument REG_RAX ;;
            print_argument argument
        | _ => fail "print requires exactly one argument"
        end
      else fail "Function calls not yet implemented"
  | _ => fail "Only direct function calls supported"
  end.

Fixpoint native_codegen_expression (expr : ASTNode) (result_reg : X86Register)
  {struct expr} : Gen bool :=
  match expr with
  | AST_LITERAL_EXPR literal => native_codegen_literal literal result_reg
  | AST_IDENTIFIER_EXPR name => native_codegen_identifier name result_reg
  | AST_BINARY_EXPR operator lhs rhs =>
      native_codegen_binary_expr native_codegen_expression
        operator lhs rhs result_reg
  | AST_UNARY_EXPR operator operand =>
      native_codegen_unary_expr native_codegen_expression
        operator operand result_reg
  | AST_CALL_EXPR callee arguments =>
      native_codegen_call_expr native_codegen_expression
        callee arguments result_reg
  | _ => fail "Unsupported expression type"
  end.

Definition native_codegen_var_declaration (name : string) (var_type : ZenType)
    (is_const : bool) (initializer : option ASTNode) : Gen bool :=
  fun cg =>
    let '(symbol, cg1) := add_variable_symbol name var_type is_const cg in
    match initializer with
    | Some init =>
        (guard native_codegen_expression init REG_RAX ;;
         run emit_instruction_mem_reg INST_MOV REG_RBP
               (wrap_int32 (- var_stack_offset symbol)) REG_RAX ;;
         succeed) cg1
    | None => (true, cg1)
    end.

Definition native_codegen_return_stmt (value : option ASTNode) : Gen bool :=
  guard match value with
        | Some v => native_codegen_expression v REG_RAX
        | None => run emit_instruction_reg_imm INST_MOV REG_RAX 0 ;; succeed
        end ;;
  run emit_instruction_reg_reg INST_MOV REG_RSP REG_RBP ;;
  run emit_instruction_reg INST_POP REG_RBP ;;
  run emit_instruction INST_RET ;;
  succeed.

Definition native_codegen_expression_stmt (expression : ASTNode) : Gen bool :=
  native_codegen_expression expression REG_RAX.

Fixpoint native_codegen_statement (stmt : ASTNode) {struct stmt} : Gen bool :=
  match stmt with
  | AST_VAR_DECLARATION name var_type is_const initializer =>
      native_codegen_var_declaration name var_type is_const initializer
  | AST_RETURN_STMT value => native_codegen_return_stmt value
  | AST_BLOCK_STMT statements =>
      (* native_codegen_block_stmt *)
      (fix block (l : list ASTNode) : Gen bool :=
         match l with
         | [] => succeed
         | s :: rest => guard native_codegen_statement s ;; block rest
         end) statements
  | AST_EXPRESSION_STMT expression => native_codegen_expression_stmt expression
  | _ => fail "Unsupported statement type"
  end.

Definition native_codegen_block_stmt (statements : list ASTNode) : Gen bool :=
  native_codegen_statement (AST_BLOCK_STMT statements).

Definition native_codegen_function (name : string) (body : ASTNode) : Gen bool :=
  fun cg =>
    let '(symbol, cg1) := add_function_symbol name cg in
    (run set_current_function (Some name) ;;
     run emit_label (func_label symbol) ;;
     run emit_instruction_reg INST_PUSH REG_RBP ;;
     run emit_instruction_reg_reg INST_MOV REG_RBP REG_RSP ;;
     run set_stack_offset 8 ;;
     guard native_codegen_statement body ;;
     run emit_instruction_reg_imm INST_MOV REG_RAX 0 ;;
     run emit_instruction_reg_reg INST_MOV REG_RSP REG_RBP ;;
     run emit_instruction_reg INST_POP REG_RBP ;;
     run emit_instruction INST_RET ;;
     succeed) cg1.

Definition is_main (f : FunctionSymbol) : bool := String.eqb (func_name f) "main".

(** The loop over the declarations of the program, with its two locals
    [has_main] and [main_func]; the first component of the result is [false]
    when the loop left the function with [return false]. *)
Fixpoint program_declarations (decls : list ASTNode) (has_main : bool)
    (main_func : option FunctionSymbol) (cg : NativeCodeGen)
  : (bool * bool * option FunctionSymbol) * NativeCodeGen :=
  match decls with
  | [] => ((true, has_main, main_func), cg)
  | AST_FUNCTION_DECLARATION name _ _ body :: rest =>
      let has_main1 := if String.eqb name "main" then true else has_main in
      let '(ok, cg1) := native_codegen_function name body cg in
      if negb ok then ((false, has_main1, main_func), cg1)
      else
        let main_func1 :=
          if String.eqb name "main" then
            match find is_main (functions cg1) with
            | Some fsym => Some fsym
            | None => main_func
            end
          else main_func in
        program_declarations rest has_main1 main_func1 cg1
  | _ :: rest => program_declarations rest has_main main_func cg
  end.

Definition native_codegen_program (declarations : list ASTNode) : Gen bool :=
  fun cg =>
    let '((ok, has_main, main_func), cg1) :=
      program_declarations declarations false None cg in
    if negb ok then (false, cg1)
    else if negb has_main then fail "No main function found" cg1
    else
      (run emit_label "_start" ;;
       run match main_func with
           | Some f => emit_instruction_label INST_CALL (func_label f)
           | None => emit_instruction_label INST_CALL "func_0"
           end ;;
       run emit_instruction_reg_reg INST_MOV REG_RDI REG_RAX ;;
       run emit_syscall_exit 0 ;;
       succeed) cg1.

(** [program] is [None] for a [NULL] pointer. *)
Definition native_codegen_generate (program : option ASTNode) : Gen bool :=
  match program with
  | None => fail "Invalid arguments"
  | Some (AST_PROGRAM declarations) => native_codegen_program declarations
  | Some _ => fail "Expected program node"
  end.

(* ================================================================== *)
(** ** Machine code encoder *)

(** The ModRM byte [0xC0 | ((src & 7) << 3) | (dst & 7)]. *)
Definition modrm_reg_reg (dst src : X86Register) : Z :=
  u8 (Z.lor (Z.lor 0xC0 (Z.shiftl (Z.land (reg_num src) 7) 3))
            (Z.land (reg_num dst) 7)).

(** The eight bytes [(imm >> (i * 8)) & 0xFF], [i = 0 .. 7]. *)
Definition imm64_bytes (imm : Z) : list Z :=
  map (fun i => u8 (Z.land (Z.shiftr imm (i * 8)) 0xFF)) [0; 1; 2; 3; 4; 5; 6; 7].

(** The [switch (inst->opcode)] of [generate_machine_code]: the bytes stored
    at [code_buffer[code_size++]] for one instruction. *)
Definition encode_instruction (inst : Instruction) : list Z :=
  match opcode inst with
  | INST_MOV =>
      match operands inst with
      | [a; b] =>
          match op_value a, op_value b with
          | OPERAND_REGISTER r, OPERAND_IMMEDIATE imm =>
              [u8 0x48; u8 (0xB8 + Z.land (reg_num r) 7)] ++ imm64_bytes imm
          | OPERAND_REGISTER dst, OPERAND_REGISTER src =>
              [u8 0x48; u8 0x89; modrm_reg_reg dst src]
          | _, _ => [u8 0x48; u8 0x89; u8 0xC0]
          end
      | _ => []
      end
  | INST_PUSH =>
      match operands inst with
      | [a] =>
          match op_value a with
          | OPERAND_REGISTER r => [u8 (0x50 + Z.land (reg_num r) 7)]
          | _ => []
          end
      | _ => []
      end
  | INST_POP =>
      match operands inst with
      | [a] =>
          match op_value a with
          | OPERAND_REGISTER r => [u8 (0x58 + Z.land (reg_num r) 7)]
          | _ => []
          end
      | _ => []
      end
  | INST_CALL => [u8 0xE8; u8 0x00; u8 0x00; u8 0x00; u8 0x00]
  | INST_RET => [u8 0xC3]
  | INST_SYSCALL => [u8 0x0F; u8 0x05]
  | INST_ADD =>
      match operands inst with
      | [a; b] =>
          match op_value a, op_value b with
          | OPERAND_REGISTER dst, OPERAND_REGISTER src =>
              [u8 0x48; u8 0x01; modrm_reg_reg dst src]
          | _, _ => []
          end
      | _ => []
      end
  | INST_SUB =>
      match operands inst with
      | [a; b] =>
          match op_value a, op_value b with
          | OPERAND_REGISTER dst, OPERAND_REGISTER src =>
              [u8 0x48; u8 0x29; modrm_reg_reg dst src]
          | _, _ => []
          end
      | _ => []
      end
  | _ => [u8 0x90]
  end.

(** [inst->opcode == INST_NOP && inst->label]: a label marker. *)
Definition is_label_marker (inst : Instruction) : bool :=
  match opcode inst, inst_label inst with
  | INST_NOP, Some _ => true
  | _, _ => false
  end.

(** The buffer is doubled when fewer than 20 bytes are free. *)
Definition ensure_capacity (cg : NativeCodeGen) : NativeCodeGen :=
  if wrap_u64 (code_size cg + 20) >? code_capacity cg
  then set_code (code_buffer cg) (wrap_u64 (code_capacity cg * 2)) cg
  else cg.

Definition store_bytes (bytes : list Z) (cg : NativeCodeGen) : NativeCodeGen :=
  set_code (code_buffer cg ++ bytes) (code_capacity cg) cg.

(** The [while (inst)] loop. *)
Fixpoint encode_loop (insts : list Instruction) (cg : NativeCodeGen)
  : NativeCodeGen :=
  match insts with
  | [] => cg
  | inst :: next =>
      if is_label_marker inst then encode_loop next cg
      else encode_loop next (store_bytes (encode_instruction inst) (ensure_capacity cg))
  end.

(** It starts at the current [code_size]: nothing resets the buffer. *)
Definition generate_machine_code : Gen bool :=
  fun cg => (true, encode_loop (instructions cg) cg).

(* ================================================================== *)
(** ** ELF executable emitter *)

Record ELF64_Header : Type := {
  e_ident : list Z;
  e_type : Z; e_machine : Z; e_version : Z;
  e_entry : Z; e_phoff : Z; e_shoff : Z;
  e_flags : Z; e_ehsize : Z; e_phentsize : Z; e_phnum : Z;
  e_shentsize : Z; e_shnum : Z; e_shstrndx : Z
}.

Record ELF64_ProgramHeader : Type := {
  p_type : Z; p_flags : Z; p_offset : Z; p_vaddr : Z; p_paddr : Z;
  p_filesz : Z; p_memsz : Z; p_align : Z
}.

(** Both structs are packed. *)
Definition sizeof_ELF64_Header : Z := 16 + 2 + 2 + 4 + 8 + 8 + 8 + 4 + 2 + 2 + 2 + 2 + 2 + 2.
Definition sizeof_ELF64_ProgramHeader : Z := 4 + 4 + 8 + 8 + 8 + 8 + 8 + 8.

Definition ascii_code (c : ascii) : Z := Z.of_nat (nat_of_ascii c).

Definition elf_header : ELF64_Header :=
  {| e_ident := [0x7f; ascii_code "E"; ascii_code "L"; ascii_code "F";
                 2; 1; 1; 0; 0; 0; 0; 0; 0; 0; 0; 0];
     e_type := 2;
     e_machine := 62;
     e_version := 1;
     e_entry := BASE_ADDRESS + sizeof_ELF64_Header + sizeof_ELF64_ProgramHeader;
     e_phoff := sizeof_ELF64_Header;
     e_shoff := 0;
     e_flags := 0;
     e_ehsize := sizeof_ELF64_Header;
     e_phentsize := sizeof_ELF64_ProgramHeader;
     e_phnum := 1;
     e_shentsize := 0;
     e_shnum := 0;
     e_shstrndx := 0 |}.

Definition prog_header (cg : NativeCodeGen) : ELF64_ProgramHeader :=
  {| p_type := 1;
     p_flags := 5;
     p_offset := 0;
     p_vaddr := BASE_ADDRESS;
     p_paddr := BASE_ADDRESS;
     p_filesz := wrap_u64 (sizeof_ELF64_Header + sizeof_ELF64_ProgramHeader + code_size cg);
     p_memsz := wrap_u64 (sizeof_ELF64_Header + sizeof_ELF64_ProgramHeader + code_size cg);
     p_align := 0x1000 |}.

(** The object representation of an [n]-byte unsigned field on the
    little-endian host. *)
Fixpoint le_bytes (n : nat) (v : Z) : list Z :=
  match n with
  | O => []
  | S n' => v mod 256 :: le_bytes n' (v / 256)
  end.

Definition elf_header_bytes (h : ELF64_Header) : list Z :=
  e_ident h ++ le_bytes 2 (e_type h) ++ le_bytes 2 (e_machine h)
  ++ le_bytes 4 (e_version h) ++ le_bytes 8 (e_entry h) ++ le_bytes 8 (e_phoff h)
  ++ le_bytes 8 (e_shoff h) ++ le_bytes 4 (e_flags h) ++ le_bytes 2 (e_ehsize h)
  ++ le_bytes 2 (e_phentsize h) ++ le_bytes 2 (e_phnum h)
  ++ le_bytes 2 (e_shentsize h) ++ le_bytes 2 (e_shnum h)
  ++ le_bytes 2 (e_shstrndx h).

Definition prog_header_bytes (p : ELF64_ProgramHeader) : list Z :=
  le_bytes 4 (p_type p) ++ le_bytes 4 (p_flags p) ++ le_bytes 8 (p_offset p)
  ++ le_bytes 8 (p_vaddr p) ++ le_bytes 8 (p_paddr p) ++ le_bytes 8 (p_filesz p)
  ++ le_bytes 8 (p_memsz p) ++ le_bytes 8 (p_align p).

(** [open_ok] says whether [open] returned a descriptor; the second
    component of the result is the content of the file written, the three
    [write]s in order (their results are not looked at in the C code). *)
Definition generate_elf_executable (open_ok : bool) (cg : NativeCodeGen)
  : (bool * option (list Z)) * NativeCodeGen :=
  let '(ok, cg1) := generate_machine_code cg in
  if negb ok then ((false, None), cg1)
  else if negb open_ok
  then ((false, None), native_codegen_error "Could not create output file" cg1)
  else
    ((true,
      Some (elf_header_bytes elf_header ++ prog_header_bytes (prog_header cg1)
            ++ code_buffer cg1)),
     cg1).

(* ================================================================== *)
(** ** [main.c]: the native backend of the driver

    The branch [backend == BACKEND_NATIVE] of [main], from
    [native_codegen_create] to the [return], on a POSIX host.  Its inputs
    are the parsed program (not [NULL]: [main] has returned before when it
    is), the options, whether [open] succeeds on the output file, and for
    the [run] command what [system] returns and what the shell and the
    program it starts write on the standard output and the standard error
    they inherit.  The two logs of the context are the two streams of the
    process: one entry for each [printf] or [fprintf] of [main] and of the
    code generator, and the entries of the child where [system] is called.
    The entries are in the order of the calls.  [stderr] is not buffered,
    so this is the order of the bytes on it; on [stdout] it is the order on
    a terminal, while a [stdout] that is not a terminal is fully buffered
    and what [main] printed before the call of [system] can come after the
    output of the child. *)

Inductive Command : Type := CMD_COMPILE | CMD_RUN.

Definition register_name (r : X86Register) : string :=
  match r with
  | REG_RAX => "rax" | REG_RCX => "rcx" | REG_RDX => "rdx" | REG_RBX => "rbx"
  | REG_RSP => "rsp" | REG_RBP => "rbp" | REG_RSI => "rsi" | REG_RDI => "rdi"
  | REG_R8 => "r8" | REG_R9 => "r9" | REG_R10 => "r10" | REG_R11 => "r11"
  | REG_R12 => "r12" | REG_R13 => "r13" | REG_R14 => "r14" | REG_R15 => "r15"
  end.

Definition set_stderr (log : list string) (cg : NativeCodeGen) :=
  {| instructions := instructions cg; string_literals := string_literals cg;
     functions := functions cg; variables := variables cg;
     current_function := current_function cg; stack_offset := stack_offset cg;
     label_counter := label_counter cg; code_buffer := code_buffer cg;
     code_capacity := code_capacity cg; had_error := had_error cg;
     error_message := error_message cg; stderr_log := log;
     stdout_log := stdout_log cg |}.

(** The [switch] on the operand type of the listing. *)
Definition print_operand (o : Operand) : string :=
  match op_value o with
  | OPERAND_REGISTER r => ("%" ++ register_name r)%string
  | OPERAND_IMMEDIATE imm => ("$" ++ string_of_Z imm)%string
  | OPERAND_MEMORY base offset =>
      (string_of_Z offset ++ "(%" ++ register_name base ++ ")")%string
  | OPERAND_LABEL l => l
  end.

(** The [for] loop over the operands; [first] is [i == 0]. *)
Fixpoint print_operands (first : bool) (ops : list Operand) : list string :=
  match ops with
  | [] => []
  | o :: rest =>
      (if first then [] else [", "]) ++ [print_operand o] ++ print_operands false rest
  end.

(** One turn of the [while (inst)] loop of the listing. *)
Definition print_instruction (inst : Instruction) : list string :=
  match inst_label inst with
  | Some l => [(l ++ ":" ++ newline)%string]
  | None => []
  end
  ++
  let with_operands (mnemonic : string) :=
    [mnemonic] ++ print_operands true (operands inst) ++ [newline] in
  match opcode inst with
  | INST_MOV => with_operands "    mov "
  | INST_PUSH => with_operands "    push "
  | INST_POP => with_operands "    pop "
  | INST_ADD => with_operands "    add "
  | INST_SUB => with_operands "    sub "
  | INST_CALL => with_operands "    call "
  | INST_RET => [("    ret" ++ newline)%string]
  | INST_SYSCALL => [("    syscall" ++ newline)%string]
  | INST_NOP => []
  | _ => with_operands "    ??? "
  end.

Definition print_code (cg : NativeCodeGen) : NativeCodeGen :=
  set_stdout
    (stdout_log cg
     ++ [("=== GENERATED NATIVE CODE ===" ++ newline)%string]
     ++ flat_map print_instruction (instructions cg)
     ++ [newline]) cg.

(** What the branch leaves behind: the value [main] returns, the bytes
    written to the output file if it was written, the command given to
    [system] if one was, whether the output file was removed again, and the
    context with the two logs. *)
Record Outcome : Type := {
  exit_status : Z;
  written : option (list Z);
  executed : option string;
  removed : bool;
  context : NativeCodeGen
}.

Definition native_backend (program : ASTNode) (show_code : bool)
    (command : Command) (output_file : string) (open_ok : bool) (run_result : Z)
    (run_stdout run_stderr : list string)
  : Outcome :=
  let '(ok, cg) := native_codegen_generate (Some program) native_codegen_create in
  if negb ok then
    {| exit_status := 1; written := None; executed := None; removed := false;
       context :=
         set_stderr
           (stderr_log cg
            ++ [("Native code generation failed: "
                 ++ match error_message cg with
                    | Some msg => msg
                    | None => "Unknown error"
                    end ++ newline)%string]) cg |}
  else
    let cg1 := if show_code then print_code cg else cg in
    let '((ok2, file), cg2) := generate_elf_executable open_ok cg1 in
    if negb ok2 then
      {| exit_status := 1; written := None; executed := None; removed := false;
         context :=
           set_stderr
             (stderr_log cg2
              ++ [("Error: Could not generate executable '" ++ output_file ++ "'"
                   ++ newline)%string]) cg2 |}
    else
      match command with
      | CMD_RUN =>
          {| exit_status := 0; written := file;
             executed := Some (substring 0 255 ("./" ++ output_file)%string);
             removed := String.eqb output_file ".zen_temp_executable";
             context :=
               set_stderr (stderr_log cg2 ++ run_stderr)
                 (set_stdout
                    (stdout_log cg2
                     ++ [("Running program:" ++ newline)%string;
                         ("==================" ++ newline)%string]
                     ++ run_stdout
                     ++ [("==================" ++ newline)%string;
                         ("Program exited with code " ++ string_of_Z run_result
                          ++ newline)%string]) cg2) |}
      | CMD_COMPILE =>
          {| exit_status := 0; written := file; executed := None; removed := false;
             context :=
               set_stdout
                 (stdout_log cg2
                  ++ [("Native compilation successful. Executable written to '"
                       ++ output_file ++ "'" ++ newline)%string]) cg2 |}
      end.

(* ================================================================== *)
(** ** Label resolution over the encoder's layout

    The encoder keeps no label table.  The offset a label resolves to is the
    value [code_size] has when the loop passes the label's marker, which is
    the sum of the encoded lengths of the instructions before it. *)

Definition encoded_length (inst : Instruction) : Z :=
  if is_label_marker inst then 0
  else Z.of_nat (List.length (encode_instruction inst)).

Definition has_label (inst : Instruction) (label : string) : bool :=
  match inst_label inst with
  | Some l => String.eqb l label
  | None => false
  end.

Fixpoint label_offset (insts : list Instruction) (label : string) (offset : Z)
  : option Z :=
  match insts with
  | [] => None
  | inst :: next =>
      if has_label inst label then Some offset
      else label_offset next label (offset + encoded_length inst)
  end.

(** The [call]/[jmp] family. *)
Definition is_branch (op : X86Instruction) : bool :=
  match op with
  | INST_CALL | INST_JMP | INST_JE | INST_JNE | INST_JL | INST_JLE
  | INST_JG | INST_JGE => true
  | _ => false
  end.

Definition le_value (bytes : list Z) : Z :=
  fold_right (fun b acc => b + 256 * acc) 0 bytes.

(** The rel32 field of an encoded [call], when the bytes are one. *)
Definition encoded_displacement (bytes : list Z) : option Z :=
  match bytes with
  | [op; b0; b1; b2; b3] =>
      if op =? 0xE8 then Some (wrap_int32 (le_value [b0; b1; b2; b3])) else None
  | _ => None
  end.

Record BranchSite : Type := {
  site_offset : Z;
  instruction_length : Z;
  displacement : option Z;
  target_label : string
}.

(** Every branch instruction whose operand is a label, with the offset it
    is encoded at. *)
Fixpoint branch_sites (insts : list Instruction) (offset : Z) : list BranchSite :=
  match insts with
  | [] => []
  | inst :: next =>
      let rest := branch_sites next (offset + encoded_length inst) in
      match is_branch (opcode inst), map op_value (operands inst) with
      | true, [OPERAND_LABEL l] =>
          {| site_offset := offset;
             instruction_length := encoded_length inst;
             displacement := encoded_displacement (encode_instruction inst);
             target_label := l |} :: rest
      | _, _ => rest
      end
  end.

(** [site_offset + instruction_length + displacement == target_offset] *)
Definition site_resolved (insts : list Instruction) (s : BranchSite) : bool :=
  match displacement s, label_offset insts (target_label s) 0 with
  | Some d, Some target => site_offset s + instruction_length s + d =? target
  | _, _ => false
  end.

(** The instructions that follow the marker of a label. *)
Fixpoint code_after_label (insts : list Instruction) (label : string)
  : option (list Instruction) :=
  match insts with
  | [] => None
  | inst :: next =>
      if has_label inst label then Some next else code_after_label next label
  end.

(** The bytes one run of the encoder stores for a list of instructions. *)
Definition encode_all (insts : list Instruction) : list Z :=
  flat_map (fun inst => if is_label_marker inst then [] else encode_instruction inst)
           insts.

(** The opcodes that have a [case] of their own in the encoder. *)
Definition has_encoding (op : X86Instruction) : bool :=
  match op with
  | INST_MOV | INST_PUSH | INST_POP | INST_CALL | INST_RET | INST_SYSCALL
  | INST_ADD | INST_SUB => true
  | _ => false
  end.

(** A sequence of error reports on one context. *)
Definition report_errors (messages : list string) (cg : NativeCodeGen)
  : NativeCodeGen :=
  fold_left (fun c msg => native_codegen_error msg c) messages cg.

(* ================================================================== *)
(** ** Reference semantics of the target

    What the x86-64 processor does with the straight-line instructions the
    lowering emits, as far as the properties below need it: sixteen 64-bit
    registers and a memory of 64-bit cells.  A cell is named by the address
    of its first byte; accesses that overlap a cell in part are outside the
    model (the stack accesses of the generated code are 8 bytes apart).
    Flags are not modelled.  [INST_MUL dst, src] is read as the two-operand
    multiply.  Control transfers and the instructions without a semantics
    here give [None]. *)

Record Machine : Type := {
  regs : X86Register -> Z;
  mem : Z -> Z
}.

Definition set_reg (r : X86Register) (v : Z) (m : Machine) : Machine :=
  {| regs := fun x => if reg_eqb x r then v else regs m x; mem := mem m |}.

Definition store (a v : Z) (m : Machine) : Machine :=
  {| regs := regs m; mem := fun x => if x =? a then v else mem m x |}.

Definition exec_instruction (inst : Instruction) (m : Machine) : option Machine :=
  match opcode inst, map op_value (operands inst) with
  | INST_MOV, [OPERAND_REGISTER r; OPERAND_IMMEDIATE imm] =>
      Some (set_reg r (wrap_u64 imm) m)
  | INST_MOV, [OPERAND_REGISTER dst; OPERAND_REGISTER src] =>
      Some (set_reg dst (regs m src) m)
  | INST_MOV, [OPERAND_REGISTER dst; OPERAND_MEMORY b off] =>
      Some (set_reg dst (mem m (wrap_u64 (regs m b + off))) m)
  | INST_MOV, [OPERAND_MEMORY b off; OPERAND_REGISTER src] =>
      Some (store (wrap_u64 (regs m b + off)) (regs m src) m)
  | INST_PUSH, [OPERAND_REGISTER r] =>
      let sp := wrap_u64 (regs m REG_RSP - 8) in
      Some (store sp (regs m r) (set_reg REG_RSP sp m))
  | INST_POP, [OPERAND_REGISTER r] =>
      let sp := regs m REG_RSP in
      Some (set_reg r (mem m sp) (set_reg REG_RSP (wrap_u64 (sp + 8)) m))
  | INST_ADD, [OPERAND_REGISTER dst; OPERAND_REGISTER src] =>
      Some (set_reg dst (wrap_u64 (regs m dst + regs m src)) m)
  | INST_SUB, [OPERAND_REGISTER dst; OPERAND_REGISTER src] =>
      Some (set_reg dst (wrap_u64 (regs m dst - regs m src)) m)
  | INST_MUL, [OPERAND_REGISTER dst; OPERAND_REGISTER src] =>
      Some (set_reg dst (wrap_u64 (regs m dst * regs m src)) m)
  | INST_MUL, [OPERAND_REGISTER dst; OPERAND_IMMEDIATE imm] =>
      Some (set_reg dst (wrap_u64 (regs m dst * imm)) m)
  | INST_NOP, [] => Some m
  | _, _ => None
  end.

Fixpoint exec (code : list Instruction) (m : Machine) : option Machine :=
  match code with
  | [] => Some m
  | inst :: next =>
      match exec_instruction inst m with
      | Some m' => exec next m'
      | None => None
      end
  end.

(** The machine state in which the first [syscall] of [code] is reached. *)
Fixpoint at_syscall (code : list Instruction) (m : Machine) : option Machine :=
  match code with
  | [] => None
  | inst :: next =>
      match opcode inst with
      | INST_SYSCALL => Some m
      | _ =>
          match exec_instruction inst m with
          | Some m' => at_syscall next m'
          | None => None
          end
      end
  end.

(** *** Decoding of the byte forms the encoder produces *)

Definition reg_of_field (n : Z) : X86Register :=
  if n =? 0 then REG_RAX else if n =? 1 then REG_RCX
  else if n =? 2 then REG_RDX else if n =? 3 then REG_RBX
  else if n =? 4 then REG_RSP else if n =? 5 then REG_RBP
  else if n =? 6 then REG_RSI else REG_RDI.

Definition plain (op : X86Instruction) (ops : list Operand) : Instruction :=
  {| opcode := op; operands := ops; inst_label := None |}.

(** [REX.W op ModRM] with a register-direct ModRM byte: [rm] is the
    destination and [reg] the source of the three opcodes used. *)
Definition decode_modrm (op : X86Instruction) (modrm : Z) : option Instruction :=
  if (0xC0 <=? modrm) && (modrm <=? 0xFF) then
    Some (plain op [reg_operand (reg_of_field (Z.land modrm 7));
                    reg_operand (reg_of_field (Z.land (Z.shiftr modrm 3) 7))])
  else None.

Definition decode (code : list Z) : option (Instruction * list Z) :=
  match code with
  | [] => None
  | b :: rest =>
      if b =? 0x48 then
        match rest with
        | op :: rest1 =>
            if op =? 0x89 then
              match rest1 with
              | modrm :: rest2 =>
                  option_map (fun i => (i, rest2)) (decode_modrm INST_MOV modrm)
              | [] => None
              end
            else if op =? 0x01 then
              match rest1 with
              | modrm :: rest2 =>
                  option_map (fun i => (i, rest2)) (decode_modrm INST_ADD modrm)
              | [] => None
              end
            else if op =? 0x29 then
              match rest1 with
              | modrm :: rest2 =>
                  option_map (fun i => (i, rest2)) (decode_modrm INST_SUB modrm)
              | [] => None
              end
            else if (0xB8 <=? op) && (op <=? 0xBF) then
              match rest1 with
              | b0 :: b1 :: b2 :: b3 :: b4 :: b5 :: b6 :: b7 :: rest2 =>
                  Some (plain INST_MOV
                          [reg_operand (reg_of_field (op - 0xB8));
                           imm_operand (le_value [b0; b1; b2; b3; b4; b5; b6; b7])],
                        rest2)
              | _ => None
              end
            else None
        | [] => None
        end
      else if (0x50 <=? b) && (b <=? 0x57) then
        Some (plain INST_PUSH [reg_operand (reg_of_field (b - 0x50))], rest)
      else if (0x58 <=? b) && (b <=? 0x5F) then
        Some (plain INST_POP [reg_operand (reg_of_field (b - 0x58))], rest)
      else if b =? 0x90 then Some (plain INST_NOP [], rest)
      else if b =? 0xC3 then Some (plain INST_RET [], rest)
      else if b =? 0x0F then
        match rest with
        | b1 :: rest1 =>
            if b1 =? 0x05 then Some (plain INST_SYSCALL [], rest1) else None
        | [] => None
        end
      else if b =? 0xE8 then
        match rest with
        | b0 :: b1 :: b2 :: b3 :: rest1 =>
            Some (plain INST_CALL
                    [imm_operand (wrap_int32 (le_value [b0; b1; b2; b3]))], rest1)
        | _ => None
        end
      else None
  end.

(** Straight-line execution of machine code: decode, execute, go on with
    the bytes that follow.  Each step consumes at least one byte, so the
    length of the code is fuel enough. *)
Fixpoint run_code (fuel : nat) (code : list Z) (m : Machine) : option Machine :=
  match code with
  | [] => Some m
  | _ :: _ =>
      match fuel with
      | O => None
      | S fuel' =>
          match decode code with
          | Some (inst, rest) =>
              match exec_instruction inst m with
              | Some m' => run_code fuel' rest m'
              | None => None
              end
          | None => None
          end
      end
  end.

Definition run_bytes (code : list Z) (m : Machine) : option Machine :=
  run_code (List.length code) code m.

(** *** The value an expression denotes

    Literals that are numbers, booleans or null, joined by [+], [-], [*] and
    unary minus, in 64-bit arithmetic. *)
Fixpoint eval (e : ASTNode) : option Z :=
  match e with
  | AST_LITERAL_EXPR (LITERAL_NUMBER d) => Some (wrap_u64 (double_to_int64 d))
  | AST_LITERAL_EXPR (LITERAL_BOOLEAN b) => Some (if b then 1 else 0)
  | AST_LITERAL_EXPR LITERAL_NULL => Some 0
  | AST_BINARY_EXPR op a b =>
      match eval a, eval b with
      | Some x, Some y =>
          match op with
          | BINARY_ADD => Some (wrap_u64 (x + y))
          | BINARY_SUBTRACT => Some (wrap_u64 (x - y))
          | BINARY_MULTIPLY => Some (wrap_u64 (x * y))
          | _ => None
          end
      | _, _ => None
      end
  | AST_UNARY_EXPR UNARY_MINUS a =>
      match eval a with
      | Some x => Some (wrap_u64 (x * -1))
      | None => None
      end
  | _ => None
  end.

(** The number of stack cells the code of an expression pushes at most. *)
Fixpoint stack_need (e : ASTNode) : Z :=
  match e with
  | AST_BINARY_EXPR _ a b => Z.max (stack_need a) (1 + stack_need b)
  | AST_UNARY_EXPR _ a => stack_need a
  | _ => 0
  end.

(** The same fragment without the multiplications, which is the part of it
    the encoder has byte forms for. *)
Fixpoint additive (e : ASTNode) : bool :=
  match e with
  | AST_LITERAL_EXPR (LITERAL_NUMBER _) => true
  | AST_LITERAL_EXPR (LITERAL_BOOLEAN _) => true
  | AST_LITERAL_EXPR LITERAL_NULL => true
  | AST_BINARY_EXPR BINARY_ADD a b => additive a && additive b
  | AST_BINARY_EXPR BINARY_SUBTRACT a b => additive a && additive b
  | _ => false
  end.

(** *** Local declarations of a function body

    The variable declarations the lowering of a statement reaches, in the
    order it reaches them. *)
Fixpoint declarations_of (stmt : ASTNode) : list (string * ZenType * bool) :=
  match stmt with
  | AST_VAR_DECLARATION name var_type is_const _ => [(name, var_type, is_const)]
  | AST_BLOCK_STMT statements =>
      (fix all (l : list ASTNode) : list (string * ZenType * bool) :=
         match l with
         | [] => []
         | s :: rest => declarations_of s ++ all rest
         end) statements
  | _ => []
  end.

(** [8; 16; ...; 8k] *)
Definition slots (k : nat) : list Z := map (fun i => 8 * Z.of_nat i) (seq 1 k).

(* ================================================================== *)
(** ** Sample programs *)

Definition number (n : Z) : ASTNode := AST_LITERAL_EXPR (LITERAL_NUMBER (inject_Z n)).

(** [func main() -> i32 { return 42; }] *)
Definition main_returns_42 : list ASTNode :=
  [AST_FUNCTION_DECLARATION "main" [] TYPE_I32
     (AST_BLOCK_STMT [AST_RETURN_STMT (Some (number 42))])].

(** [func f() { let x: i32 = 1; }  func main() -> i32 { return x; }] *)
Definition uses_foreign_local : list ASTNode :=
  [AST_FUNCTION_DECLARATION "f" [] TYPE_VOID
     (AST_BLOCK_STMT [AST_VAR_DECLARATION "x" TYPE_I32 false (Some (number 1))]);
   AST_FUNCTION_DECLARATION "main" [] TYPE_I32
     (AST_BLOCK_STMT [AST_RETURN_STMT (Some (AST_IDENTIFIER_EXPR "x"))])].

(** [(1 + 2) * (3 + 4)] and [(1 + 2) + (3 + 4)] *)
Definition product_of_sums : ASTNode :=
  AST_BINARY_EXPR BINARY_MULTIPLY
    (AST_BINARY_EXPR BINARY_ADD (number 1) (number 2))
    (AST_BINARY_EXPR BINARY_ADD (number 3) (number 4)).

Definition sum_of_sums : ASTNode :=
  AST_BINARY_EXPR BINARY_ADD
    (AST_BINARY_EXPR BINARY_ADD (number 1) (number 2))
    (AST_BINARY_EXPR BINARY_ADD (number 3) (number 4)).

(** [func main() -> i32 { return (1 + 2) * (3 + 4); }] *)
Definition main_returns_product : list ASTNode :=
  [AST_FUNCTION_DECLARATION "main" [] TYPE_I32
     (AST_BLOCK_STMT [AST_RETURN_STMT (Some product_of_sums)])].

(** [func main() -> i32 { let x: i32 = 7; return 5 + x; }] *)
Definition main_adds_to_local : list ASTNode :=
  [AST_FUNCTION_DECLARATION "main" [] TYPE_I32
     (AST_BLOCK_STMT
        [AST_VAR_DECLARATION "x" TYPE_I32 false (Some (number 7));
         AST_RETURN_STMT
           (Some (AST_BINARY_EXPR BINARY_ADD (number 5) (AST_IDENTIFIER_EXPR "x")))])].

(** The context after a program is lowered from a fresh one. *)
Definition lowered (declarations : list ASTNode) : NativeCodeGen :=
  snd (native_codegen_program declarations native_codegen_create).

(** The instructions an expression is lowered to, from a fresh context. *)
Definition expression_code (e : ASTNode) (result_reg : X86Register)
  : list Instruction :=
  instructions (snd (native_codegen_expression e result_reg native_codegen_create)).

(** A machine with a stack pointer and zeroes elsewhere. *)
Definition machine_with_stack (sp : Z) : Machine :=
  {| regs := fun r => if reg_eqb r REG_RSP then sp else 0; mem := fun _ => 0 |}.

(** Three declarations of three types, one of them in a nested block. *)
Definition three_locals : ASTNode :=
  AST_BLOCK_STMT
    [AST_VAR_DECLARATION "a" TYPE_I32 false (Some (number 1));
     AST_VAR_DECLARATION "b" TYPE_STRING true None;
     AST_BLOCK_STMT
       [AST_VAR_DECLARATION "c" TYPE_BOOL false
          (Some (AST_LITERAL_EXPR (LITERAL_BOOLEAN true)))]].

(* ================================================================== *)
(** ** Vocabulary of the proofs *)

Definition option_all {A} (P : A -> Prop) (o : option A) : Prop :=
  match o with
  | Some x => P x
  | None => True
  end.

(** A relation between the context before and after that a function, or a
    lowering step, stays inside. *)
Definition respects_fn (R : NativeCodeGen -> NativeCodeGen -> Prop)
    (f : NativeCodeGen -> NativeCodeGen) : Prop :=
  forall cg, R cg (f cg).

Definition respects {A} (R : NativeCodeGen -> NativeCodeGen -> Prop)
    (m : Gen A) : Prop :=
  forall cg, R cg (snd (m cg)).

(** The instruction the [switch] on a binary operator emits. *)
Definition operation_code (operator : BinaryOperator) : list Instruction :=
  instructions (snd (binary_operation operator native_codegen_create)).

(** The registers that fit the three-bit fields of the byte forms without
    a REX extension bit. *)
Definition low_reg (r : X86Register) : bool := reg_num r <? 8.

(** The instructions that the decoder reads back from their encoding with
    the meaning they had. *)
Definition encodable (inst : Instruction) : bool :=
  match inst_label inst with
  | Some _ => false
  | None =>
      match opcode inst, map op_value (operands inst) with
      | INST_MOV, [OPERAND_REGISTER r; OPERAND_IMMEDIATE _] => low_reg r
      | INST_MOV, [OPERAND_REGISTER dst; OPERAND_REGISTER src] =>
          low_reg dst && low_reg src
      | INST_ADD, [OPERAND_REGISTER dst; OPERAND_REGISTER src] =>
          low_reg dst && low_reg src
      | INST_SUB, [OPERAND_REGISTER dst; OPERAND_REGISTER src] =>
          low_reg dst && low_reg src
      | INST_PUSH, [OPERAND_REGISTER r] => low_reg r
      | INST_POP, [OPERAND_REGISTER r] => low_reg r
      | _, _ => false
      end
  end.

(** The variable table and the stack cursor are the same. *)
Definition same_scope (cg cg' : NativeCodeGen) : Prop :=
  variables cg' = variables cg /\ stack_offset cg' = stack_offset cg.

(** The instruction list has grown at its end, by instructions that carry
    no label. *)
Definition appends_unlabeled (cg cg' : NativeCodeGen) : Prop :=
  exists code,
    instructions cg' = instructions cg ++ code
    /\ Forall (fun i => inst_label i = None) code.

(** The offsets handed out from cursor [s] to [n] declarations in a row. *)
Definition offsets_from (s : Z) (n : nat) : list Z :=
  map (fun i => wrap_int32 (s + 8 * Z.of_nat i)) (seq 0 n).

Definition declaration_of (v : VariableSymbol) : string * ZenType * bool :=
  (var_name v, var_zen_type v, var_is_const v).

(** [cg'] has the declarations [decls] on top of the variable table of
    [cg], at consecutive offsets from the cursor of [cg]. *)
Definition scope_extended (cg cg' : NativeCodeGen)
    (decls : list (string * ZenType * bool)) : Prop :=
  exists new : list VariableSymbol,
    variables cg' = rev new ++ variables cg
    /\ map declaration_of new = decls
    /\ map var_stack_offset new = offsets_from (stack_offset cg) (List.length new)
    /\ stack_offset cg'
       = wrap_int32 (stack_offset cg + 8 * Z.of_nat (List.length new)).

(** *** Outcomes of a lowering step *)

(** The line [native_codegen_error] writes to [stderr]. *)
Definition error_line (msg : string) : string :=
  ("Native code generation error: " ++ msg ++ newline)%string.

(** Nothing was reported between [cg] and [cg']. *)
Definition quiet (cg cg' : NativeCodeGen) : Prop :=
  had_error cg' = had_error cg
  /\ error_message cg' = error_message cg
  /\ stderr_log cg' = stderr_log cg.

(** One error was reported between [cg] and [cg'], and it is the stored
    one. *)
Definition raised (cg cg' : NativeCodeGen) : Prop :=
  had_error cg' = true
  /\ exists msg,
       error_message cg' = Some msg
       /\ stderr_log cg' = stderr_log cg ++ [error_line msg].

Definition outcome (ok : bool) (cg cg' : NativeCodeGen) : Prop :=
  if ok then quiet cg cg' else raised cg cg'.

(** A step whose result tells whether an error was reported. *)
Definition reports_faithfully (m : Gen bool) : Prop :=
  forall cg, outcome (fst (m cg)) cg (snd (m cg)).

(** *** Shapes of programs and of emitted code *)

(** Some declaration of the program is a function named [main]. *)
Definition declares_main (declarations : list ASTNode) : bool :=
  existsb (fun decl =>
             match decl with
             | AST_FUNCTION_DECLARATION name _ _ _ => String.eqb name "main"
             | _ => false
             end) declarations.

(** The tables and the instruction list of [cg'] are those of [cg] with
    entries added (at the end of the instructions, on top of the tables);
    the code buffer is untouched and [stdout] has grown. *)
Definition grows (cg cg' : NativeCodeGen) : Prop :=
  (exists code, instructions cg' = instructions cg ++ code)
  /\ (exists strs, string_literals cg' = strs ++ string_literals cg)
  /\ (exists funcs, functions cg' = funcs ++ functions cg)
  /\ (exists vars, variables cg' = vars ++ variables cg)
  /\ code_buffer cg' = code_buffer cg
  /\ code_capacity cg' = code_capacity cg
  /\ (exists lines, stdout_log cg' = stdout_log cg ++ lines).

(** The instructions found in function bodies: no label, and one of the
    data-movement, arithmetic, compare and return opcodes. *)
Definition body_instruction (i : Instruction) : bool :=
  match inst_label i with
  | Some _ => false
  | None =>
      match opcode i with
      | INST_MOV | INST_PUSH | INST_POP | INST_ADD | INST_SUB | INST_MUL
      | INST_DIV | INST_CMP | INST_RET => true
      | _ => false
      end
  end.

Definition appends_body (cg cg' : NativeCodeGen) : Prop :=
  exists code,
    instructions cg' = instructions cg ++ code
    /\ forallb body_instruction code = true.

(** A call of the builtin [print] with exactly one argument. *)
Definition is_print_call (callee : ASTNode) (arguments : list ASTNode) : bool :=
  match callee, arguments with
  | AST_IDENTIFIER_EXPR name, [_] => String.eqb name "print"
  | _, _ => false
  end.

(** The line the compile-time write of a string literal puts on [stdout]. *)
Definition output_line (content : string) : string :=
  ("Zen program output: " ++ content ++ newline)%string.

(** What the lowering of a statement may do to the context: add body
    instructions, and leave the function table and the current function. *)
Definition body_step (cg cg' : NativeCodeGen) : Prop :=
  appends_body cg cg'
  /\ functions cg' = functions cg
  /\ current_function cg' = current_function cg.

(** The statement kinds the lowering has a case for, through nested
    blocks. *)
Fixpoint supported_statement (stmt : ASTNode) : bool :=
  match stmt with
  | AST_VAR_DECLARATION _ _ _ _ => true
  | AST_RETURN_STMT _ => true
  | AST_EXPRESSION_STMT _ => true
  | AST_BLOCK_STMT statements =>
      (fix all (l : list ASTNode) : bool :=
         match l with
         | [] => true
         | s :: rest => supported_statement s && all rest
         end) statements
  | _ => false
  end.

(** The function named [main] the loop has recorded, when it has seen one:
    it is in the function table and its label marks an instruction. *)
Definition main_recorded (has_main : bool) (main_func : option FunctionSymbol)
    (cg : NativeCodeGen) : Prop :=
  has_main = true ->
  exists f,
    main_func = Some f
    /\ In f (functions cg)
    /\ is_main f = true
    /\ exists i, In i (instructions cg) /\ inst_label i = Some (func_label f).

(** *** Vocabulary of the encoder and of the program loop *)

(** Two operands that the encoder cannot tell apart: registers with the
    same [register_encoding], equal immediates, any two memory operands, any
    two labels. *)
Definition same_encoding_field (a b : Operand) : bool :=
  match op_value a, op_value b with
  | OPERAND_REGISTER r, OPERAND_REGISTER s => register_encoding r =? register_encoding s
  | OPERAND_IMMEDIATE i, OPERAND_IMMEDIATE j => i =? j
  | OPERAND_MEMORY _ _, OPERAND_MEMORY _ _ => true
  | OPERAND_LABEL _, OPERAND_LABEL _ => true
  | _, _ => false
  end.

(** The name and the body of every function declaration, in order: what
    the loop of [native_codegen_program] reads of the declarations. *)
Definition function_declarations (decls : list ASTNode) : list (string * ASTNode) :=
  flat_map (fun decl =>
              match decl with
              | AST_FUNCTION_DECLARATION name _ _ body => [(name, body)]
              | _ => []
              end) decls.

(** The immediate a literal is lowered with. *)
Definition literal_immediate (l : LiteralValue) : Z :=
  match l with
  | LITERAL_NUMBER d => double_to_int64 d
  | LITERAL_STRING _ => 0x600000
  | LITERAL_BOOLEAN b => if b then 1 else 0
  | LITERAL_NULL => 0
  end.

(** A machine inside a frame that has just been set up: the stack and frame
    pointers are equal, zeroes elsewhere. *)
Definition machine_in_frame (sp : Z) : Machine :=
  {| regs := fun r => if reg_eqb r REG_RSP || reg_eqb r REG_RBP then sp else 0;
     mem := fun _ => 0 |}.

(** [func f() { let x: i32 = 1; }] lowered from a fresh context. *)
Definition frame_with_one_local : NativeCodeGen :=
  snd (native_codegen_function "f"
         (AST_BLOCK_STMT [AST_VAR_DECLARATION "x" TYPE_I32 false (Some (number 1))])
         native_codegen_create).

(* ================================================================== *)
(** * Properties *)

(** ** Error reporting *)

Lemma report_errors_snoc (messages : list string) (msg : string) (cg : NativeCodeGen) :
  report_errors (messages ++ [msg]) cg
  = native_codegen_error msg (report_errors messages cg).
Proof. unfold report_errors. now rewrite fold_left_app. Qed.

(** C3, as the code has it: every report sets the flag and replaces the
    stored message, so after any sequence of reports on one context the
    retained message is the one reported last. *)
Theorem error_last_report_wins :
  forall (cg : NativeCodeGen) (messages : list string) (msg : string),
    had_error (report_errors (messages ++ [msg]) cg) = true
    /\ error_message (report_errors (messages ++ [msg]) cg) = Some msg.
Proof.
  intros cg messages msg. rewrite report_errors_snoc. split; reflexivity.
Qed.

(** C3 as stated fails: after a first report has set the flag, a second
    report replaces the message; the first one is not retained. *)
Lemma error_first_report_lost :
  had_error (report_errors ["first"%string] native_codegen_create) = true
  /\ error_message (report_errors ["first"%string] native_codegen_create)
     = Some "first"%string
  /\ error_message (report_errors ["first"%string; "second"%string] native_codegen_create)
     = Some "second"%string
  /\ error_message (report_errors ["first"%string; "second"%string] native_codegen_create)
     <> Some "first"%string.
Proof. repeat split; try reflexivity. discriminate. Qed.

(** ** Updates of the instruction list *)

Lemma set_instructions_twice (l l' : list Instruction) (cg : NativeCodeGen) :
  set_instructions l (set_instructions l' cg) = set_instructions l cg.
Proof. reflexivity. Qed.

Lemma instructions_set (l : list Instruction) (cg : NativeCodeGen) :
  instructions (set_instructions l cg) = l.
Proof. reflexivity. Qed.

Lemma append_set (i : Instruction) (l : list Instruction) (cg : NativeCodeGen) :
  append_instruction i (set_instructions l cg) = set_instructions (l ++ [i]) cg.
Proof. reflexivity. Qed.

(** ** The encoder loop *)

Lemma ensure_capacity_buffer (cg : NativeCodeGen) :
  code_buffer (ensure_capacity cg) = code_buffer cg.
Proof. unfold ensure_capacity. now destruct (_ >? _). Qed.

Lemma ensure_capacity_error (cg : NativeCodeGen) :
  had_error (ensure_capacity cg) = had_error cg
  /\ error_message (ensure_capacity cg) = error_message cg
  /\ instructions (ensure_capacity cg) = instructions cg.
Proof. unfold ensure_capacity. now destruct (_ >? _). Qed.

Lemma encode_loop_buffer (insts : list Instruction) :
  forall cg, code_buffer (encode_loop insts cg) = code_buffer cg ++ encode_all insts.
Proof.
  induction insts as [|inst next IH]; intros cg; simpl.
  - now rewrite app_nil_r.
  - destruct (is_label_marker inst); simpl.
    + apply IH.
    + rewrite IH. unfold store_bytes; simpl.
      rewrite ensure_capacity_buffer. now rewrite app_assoc.
Qed.

Lemma encode_loop_preserves (insts : list Instruction) :
  forall cg,
    had_error (encode_loop insts cg) = had_error cg
    /\ error_message (encode_loop insts cg) = error_message cg
    /\ instructions (encode_loop insts cg) = instructions cg.
Proof.
  induction insts as [|inst next IH]; intros cg; simpl.
  - auto.
  - destruct (is_label_marker inst).
    + apply IH.
    + destruct (IH (store_bytes (encode_instruction inst) (ensure_capacity cg)))
        as (H1 & H2 & H3).
      destruct (ensure_capacity_error cg) as (E1 & E2 & E3).
      rewrite H1, H2, H3. unfold store_bytes; simpl. auto.
Qed.

(** C4, as the code has it: an instruction whose opcode has no case in the
    encoder, and which is not a label marker, is encoded as the single byte
    [0x90], wherever it stands in the sequence; the encoder reports no error
    and returns success. *)
Theorem unencoded_opcode_emits_nop :
  forall (pre post : list Instruction) (inst : Instruction) (cg : NativeCodeGen),
    has_encoding (opcode inst) = false ->
    is_label_marker inst = false ->
    encode_instruction inst = [0x90]
    /\ fst (generate_machine_code (set_instructions (pre ++ inst :: post) cg)) = true
    /\ code_buffer (snd (generate_machine_code
                           (set_instructions (pre ++ inst :: post) cg)))
       = code_buffer cg ++ encode_all pre ++ [0x90] ++ encode_all post
    /\ had_error (snd (generate_machine_code
                         (set_instructions (pre ++ inst :: post) cg)))
       = had_error cg
    /\ error_message (snd (generate_machine_code
                             (set_instructions (pre ++ inst :: post) cg)))
       = error_message cg.
Proof.
  intros pre post inst cg Henc Hmark.
  assert (E : encode_instruction inst = [0x90]).
  { unfold encode_instruction. destruct (opcode inst); try discriminate; reflexivity. }
  split; [exact E|]. split; [reflexivity|].
  unfold generate_machine_code; cbn [snd].
  rewrite instructions_set.
  destruct (encode_loop_preserves (pre ++ inst :: post)
              (set_instructions (pre ++ inst :: post) cg)) as (H1 & H2 & _).
  split; [|split; assumption].
  rewrite encode_loop_buffer.
  change (code_buffer (set_instructions (pre ++ inst :: post) cg))
    with (code_buffer cg).
  f_equal. unfold encode_all. rewrite flat_map_app. f_equal.
  cbn [flat_map]. now rewrite Hmark, E.
Qed.

Lemma unencoded_opcode_emits_nop_witness :
  has_encoding (opcode (plain INST_MUL [reg_operand REG_RAX; reg_operand REG_RBX])) = false
  /\ is_label_marker (plain INST_MUL [reg_operand REG_RAX; reg_operand REG_RBX]) = false
  /\ encode_instruction (plain INST_MUL [reg_operand REG_RAX; reg_operand REG_RBX]) = [0x90]
  /\ fst (generate_machine_code
            (set_instructions
               ([plain INST_POP [reg_operand REG_RAX]]
                ++ plain INST_MUL [reg_operand REG_RAX; reg_operand REG_RBX]
                   :: [plain INST_RET []])
               native_codegen_create)) = true
  /\ code_buffer (snd (generate_machine_code
            (set_instructions
               ([plain INST_POP [reg_operand REG_RAX]]
                ++ plain INST_MUL [reg_operand REG_RAX; reg_operand REG_RBX]
                   :: [plain INST_RET []])
               native_codegen_create)))
     = [0x58; 0x90; 0xC3].
Proof.
  split; [reflexivity|]. split; [reflexivity|].
  destruct (unencoded_opcode_emits_nop
              [plain INST_POP [reg_operand REG_RAX]] [plain INST_RET []]
              (plain INST_MUL [reg_operand REG_RAX; reg_operand REG_RBX])
              native_codegen_create eq_refl eq_refl) as (H1 & H2 & H3 & _).
  split; [exact H1|]. split; [exact H2 | exact H3].
Defined.

(** C4 as stated fails: for [mul rax, rbx] the encoder succeeds, sets no
    error and stores the padding byte [0x90]. *)
Lemma unsupported_opcode_is_padded :
  fst (generate_machine_code
         (emit_instruction_reg_reg INST_MUL REG_RAX REG_RBX native_codegen_create))
  = true
  /\ had_error (snd (generate_machine_code
         (emit_instruction_reg_reg INST_MUL REG_RAX REG_RBX native_codegen_create)))
     = false
  /\ code_buffer (snd (generate_machine_code
         (emit_instruction_reg_reg INST_MUL REG_RAX REG_RBX native_codegen_create)))
     = [0x90].
Proof. repeat split; reflexivity. Qed.

(** C8, as the code has it: the encoder starts at the current end of the
    buffer, so a second run on the same context appends a copy of the bytes
    the first run stored; both runs succeed and leave the instructions as
    they were. *)
Theorem encoder_second_run_appends :
  forall cg : NativeCodeGen,
    let first := generate_machine_code cg in
    let second := generate_machine_code (snd first) in
    fst first = true /\ fst second = true
    /\ instructions (snd first) = instructions cg
    /\ code_buffer (snd first) = code_buffer cg ++ encode_all (instructions cg)
    /\ code_buffer (snd second)
       = code_buffer (snd first) ++ encode_all (instructions cg).
Proof.
  intros cg first second. subst first second.
  unfold generate_machine_code; simpl.
  destruct (encode_loop_preserves (instructions cg) cg) as (_ & _ & Hi).
  repeat split; trivial.
  - apply encode_loop_buffer.
  - rewrite Hi. apply encode_loop_buffer.
Qed.

(** C8 as stated fails: for the program whose [main] returns 42, the 64
    bytes of the first run are followed by 64 more after the second. *)
Lemma encoder_second_run_differs :
  code_buffer (snd (generate_machine_code
                      (snd (generate_machine_code (lowered main_returns_42)))))
  <> code_buffer (snd (generate_machine_code (lowered main_returns_42)))
  /\ List.length (code_buffer (snd (generate_machine_code (lowered main_returns_42))))
     = 64%nat
  /\ List.length (code_buffer (snd (generate_machine_code
                      (snd (generate_machine_code (lowered main_returns_42))))))
     = 128%nat.
Proof.
  split; [|split; vm_compute; reflexivity].
  intro H. apply (f_equal (@List.length Z)) in H. vm_compute in H. discriminate.
Qed.

Lemma encode_all_app (a b : list Instruction) :
  encode_all (a ++ b) = encode_all a ++ encode_all b.
Proof. unfold encode_all. apply flat_map_app. Qed.

(** ** The entry sequence *)

(** C1 fails on the code.  For the program whose [main] returns 42 the
    lowering succeeds and [_start] is [call func_0; mov rdi, rax;
    mov rax, 60; mov rdi, 0; syscall]: the helper that emits the exit call
    loads its constant argument 0 into RDI after the return value was moved
    there, so RDI is 0 when the [syscall] is reached, whatever RAX held on
    return from [main]. *)
Theorem start_exits_with_status_zero :
  fst (native_codegen_program main_returns_42 native_codegen_create) = true
  /\ code_after_label (instructions (lowered main_returns_42)) "_start"
     = Some [plain INST_CALL [label_operand "func_0"];
             plain INST_MOV [reg_operand REG_RDI; reg_operand REG_RAX];
             plain INST_MOV [reg_operand REG_RAX; imm_operand 60];
             plain INST_MOV [reg_operand REG_RDI; imm_operand 0];
             plain INST_SYSCALL []]
  /\ (forall m : Machine,
        exists m',
          at_syscall [plain INST_MOV [reg_operand REG_RDI; reg_operand REG_RAX];
                      plain INST_MOV [reg_operand REG_RAX; imm_operand 60];
                      plain INST_MOV [reg_operand REG_RDI; imm_operand 0];
                      plain INST_SYSCALL []] m = Some m'
          /\ regs m' REG_RDI = 0
          /\ regs m' REG_RAX = 60).
Proof.
  split; [vm_compute; reflexivity|]. split; [vm_compute; reflexivity|].
  intros m. eexists. split; [reflexivity|]. split; reflexivity.
Qed.

(** ** Call displacements *)

(** C2 fails on the code.  In the program whose [main] returns 42 the one
    call is encoded at offset 34, is 5 bytes long and targets [func_0],
    which resolves to offset 0; its displacement field is 0, and
    [34 + 5 + 0] is not 0.  The bytes of a call are [E8 00 00 00 00]
    whatever its operand is. *)
Theorem call_displacement_is_zero :
  branch_sites (instructions (lowered main_returns_42)) 0
  = [{| site_offset := 34; instruction_length := 5; displacement := Some 0;
        target_label := "func_0" |}]
  /\ label_offset (instructions (lowered main_returns_42)) "func_0" 0 = Some 0
  /\ 34 + 5 + 0 <> 0
  /\ forallb (site_resolved (instructions (lowered main_returns_42)))
             (branch_sites (instructions (lowered main_returns_42)) 0) = false
  /\ (forall (ops : list Operand) (lbl : option string),
        encode_instruction {| opcode := INST_CALL; operands := ops; inst_label := lbl |}
        = [0xE8; 0; 0; 0; 0]).
Proof.
  split; [vm_compute; reflexivity|]. split; [vm_compute; reflexivity|].
  split; [discriminate|]. split; [vm_compute; reflexivity|].
  intros ops lbl. reflexivity.
Qed.

(** ** Function scope *)

(** C5 fails on the code.  [x] is declared in [f] only, and [main] returns
    [x]: the lowering succeeds without an error, because the variable table
    still holds the [x] of [f] while [main] is lowered, and the body of
    [main] (after its label [func_1]) loads [rbp - 8]. *)
Theorem foreign_local_is_found :
  fst (native_codegen_program uses_foreign_local native_codegen_create) = true
  /\ had_error (lowered uses_foreign_local) = false
  /\ error_message (lowered uses_foreign_local) = None
  /\ current_function (lowered uses_foreign_local) = Some "main"%string
  /\ variables (lowered uses_foreign_local)
     = [{| var_name := "x"; var_zen_type := TYPE_I32; var_is_const := false;
           var_stack_offset := 8 |}]
  /\ option_map (firstn 3)
       (code_after_label (instructions (lowered uses_foreign_local)) "func_1")
     = Some [plain INST_PUSH [reg_operand REG_RBP];
             plain INST_MOV [reg_operand REG_RBP; reg_operand REG_RSP];
             plain INST_MOV [reg_operand REG_RAX; mem_operand REG_RBP (-8)]].
Proof. repeat split; vm_compute; reflexivity. Qed.

(** ** The entry address *)

(** C7 fails on the code.  For the program whose [main] returns 42 the
    label [_start] resolves to code offset 34, and the entry address of the
    header is the constant [0x400078], the address of code offset 0, where
    the [push rbp] of [main] is. *)
Theorem entry_address_is_code_start :
  label_offset (instructions (lowered main_returns_42)) "_start" 0 = Some 34
  /\ e_entry elf_header = 0x400078
  /\ e_entry elf_header
     = BASE_ADDRESS + sizeof_ELF64_Header + sizeof_ELF64_ProgramHeader + 0
  /\ e_entry elf_header
     <> BASE_ADDRESS + sizeof_ELF64_Header + sizeof_ELF64_ProgramHeader + 34
  /\ e_entry elf_header <> BASE_ADDRESS + 34
  /\ exists file,
       fst (generate_elf_executable true (lowered main_returns_42))
       = (true, Some file)
       /\ firstn 8 (skipn 24 file) = le_bytes 8 0x400078
       /\ nth_error file 120 = Some 0x55
       /\ firstn 5 (skipn (120 + 34) file) = [0xE8; 0; 0; 0; 0].
Proof.
  split; [vm_compute; reflexivity|]. split; [reflexivity|]. split; [reflexivity|].
  split; [discriminate|]. split; [discriminate|].
  eexists. split; [vm_compute; reflexivity|].
  repeat split; vm_compute; reflexivity.
Qed.

(* ================================================================== *)
(** ** Induction over syntax trees, with the children held in lists *)

Section ASTNode_nested_induction.

Variable P : ASTNode -> Prop.
Hypothesis P_literal : forall l, P (AST_LITERAL_EXPR l).
Hypothesis P_identifier : forall n, P (AST_IDENTIFIER_EXPR n).
Hypothesis P_binary : forall op a b, P a -> P b -> P (AST_BINARY_EXPR op a b).
Hypothesis P_unary : forall op a, P a -> P (AST_UNARY_EXPR op a).
Hypothesis P_call : forall c args, P c -> Forall P args -> P (AST_CALL_EXPR c args).
Hypothesis P_interpolation : P AST_INTERPOLATION_EXPR.
Hypothesis P_expression_stmt : forall e, P e -> P (AST_EXPRESSION_STMT e).
Hypothesis P_var : forall n t c i, option_all P i -> P (AST_VAR_DECLARATION n t c i).
Hypothesis P_function : forall n ps t b, P b -> P (AST_FUNCTION_DECLARATION n ps t b).
Hypothesis P_return : forall v, option_all P v -> P (AST_RETURN_STMT v).
Hypothesis P_block : forall l, Forall P l -> P (AST_BLOCK_STMT l).
Hypothesis P_if : forall c t e, P c -> P t -> option_all P e -> P (AST_IF_STMT c t e).
Hypothesis P_while : forall c b, P c -> P b -> P (AST_WHILE_STMT c b).
Hypothesis P_for : forall v i b, P i -> P b -> P (AST_FOR_STMT v i b).
Hypothesis P_program : forall l, Forall P l -> P (AST_PROGRAM l).

Fixpoint ASTNode_nested_ind (n : ASTNode) : P n :=
  let all :=
    fix all (l : list ASTNode) : Forall P l :=
      match l with
      | [] => Forall_nil P
      | x :: rest => Forall_cons x (ASTNode_nested_ind x) (all rest)
      end in
  let opt (o : option ASTNode) : option_all P o :=
    match o return option_all P o with
    | Some x => ASTNode_nested_ind x
    | None => I
    end in
  match n with
  | AST_LITERAL_EXPR l => P_literal l
  | AST_IDENTIFIER_EXPR name => P_identifier name
  | AST_BINARY_EXPR op a b =>
      P_binary op a b (ASTNode_nested_ind a) (ASTNode_nested_ind b)
  | AST_UNARY_EXPR op a => P_unary op a (ASTNode_nested_ind a)
  | AST_CALL_EXPR c args => P_call c args (ASTNode_nested_ind c) (all args)
  | AST_INTERPOLATION_EXPR => P_interpolation
  | AST_EXPRESSION_STMT e => P_expression_stmt e (ASTNode_nested_ind e)
  | AST_VAR_DECLARATION name t c i => P_var name t c i (opt i)
  | AST_FUNCTION_DECLARATION name ps t b =>
      P_function name ps t b (ASTNode_nested_ind b)
  | AST_RETURN_STMT v => P_return v (opt v)
  | AST_BLOCK_STMT l => P_block l (all l)
  | AST_IF_STMT c t e =>
      P_if c t e (ASTNode_nested_ind c) (ASTNode_nested_ind t) (opt e)
  | AST_WHILE_STMT c b => P_while c b (ASTNode_nested_ind c) (ASTNode_nested_ind b)
  | AST_FOR_STMT v i b => P_for v i b (ASTNode_nested_ind i) (ASTNode_nested_ind b)
  | AST_PROGRAM l => P_program l (all l)
  end.

End ASTNode_nested_induction.

(* ================================================================== *)
(** ** What the lowering of an expression leaves alone *)

Section Respect.

Variable R : NativeCodeGen -> NativeCodeGen -> Prop.
Hypothesis R_refl : forall cg, R cg cg.
Hypothesis R_trans : forall a b c, R a b -> R b c -> R a c.
Hypothesis R_append :
  forall i, inst_label i = None -> respects_fn R (append_instruction i).
Hypothesis R_error : forall msg, respects_fn R (native_codegen_error msg).
Hypothesis R_label_counter : forall v, respects_fn R (set_label_counter v).
Hypothesis R_string_literals : forall v, respects_fn R (set_string_literals v).
Hypothesis R_stdout : forall v, respects_fn R (set_stdout v).

Lemma respects_succeed : respects R succeed.
Proof. intros cg; apply R_refl. Qed.

Lemma respects_fail (msg : string) : respects R (fail msg).
Proof. intros cg; apply R_error. Qed.

Lemma respects_step (f : NativeCodeGen -> NativeCodeGen) (k : Gen bool) :
  respects_fn R f -> respects R k -> respects R (step f k).
Proof. intros Hf Hk cg. unfold step. eapply R_trans; [apply Hf | apply Hk]. Qed.

Lemma respects_and_then (m k : Gen bool) :
  respects R m -> respects R k -> respects R (and_then m k).
Proof.
  intros Hm Hk cg. unfold and_then.
  specialize (Hm cg). destruct (m cg) as [ok cg1]; simpl in Hm.
  destruct ok; simpl; [|exact Hm].
  eapply R_trans; [exact Hm | apply Hk].
Qed.

Lemma respects_fn_reg_imm op r imm : respects_fn R (emit_instruction_reg_imm op r imm).
Proof. intros cg; now apply R_append. Qed.

Lemma respects_fn_reg_reg op a b : respects_fn R (emit_instruction_reg_reg op a b).
Proof. intros cg; now apply R_append. Qed.

Lemma respects_fn_reg op r : respects_fn R (emit_instruction_reg op r).
Proof. intros cg; now apply R_append. Qed.

Lemma respects_add_string_literal (content : string) :
  respects R (add_string_literal content).
Proof.
  intros cg. unfold add_string_literal, create_label; simpl.
  eapply R_trans; [apply R_label_counter | apply R_string_literals].
Qed.

Lemma respects_literal (l : LiteralValue) (r : X86Register) :
  respects R (native_codegen_literal l r).
Proof.
  destruct l; simpl;
    try (apply respects_step; [apply respects_fn_reg_imm | apply respects_succeed]).
  intros cg.
  cbv beta iota zeta delta [add_string_literal create_label snd].
  eapply R_trans; [apply R_label_counter|].
  eapply R_trans; [apply R_string_literals | apply respects_fn_reg_imm].
Qed.

Lemma respects_identifier (name : string) (r : X86Register) :
  respects R (native_codegen_identifier name r).
Proof.
  intros cg. unfold native_codegen_identifier.
  destruct (lookup_variable cg name); simpl; [now apply R_append | apply R_error].
Qed.

Lemma respects_binary_operation (op : BinaryOperator) :
  respects R (binary_operation op).
Proof.
  destruct op; simpl; try apply respects_fail;
    (apply respects_step; [apply respects_fn_reg_reg | apply respects_succeed]).
Qed.

Lemma respects_fn_syscall_write (label : string) :
  respects_fn R (emit_syscall_write label).
Proof.
  intros cg. unfold emit_syscall_write.
  destruct (find_string_literal _ _); [apply R_stdout | apply R_error].
Qed.

Lemma respects_print_argument (a : ASTNode) : respects R (print_argument a).
Proof.
  intros cg. unfold print_argument.
  assert (H : R cg match string_literals cg with
                   | str :: _ => emit_syscall_write (str_label str) cg
                   | [] => cg
                   end).
  { destruct (string_literals cg); [apply R_refl | apply respects_fn_syscall_write]. }
  destruct a; simpl; try apply R_refl; try exact H.
  destruct literal; simpl; try apply R_refl; exact H.
Qed.

Lemma respects_expression (e : ASTNode) :
  forall r, respects R (native_codegen_expression e r).
Proof.
  induction e using ASTNode_nested_ind; intros r; simpl;
    try apply respects_fail.
  - apply respects_literal.
  - apply respects_identifier.
  - unfold native_codegen_binary_expr.
    apply respects_and_then; [apply IHe1|].
    apply respects_step; [apply respects_fn_reg|].
    apply respects_and_then; [apply IHe2|].
    apply respects_step; [apply respects_fn_reg|].
    apply respects_and_then; [apply respects_binary_operation|].
    destruct (negb _); [|apply respects_succeed].
    apply respects_step; [apply respects_fn_reg_reg | apply respects_succeed].
  - unfold native_codegen_unary_expr.
    apply respects_and_then; [apply IHe|].
    destruct op;
      (apply respects_step; [apply respects_fn_reg_imm | apply respects_succeed]).
  - unfold native_codegen_call_expr.
    destruct e; try apply respects_fail.
    destruct (String.eqb name "print"); [|apply respects_fail].
    destruct args as [|a [|b rest]]; try apply respects_fail.
    apply respects_and_then; [|apply respects_print_argument].
    inversion H; subst. auto.
Qed.

Hypothesis R_variables : forall v, respects_fn R (set_variables v).
Hypothesis R_stack_offset : forall v, respects_fn R (set_stack_offset v).

Lemma respects_fn_plain op : respects_fn R (emit_instruction op).
Proof. intros cg; now apply R_append. Qed.

Lemma respects_fn_mem_reg op b off r : respects_fn R (emit_instruction_mem_reg op b off r).
Proof. intros cg; now apply R_append. Qed.

Lemma respects_return_stmt (v : option ASTNode) :
  respects R (native_codegen_return_stmt v).
Proof.
  unfold native_codegen_return_stmt.
  apply respects_and_then.
  - destruct v as [e|]; [apply respects_expression|].
    apply respects_step; [apply respects_fn_reg_imm | apply respects_succeed].
  - apply respects_step; [apply respects_fn_reg_reg|].
    apply respects_step; [apply respects_fn_reg|].
    apply respects_step; [apply respects_fn_plain | apply respects_succeed].
Qed.

Lemma respects_var_declaration (name : string) (t : ZenType) (c : bool)
    (init : option ASTNode) :
  respects R (native_codegen_var_declaration name t c init).
Proof.
  intros cg. unfold native_codegen_var_declaration, add_variable_symbol.
  cbv beta iota zeta.
  match goal with
  | |- context [set_variables ?v (set_stack_offset ?w cg)] =>
      assert (H : R cg (set_variables v (set_stack_offset w cg)))
        by (eapply R_trans; [apply R_stack_offset | apply R_variables])
  end.
  destruct init as [e|]; [|exact H].
  eapply R_trans; [exact H|].
  apply respects_and_then; [apply respects_expression|].
  apply respects_step; [apply respects_fn_mem_reg | apply respects_succeed].
Qed.

Lemma respects_statement (stmt : ASTNode) :
  respects R (native_codegen_statement stmt).
Proof.
  induction stmt using ASTNode_nested_ind; simpl; try apply respects_fail.
  - apply respects_expression.
  - apply respects_var_declaration.
  - apply respects_return_stmt.
  - induction H as [|s rest Hs Hrest IH]; [apply respects_succeed|].
    apply respects_and_then; assumption.
Qed.

End Respect.

Lemma expression_same_scope (e : ASTNode) (r : X86Register) (cg : NativeCodeGen) :
  same_scope cg (snd (native_codegen_expression e r cg)).
Proof.
  apply respects_expression; unfold respects_fn, same_scope; simpl; auto.
  intros a b c (H1 & H2) (H3 & H4). split; congruence.
Qed.

(* ================================================================== *)
(** ** Stack slots of local variables *)

Lemma wrap_int32_add_l (a b : Z) : wrap_int32 (wrap_int32 a + b) = wrap_int32 (a + b).
Proof.
  unfold wrap_int32, wrap_signed. f_equal.
  replace ((a + 2 ^ (32 - 1)) mod 2 ^ 32 - 2 ^ (32 - 1) + b + 2 ^ (32 - 1))
    with ((a + 2 ^ (32 - 1)) mod 2 ^ 32 + b) by ring.
  rewrite Z.add_mod_idemp_l by (apply Z.pow_nonzero; lia).
  f_equal; ring.
Qed.

Lemma wrap_int32_small (z : Z) : - 2 ^ 31 <= z <= INT_MAX -> wrap_int32 z = z.
Proof.
  unfold wrap_int32, wrap_signed, INT_MAX. intros H.
  change (2 ^ (32 - 1)) with 2147483648. change (2 ^ 32) with 4294967296.
  change (2 ^ 31) with 2147483648 in H.
  rewrite Z.mod_small by lia. ring.
Qed.

Lemma wrap_int32_idempotent (z : Z) : wrap_int32 (wrap_int32 z) = wrap_int32 z.
Proof.
  rewrite <- (Z.add_0_r (wrap_int32 z)) at 1.
  rewrite wrap_int32_add_l. now rewrite Z.add_0_r.
Qed.

Lemma seq_from_zero (n a : nat) : seq a n = map (fun i => (a + i)%nat) (seq 0 n).
Proof.
  revert a; induction n as [|n IH]; intros a; simpl; [reflexivity|].
  rewrite Nat.add_0_r. f_equal.
  rewrite (IH (S a)), <- (seq_shift n 0), map_map.
  apply map_ext. intros i. lia.
Qed.

Lemma offsets_from_app (s : Z) (n1 n2 : nat) :
  offsets_from s (n1 + n2)
  = offsets_from s n1 ++ offsets_from (wrap_int32 (s + 8 * Z.of_nat n1)) n2.
Proof.
  unfold offsets_from. rewrite seq_app, map_app. f_equal.
  rewrite Nat.add_0_l, (seq_from_zero n2 n1), map_map.
  apply map_ext. intros i. rewrite wrap_int32_add_l. f_equal. lia.
Qed.

Lemma same_scope_refl (cg : NativeCodeGen) : same_scope cg cg.
Proof. split; reflexivity. Qed.

Lemma same_scope_trans (a b c : NativeCodeGen) :
  same_scope a b -> same_scope b c -> same_scope a c.
Proof. intros (H1 & H2) (H3 & H4). split; congruence. Qed.

Lemma same_scope_append (i : Instruction) : respects_fn same_scope (append_instruction i).
Proof. intros cg. split; reflexivity. Qed.

Lemma same_scope_extends (cg cg' : NativeCodeGen) :
  wrap_int32 (stack_offset cg) = stack_offset cg ->
  same_scope cg cg' -> scope_extended cg cg' [].
Proof.
  intros Hw (Hv & Hs). exists []. simpl. repeat split; trivial.
  now rewrite Hs, Z.add_0_r, Hw.
Qed.

Lemma scope_extended_trans (a b c : NativeCodeGen)
    (d1 d2 : list (string * ZenType * bool)) :
  scope_extended a b d1 -> scope_extended b c d2 -> scope_extended a c (d1 ++ d2).
Proof.
  intros (n1 & V1 & D1 & O1 & S1) (n2 & V2 & D2 & O2 & S2).
  exists (n1 ++ n2). repeat split.
  - now rewrite V2, V1, rev_app_distr, app_assoc.
  - now rewrite map_app, D1, D2.
  - rewrite map_app, length_app, offsets_from_app, O1, O2, S1. reflexivity.
  - rewrite S2, S1, wrap_int32_add_l, length_app. f_equal. lia.
Qed.

Lemma scope_extended_then_same (a b c : NativeCodeGen)
    (d : list (string * ZenType * bool)) :
  scope_extended a b d -> same_scope b c -> scope_extended a c d.
Proof.
  intros (n & V & D & O & S) (Hv & Hs). exists n. repeat split; congruence.
Qed.

Lemma and_then_true (m k : Gen bool) (cg : NativeCodeGen) :
  fst (and_then m k cg) = true ->
  fst (m cg) = true
  /\ fst (k (snd (m cg))) = true
  /\ snd (and_then m k cg) = snd (k (snd (m cg))).
Proof.
  unfold and_then. destruct (m cg) as [ok cg1]; simpl.
  destruct ok; simpl; [auto | discriminate].
Qed.

Lemma return_stmt_same_scope (v : option ASTNode) :
  respects same_scope (native_codegen_return_stmt v).
Proof.
  unfold native_codegen_return_stmt.
  apply respects_and_then; [exact same_scope_trans | |].
  - destruct v as [e|].
    + intros cg. apply expression_same_scope.
    + apply respects_step; [exact same_scope_trans | apply same_scope_append |].
      intros cg. apply same_scope_refl.
  - repeat (apply respects_step; [exact same_scope_trans | apply same_scope_append |]).
    intros cg. apply same_scope_refl.
Qed.

Lemma var_declaration_scope (name : string) (t : ZenType) (c : bool)
    (init : option ASTNode) (cg : NativeCodeGen) :
  wrap_int32 (stack_offset cg) = stack_offset cg ->
  scope_extended cg (snd (native_codegen_var_declaration name t c init cg))
    [(name, t, c)].
Proof.
  intros Hw. unfold native_codegen_var_declaration, add_variable_symbol.
  set (symbol := {| var_name := name; var_zen_type := t; var_is_const := c;
                    var_stack_offset := stack_offset cg |}).
  set (cg1 := set_variables _ _).
  assert (E : scope_extended cg cg1 [(name, t, c)]).
  { exists [symbol]. simpl. repeat split. unfold offsets_from; simpl.
    now rewrite Z.add_0_r, Hw. }
  cbv zeta iota beta.
  destruct init as [e|]; [|exact E].
  eapply scope_extended_then_same; [exact E|].
  apply (respects_and_then same_scope same_scope_trans).
  - intros x. apply expression_same_scope.
  - apply respects_step; [exact same_scope_trans | apply same_scope_append |].
    intros x. apply same_scope_refl.
Qed.

Lemma scope_extended_in_range (cg cg' : NativeCodeGen)
    (d : list (string * ZenType * bool)) :
  wrap_int32 (stack_offset cg) = stack_offset cg ->
  scope_extended cg cg' d ->
  wrap_int32 (stack_offset cg') = stack_offset cg'.
Proof.
  intros Hw (n & _ & _ & _ & S). rewrite S. apply wrap_int32_idempotent.
Qed.

Lemma statement_scope (stmt : ASTNode) :
  forall cg,
    wrap_int32 (stack_offset cg) = stack_offset cg ->
    fst (native_codegen_statement stmt cg) = true ->
    scope_extended cg (snd (native_codegen_statement stmt cg)) (declarations_of stmt).
Proof.
  induction stmt using ASTNode_nested_ind; intros cg Hw Hok;
    try (simpl in Hok; discriminate).
  - (* expression statement *)
    simpl. apply same_scope_extends; [exact Hw|].
    apply expression_same_scope.
  - (* variable declaration *)
    simpl. now apply var_declaration_scope.
  - (* return *)
    simpl. apply same_scope_extends; [exact Hw|].
    apply return_stmt_same_scope.
  - (* block *)
    simpl in *. revert cg Hw Hok.
    induction H as [|s rest Hs Hrest IH]; intros cg Hw Hok.
    + apply same_scope_extends; [exact Hw | apply same_scope_refl].
    + apply and_then_true in Hok. destruct Hok as (Ok1 & Ok2 & E).
      rewrite E.
      pose proof (Hs cg Hw Ok1) as E1.
      eapply scope_extended_trans; [exact E1|].
      apply IH; [|exact Ok2].
      eapply scope_extended_in_range; eassumption.
Qed.

Lemma offsets_from_eight (k : nat) :
  8 * Z.of_nat k <= INT_MAX -> offsets_from 8 k = slots k.
Proof.
  intros Hk. unfold offsets_from, slots.
  rewrite <- seq_shift, map_map. apply map_ext_in.
  intros i Hi. apply in_seq in Hi.
  rewrite wrap_int32_small; unfold INT_MAX in *; lia.
Qed.

(** C9: when a function is lowered, the [k] variable declarations its body
    holds are put on top of the variable table, in declaration order, with
    the name, type and constness they were declared with, and at the stack
    offsets 8, 16, ..., 8k; the offsets depend on nothing but the position
    of the declaration.  ([8k] has to fit the C [int] that holds the
    cursor.) *)
Theorem local_offsets_are_multiples_of_eight :
  forall (name : string) (body : ASTNode) (cg : NativeCodeGen),
    fst (native_codegen_function name body cg) = true ->
    8 * Z.of_nat (List.length (declarations_of body)) <= INT_MAX ->
    exists new : list VariableSymbol,
      variables (snd (native_codegen_function name body cg))
      = rev new ++ variables cg
      /\ map declaration_of new = declarations_of body
      /\ map var_stack_offset new = slots (List.length (declarations_of body)).
Proof.
  intros name body cg Hok Hk.
  unfold native_codegen_function, add_function_symbol, create_label in *.
  cbv zeta iota beta in *. unfold step at 1 2 3 4 5 in Hok.
  unfold step at 1 2 3 4 5.
  set (cg0 := set_stack_offset 8 _) in *.
  apply and_then_true in Hok. destruct Hok as (Ok1 & _ & E). rewrite E.
  assert (Hw : wrap_int32 (stack_offset cg0) = stack_offset cg0) by reflexivity.
  pose proof (statement_scope body cg0 Hw Ok1) as (new & V & D & O & _).
  exists new. repeat split.
  - exact V.
  - exact D.
  - rewrite O. assert (L : List.length new = List.length (declarations_of body)).
    { now rewrite <- D, length_map. }
    rewrite L. now apply offsets_from_eight.
Qed.

Lemma local_offsets_are_multiples_of_eight_witness :
  fst (native_codegen_function "f" three_locals native_codegen_create) = true
  /\ 8 * Z.of_nat (List.length (declarations_of three_locals)) <= INT_MAX
  /\ exists new : list VariableSymbol,
       variables (snd (native_codegen_function "f" three_locals native_codegen_create))
       = rev new ++ variables native_codegen_create
       /\ map declaration_of new = declarations_of three_locals
       /\ map var_stack_offset new = [8; 16; 24].
Proof.
  assert (Hok : fst (native_codegen_function "f" three_locals native_codegen_create) = true)
    by reflexivity.
  assert (Hk : 8 * Z.of_nat (List.length (declarations_of three_locals)) <= INT_MAX)
    by (vm_compute; discriminate).
  split; [exact Hok|]. split; [exact Hk|].
  exact (local_offsets_are_multiples_of_eight "f" three_locals native_codegen_create Hok Hk).
Defined.

(* ================================================================== *)
(** ** Nested binary expressions *)

Lemma reg_eqb_eq (a b : X86Register) : reg_eqb a b = true <-> a = b.
Proof.
  split; [|intros ->; unfold reg_eqb; apply Z.eqb_refl].
  destruct a, b; try reflexivity; discriminate.
Qed.

Lemma reg_eqb_refl (a : X86Register) : reg_eqb a a = true.
Proof. now apply reg_eqb_eq. Qed.

Lemma reg_eqb_sym (a b : X86Register) : reg_eqb a b = reg_eqb b a.
Proof. unfold reg_eqb. apply Z.eqb_sym. Qed.

Lemma exec_app (c1 c2 : list Instruction) (m : Machine) :
  exec (c1 ++ c2) m
  = match exec c1 m with
    | Some m' => exec c2 m'
    | None => None
    end.
Proof.
  revert m; induction c1 as [|i c1 IH]; intros m; simpl; [reflexivity|].
  destruct (exec_instruction i m); [apply IH | reflexivity].
Qed.

Lemma expression_binary_eq (op : BinaryOperator) (a b : ASTNode) (r : X86Register) :
  native_codegen_expression (AST_BINARY_EXPR op a b) r
  = native_codegen_binary_expr native_codegen_expression op a b r.
Proof. reflexivity. Qed.

Lemma expression_unary_eq (op : UnaryOperator) (a : ASTNode) (r : X86Register) :
  native_codegen_expression (AST_UNARY_EXPR op a) r
  = native_codegen_unary_expr native_codegen_expression op a r.
Proof. reflexivity. Qed.

Lemma operation_code_add :
  operation_code BINARY_ADD = [plain INST_ADD [reg_operand REG_RAX; reg_operand REG_RBX]].
Proof. reflexivity. Qed.

Lemma operation_code_subtract :
  operation_code BINARY_SUBTRACT
  = [plain INST_SUB [reg_operand REG_RAX; reg_operand REG_RBX]].
Proof. reflexivity. Qed.

Lemma operation_code_multiply :
  operation_code BINARY_MULTIPLY
  = [plain INST_MUL [reg_operand REG_RAX; reg_operand REG_RBX]].
Proof. reflexivity. Qed.

(** The context after a chain of emissions, as one update of the
    instruction list. *)
Ltac flatten_emits :=
  unfold binary_operation, step, succeed, emit_instruction_reg_reg,
    emit_instruction_reg, emit_instruction_reg_imm;
  cbv beta iota zeta;
  repeat (rewrite append_set || rewrite set_instructions_twice
          || rewrite instructions_set);
  rewrite ?operation_code_add, ?operation_code_subtract, ?operation_code_multiply;
  repeat rewrite <- app_assoc; rewrite ?app_nil_r;
  try reflexivity.

(** In the arithmetic fragment the lowering cannot fail and touches the
    instruction list only, at its end, with instructions that do not depend
    on the context. *)
Lemma arith_lowering (e : ASTNode) :
  forall val, eval e = Some val ->
  forall r, exists code,
    forall cg,
      native_codegen_expression e r cg
      = (true, set_instructions (instructions cg ++ code) cg).
Proof.
  induction e using ASTNode_nested_ind; intros val Hv r; try discriminate.
  - (* literal *)
    destruct l as [d|s|b|]; try discriminate; eexists; intros cg; reflexivity.
  - (* binary *)
    simpl in Hv.
    destruct (eval e1) as [x|] eqn:E1; [|discriminate].
    destruct (eval e2) as [y|] eqn:E2; [|discriminate].
    destruct (IHe1 x eq_refl REG_RAX) as (ca & Ha).
    destruct (IHe2 y eq_refl REG_RBX) as (cb & Hb).
    set (oc := operation_code op).
    destruct op; try discriminate Hv.
    all: exists (ca ++ [plain INST_PUSH [reg_operand REG_RAX]] ++ cb
            ++ [plain INST_POP [reg_operand REG_RAX]]
            ++ oc
            ++ if negb (reg_eqb r REG_RAX)
               then [plain INST_MOV [reg_operand r; reg_operand REG_RAX]] else []).
    all: subst oc; intros cg; rewrite expression_binary_eq;
      unfold native_codegen_binary_expr, and_then, step;
      rewrite Ha; cbv beta iota zeta;
      unfold emit_instruction_reg; rewrite append_set;
      rewrite Hb; cbv beta iota zeta;
      destruct (negb (reg_eqb r REG_RAX)); flatten_emits.
  - (* unary *)
    simpl in Hv. destruct op; [|discriminate].
    destruct (eval e) as [x|] eqn:E; [|discriminate].
    destruct (IHe x eq_refl r) as (ca & Ha).
    exists (ca ++ [plain INST_MUL [reg_operand r; imm_operand (-1)]]).
    intros cg. rewrite expression_unary_eq.
    unfold native_codegen_unary_expr, and_then, step.
    rewrite Ha. cbv beta iota zeta. flatten_emits.
Qed.

Lemma arith_expression_code (e : ASTNode) (v : Z) (r : X86Register) :
  eval e = Some v ->
  forall cg,
    native_codegen_expression e r cg
    = (true, set_instructions (instructions cg ++ expression_code e r) cg).
Proof.
  intros Hv. destruct (arith_lowering e v Hv r) as (code & H).
  unfold expression_code. rewrite (H native_codegen_create).
  cbn [snd]. rewrite instructions_set. exact H.
Qed.

(** The push/pop bracket: the code of [a op b] is the code of [a] into RAX,
    [push rax], the code of [b] into RBX, [pop rax], the operator
    instruction, and a move to the destination when it is not RAX. *)
Lemma binary_code_shape (op : BinaryOperator) (a b : ASTNode) (v : Z)
    (r : X86Register) :
  eval (AST_BINARY_EXPR op a b) = Some v ->
  expression_code (AST_BINARY_EXPR op a b) r
  = expression_code a REG_RAX
    ++ [plain INST_PUSH [reg_operand REG_RAX]]
    ++ expression_code b REG_RBX
    ++ [plain INST_POP [reg_operand REG_RAX]]
    ++ operation_code op
    ++ if negb (reg_eqb r REG_RAX)
       then [plain INST_MOV [reg_operand r; reg_operand REG_RAX]] else [].
Proof.
  intros Hv. simpl in Hv.
  destruct (eval a) as [x|] eqn:E1; [|discriminate].
  destruct (eval b) as [y|] eqn:E2; [|discriminate].
  destruct op; try discriminate Hv.
  all: unfold expression_code at 1; rewrite expression_binary_eq;
    unfold native_codegen_binary_expr, and_then, step;
    rewrite (arith_expression_code a x REG_RAX E1); cbv beta iota zeta;
    unfold emit_instruction_reg; rewrite append_set;
    rewrite (arith_expression_code b y REG_RBX E2); cbv beta iota zeta;
    change (instructions native_codegen_create) with (@nil Instruction);
    destruct (negb (reg_eqb r REG_RAX)); flatten_emits.
Qed.

Lemma unary_code_shape (a : ASTNode) (v : Z) (r : X86Register) :
  eval (AST_UNARY_EXPR UNARY_MINUS a) = Some v ->
  expression_code (AST_UNARY_EXPR UNARY_MINUS a) r
  = expression_code a r ++ [plain INST_MUL [reg_operand r; imm_operand (-1)]].
Proof.
  intros Hv. simpl in Hv.
  destruct (eval a) as [x|] eqn:E; [|discriminate].
  unfold expression_code at 1. rewrite expression_unary_eq.
  unfold native_codegen_unary_expr, and_then, step.
  rewrite (arith_expression_code a x r E). cbv beta iota zeta.
  change (instructions native_codegen_create) with (@nil Instruction).
  flatten_emits.
Qed.

Lemma reg_eqb_neq (a b : X86Register) : reg_eqb a b = false <-> a <> b.
Proof.
  split.
  - intros H E. apply reg_eqb_eq in E. congruence.
  - intros H. destruct (reg_eqb a b) eqn:E; [|reflexivity].
    apply reg_eqb_eq in E. contradiction.
Qed.

Lemma regs_set_reg_same (r : X86Register) (v : Z) (m : Machine) :
  regs (set_reg r v m) r = v.
Proof. simpl. now rewrite reg_eqb_refl. Qed.

Lemma regs_set_reg_other (r x : X86Register) (v : Z) (m : Machine) :
  x <> r -> regs (set_reg r v m) x = regs m x.
Proof. intros H. simpl. apply reg_eqb_neq in H. now rewrite H. Qed.

Lemma wrap_u64_small (z : Z) : 0 <= z < 2 ^ 64 -> wrap_u64 z = z.
Proof. intros H. unfold wrap_u64. now apply Z.mod_small. Qed.

(** What each instruction of the bracket does to the machine. *)

Lemma exec_mov_imm (r : X86Register) (imm : Z) (m : Machine) :
  exists m',
    exec_instruction (plain INST_MOV [reg_operand r; imm_operand imm]) m = Some m'
    /\ regs m' r = wrap_u64 imm
    /\ (forall x, x <> r -> regs m' x = regs m x)
    /\ (forall a, mem m' a = mem m a).
Proof.
  eexists. split; [reflexivity|]. split; [apply regs_set_reg_same|].
  split; [intros x Hx; now apply regs_set_reg_other | reflexivity].
Qed.

Lemma exec_mov_reg (dst src : X86Register) (m : Machine) :
  exists m',
    exec_instruction (plain INST_MOV [reg_operand dst; reg_operand src]) m = Some m'
    /\ regs m' dst = regs m src
    /\ (forall x, x <> dst -> regs m' x = regs m x)
    /\ (forall a, mem m' a = mem m a).
Proof.
  eexists. split; [reflexivity|]. split; [apply regs_set_reg_same|].
  split; [intros x Hx; now apply regs_set_reg_other | reflexivity].
Qed.

Lemma exec_push (r : X86Register) (m : Machine) :
  exists m',
    exec_instruction (plain INST_PUSH [reg_operand r]) m = Some m'
    /\ regs m' REG_RSP = wrap_u64 (regs m REG_RSP - 8)
    /\ (forall x, x <> REG_RSP -> regs m' x = regs m x)
    /\ mem m' (wrap_u64 (regs m REG_RSP - 8)) = regs m r
    /\ (forall a, a <> wrap_u64 (regs m REG_RSP - 8) -> mem m' a = mem m a).
Proof.
  eexists. split; [reflexivity|]. split; [reflexivity|].
  split; [intros x Hx; simpl; apply reg_eqb_neq in Hx; now rewrite Hx|].
  split.
  - simpl. now rewrite Z.eqb_refl.
  - intros a Ha. simpl. apply Z.eqb_neq in Ha. now rewrite Ha.
Qed.

Lemma exec_pop (r : X86Register) (m : Machine) :
  r <> REG_RSP ->
  exists m',
    exec_instruction (plain INST_POP [reg_operand r]) m = Some m'
    /\ regs m' REG_RSP = wrap_u64 (regs m REG_RSP + 8)
    /\ regs m' r = mem m (regs m REG_RSP)
    /\ (forall x, x <> r -> x <> REG_RSP -> regs m' x = regs m x)
    /\ (forall a, mem m' a = mem m a).
Proof.
  intros Hr. eexists. split; [reflexivity|]. split.
  - rewrite regs_set_reg_other by congruence. apply regs_set_reg_same.
  - split; [apply regs_set_reg_same|]. split; [|reflexivity].
    intros x H1 H2. now rewrite !regs_set_reg_other.
Qed.

Lemma exec_operation (op : BinaryOperator) (x y val : Z) (m : Machine) :
  match op with
  | BINARY_ADD => Some (wrap_u64 (x + y))
  | BINARY_SUBTRACT => Some (wrap_u64 (x - y))
  | BINARY_MULTIPLY => Some (wrap_u64 (x * y))
  | _ => None
  end = Some val ->
  regs m REG_RAX = x -> regs m REG_RBX = y ->
  exists m',
    exec (operation_code op) m = Some m'
    /\ regs m' REG_RAX = val
    /\ (forall r, r <> REG_RAX -> regs m' r = regs m r)
    /\ (forall a, mem m' a = mem m a).
Proof.
  intros Hv Hx Hy.
  destruct op; try discriminate; injection Hv as <-; subst x y;
    (eexists; split; [reflexivity|]; split; [apply regs_set_reg_same|];
     split; [intros r Hr; now apply regs_set_reg_other | reflexivity]).
Qed.

Lemma exec_negate (r : X86Register) (m : Machine) :
  exists m',
    exec_instruction (plain INST_MUL [reg_operand r; imm_operand (-1)]) m = Some m'
    /\ regs m' r = wrap_u64 (regs m r * -1)
    /\ (forall x, x <> r -> regs m' x = regs m x)
    /\ (forall a, mem m' a = mem m a).
Proof.
  eexists. split; [reflexivity|]. split; [apply regs_set_reg_same|].
  split; [intros x Hx; now apply regs_set_reg_other | reflexivity].
Qed.

Lemma exec_cons (i : Instruction) (c : list Instruction) (m : Machine) :
  exec (i :: c) m
  = match exec_instruction i m with
    | Some m' => exec c m'
    | None => None
    end.
Proof. reflexivity. Qed.

Lemma stack_need_nonneg (e : ASTNode) : 0 <= stack_need e.
Proof.
  induction e using ASTNode_nested_ind; simpl; lia.
Qed.

(** The code of an arithmetic expression leaves its value in the
    destination register, the stack pointer where it was and the memory at
    and above the stack pointer as it was. *)
Lemma arith_exec (e : ASTNode) :
  forall val r m,
    eval e = Some val ->
    r <> REG_RSP ->
    8 * stack_need e <= regs m REG_RSP < 2 ^ 64 ->
    exists m',
      exec (expression_code e r) m = Some m'
      /\ regs m' r = val
      /\ regs m' REG_RSP = regs m REG_RSP
      /\ (forall a, regs m REG_RSP <= a -> mem m' a = mem m a).
Proof.
  induction e using ASTNode_nested_ind; intros val r m Hv Hr Hroom;
    try discriminate.
  - (* literal *)
    assert (L : exists imm, expression_code (AST_LITERAL_EXPR l) r
                            = [plain INST_MOV [reg_operand r; imm_operand imm]]
                            /\ wrap_u64 imm = val).
    { destruct l as [d|s|b|]; try discriminate; simpl in Hv;
        injection Hv as <-; eexists; (split; [reflexivity|]);
        [reflexivity | now destruct b | reflexivity]. }
    destruct L as (imm & -> & <-).
    destruct (exec_mov_imm r imm m) as (m' & X & V & O & F).
    exists m'. rewrite exec_cons, X. simpl. repeat split; auto.
  - (* binary *)
    rewrite (binary_code_shape op e1 e2 val r Hv).
    simpl in Hv.
    change (stack_need (AST_BINARY_EXPR op e1 e2))
      with (Z.max (stack_need e1) (1 + stack_need e2)) in Hroom.
    destruct (eval e1) as [x|] eqn:E1; [|discriminate].
    destruct (eval e2) as [y|] eqn:E2; [|discriminate].
    pose proof (stack_need_nonneg e1). pose proof (stack_need_nonneg e2).
    set (sp := regs m REG_RSP) in *.
    destruct (IHe1 x REG_RAX m eq_refl ltac:(discriminate) ltac:(fold sp; lia))
      as (m1 & X1 & V1 & S1 & F1).
    fold sp in S1, F1.
    destruct (exec_push REG_RAX m1) as (m2 & X2 & S2 & O2 & T2 & F2).
    rewrite S1 in S2, T2, F2.
    rewrite (wrap_u64_small (sp - 8)) in S2, T2, F2 by lia.
    destruct (IHe2 y REG_RBX m2 eq_refl ltac:(discriminate) ltac:(rewrite S2; lia))
      as (m3 & X3 & V3 & S3 & F3).
    rewrite S2 in S3, F3.
    destruct (exec_pop REG_RAX m3 ltac:(discriminate)) as (m4 & X4 & S4 & V4 & O4 & F4).
    rewrite S3 in S4, V4.
    replace (sp - 8 + 8) with sp in S4 by ring.
    rewrite (wrap_u64_small sp) in S4 by lia.
    assert (A4 : regs m4 REG_RAX = x).
    { rewrite V4, F3 by lia. rewrite T2. rewrite <- V1. reflexivity. }
    assert (B4 : regs m4 REG_RBX = y).
    { rewrite O4 by discriminate. exact V3. }
    destruct (exec_operation op x y val m4 Hv A4 B4) as (m5 & X5 & V5 & O5 & F5).
    assert (M5 : forall a, sp <= a -> mem m5 a = mem m a).
    { intros a Ha. rewrite F5, F4, F3 by lia. rewrite F2 by lia. now apply F1. }
    assert (S5 : regs m5 REG_RSP = sp).
    { rewrite O5 by discriminate. exact S4. }
    rewrite exec_app, X1. simpl app. rewrite exec_cons, X2.
    rewrite exec_app, X3. simpl app. rewrite exec_cons, X4.
    rewrite exec_app, X5.
    destruct (reg_eqb r REG_RAX) eqn:Er; simpl negb; cbv iota.
    + apply reg_eqb_eq in Er. subst r. exists m5. simpl. repeat split; auto.
    + apply reg_eqb_neq in Er.
      destruct (exec_mov_reg r REG_RAX m5) as (m6 & X6 & V6 & O6 & F6).
      exists m6. rewrite exec_cons, X6. simpl. repeat split.
      * now rewrite V6.
      * rewrite O6 by congruence. exact S5.
      * intros a Ha. rewrite F6. now apply M5.
  - (* unary *)
    destruct op; [|simpl in Hv; discriminate].
    rewrite (unary_code_shape e val r Hv).
    simpl in Hv.
    change (stack_need (AST_UNARY_EXPR UNARY_MINUS e)) with (stack_need e) in Hroom.
    destruct (eval e) as [x|] eqn:E; [|discriminate].
    injection Hv as <-.
    destruct (IHe x r m eq_refl Hr Hroom) as (m1 & X1 & V1 & S1 & F1).
    destruct (exec_negate r m1) as (m2 & X2 & V2 & O2 & F2).
    exists m2. rewrite exec_app, X1, exec_cons, X2. simpl. repeat split.
    + now rewrite V2, V1.
    + rewrite O2 by congruence. exact S1.
    + intros a Ha. rewrite F2. now apply F1.
Qed.

(* ================================================================== *)
(** ** The encoded bytes of additive expressions *)

Lemma immediate_byte (imm i : Z) :
  0 <= i ->
  u8 (Z.land (Z.shiftr imm (i * 8)) 0xFF) = (imm / 2 ^ (i * 8)) mod 256.
Proof.
  intros Hi. unfold u8.
  change 0xFF with (Z.ones 8).
  rewrite Z.land_ones by lia. rewrite Z.shiftr_div_pow2 by lia.
  change (2 ^ 8) with 256. apply Z.mod_mod. lia.
Qed.

Lemma le_value_imm64_bytes (imm : Z) : le_value (imm64_bytes imm) = imm mod 2 ^ 64.
Proof.
  unfold imm64_bytes. cbn [map].
  rewrite !immediate_byte by lia. cbn [le_value fold_right].
  change (0 * 8) with 0. change (1 * 8) with 8. change (2 * 8) with 16.
  change (3 * 8) with 24. change (4 * 8) with 32. change (5 * 8) with 40.
  change (6 * 8) with 48. change (7 * 8) with 56.
  assert (D : forall k, 0 <= k -> imm / 2 ^ k = 256 * (imm / 2 ^ (k + 8)) + (imm / 2 ^ k) mod 256).
  { intros k Hk. rewrite Z.pow_add_r by lia. change (2 ^ 8) with 256.
    rewrite <- Z.div_div by (try apply Z.pow_pos_nonneg; lia).
    apply Z.div_mod. lia. }
  assert (B : forall k, 0 <= (imm / 2 ^ k) mod 256 < 256)
    by (intros k; apply Z.mod_pos_bound; lia).
  pose proof (D 0 ltac:(lia)) as D0. pose proof (D 8 ltac:(lia)) as D1.
  pose proof (D 16 ltac:(lia)) as D2. pose proof (D 24 ltac:(lia)) as D3.
  pose proof (D 32 ltac:(lia)) as D4. pose proof (D 40 ltac:(lia)) as D5.
  pose proof (D 48 ltac:(lia)) as D6. pose proof (D 56 ltac:(lia)) as D7.
  pose proof (B 0) as B0. pose proof (B 8) as B1. pose proof (B 16) as B2.
  pose proof (B 24) as B3. pose proof (B 32) as B4. pose proof (B 40) as B5.
  pose proof (B 48) as B6. pose proof (B 56) as B7.
  cbn [Z.add Pos.add Pos.succ Pos.add_carry] in D0, D1, D2, D3, D4, D5, D6, D7.
  rewrite Z.pow_0_r, Z.div_1_r in *.
  apply Z.mod_unique_pos with (q := imm / 2 ^ 64); lia.
Qed.

Lemma low_reg_field (r : X86Register) :
  low_reg r = true -> reg_of_field (Z.land (reg_num r) 7) = r.
Proof. destruct r; try discriminate; reflexivity. Qed.

(** The decoder reads an encodable instruction back from its bytes, with
    the meaning it had, and hands on the bytes that follow. *)
Ltac decode_by_cases :=
  split; [reflexivity|]; split; [apply Nat.lt_0_succ|];
  eexists; split; [reflexivity | intros m; reflexivity].

Lemma decode_encoded (inst : Instruction) (rest : list Z) :
  encodable inst = true ->
  is_label_marker inst = false
  /\ (0 < List.length (encode_instruction inst))%nat
  /\ exists inst',
       decode (encode_instruction inst ++ rest) = Some (inst', rest)
       /\ forall m, exec_instruction inst' m = exec_instruction inst m.
Proof.
  destruct inst as [op ops lbl]. unfold encodable. intros H. simpl in H.
  destruct lbl; [discriminate|].
  destruct op; try discriminate H.
  all: destruct ops as [|[v1 s1] [|[v2 s2] [|o3 ops]]]; try discriminate H.
  all: destruct v1; try discriminate H.
  all: try (destruct v2; try discriminate H).
  - (* mov reg, reg *)
    apply andb_prop in H. destruct H as (H1 & H2).
    destruct reg; try discriminate H1; destruct reg0; try discriminate H2;
      decode_by_cases.
  - (* mov reg, imm *)
    split; [reflexivity|]. split; [apply Nat.lt_0_succ|].
    exists (plain INST_MOV [reg_operand reg;
                            imm_operand (le_value (imm64_bytes immediate))]).
    split.
    + destruct reg; try discriminate H; reflexivity.
    + intros m. unfold exec_instruction. cbn [opcode operands map op_value plain reg_operand imm_operand].
      rewrite le_value_imm64_bytes. unfold wrap_u64.
      rewrite Z.mod_mod by lia. reflexivity.
  - (* push *)
    destruct reg; try discriminate H; decode_by_cases.
  - (* pop *)
    destruct reg; try discriminate H; decode_by_cases.
  - (* add *)
    apply andb_prop in H. destruct H as (H1 & H2).
    destruct reg; try discriminate H1; destruct reg0; try discriminate H2;
      decode_by_cases.
  - (* sub *)
    apply andb_prop in H. destruct H as (H1 & H2).
    destruct reg; try discriminate H1; destruct reg0; try discriminate H2;
      decode_by_cases.
Qed.

Lemma run_code_encoded (code : list Instruction) :
  Forall (fun i => encodable i = true) code ->
  forall fuel m,
    (List.length (encode_all code) <= fuel)%nat ->
    run_code fuel (encode_all code) m = exec code m.
Proof.
  induction 1 as [|i next Hi Hnext IH]; intros fuel m Hfuel.
  - destruct fuel; reflexivity.
  - destruct (decode_encoded i (encode_all next) Hi)
      as (Hmark & Hlen & i' & Hdec & Hexec).
    change (encode_all (i :: next))
      with ((if is_label_marker i then [] else encode_instruction i)
            ++ encode_all next) in *.
    rewrite Hmark in *.
    rewrite length_app in Hfuel.
    destruct (encode_instruction i ++ encode_all next) as [|b bytes] eqn:E.
    + apply (f_equal (@List.length Z)) in E. rewrite length_app in E.
      simpl in E. lia.
    + destruct fuel as [|fuel]; [simpl in Hfuel; lia|].
      cbn [run_code]. rewrite Hdec, Hexec, exec_cons.
      destruct (exec_instruction i m); [|reflexivity].
      apply IH. lia.
Qed.

Lemma run_bytes_encoded (code : list Instruction) (m : Machine) :
  Forall (fun i => encodable i = true) code ->
  run_bytes (encode_all code) m = exec code m.
Proof. intros H. unfold run_bytes. now apply run_code_encoded. Qed.

Lemma additive_eval (e : ASTNode) : additive e = true -> exists val, eval e = Some val.
Proof.
  induction e using ASTNode_nested_ind; simpl; try discriminate.
  - destruct l; try discriminate; eauto.
  - destruct op; try discriminate; intros H; apply andb_prop in H;
      destruct H as (H1 & H2);
      destruct (IHe1 H1) as (x & ->); destruct (IHe2 H2) as (y & ->); eauto.
Qed.

Lemma additive_encodable (e : ASTNode) :
  forall r,
    additive e = true -> low_reg r = true ->
    Forall (fun i => encodable i = true) (expression_code e r).
Proof.
  induction e using ASTNode_nested_ind; intros r Ha Hr; try discriminate.
  - destruct l; try discriminate; unfold expression_code; simpl;
      repeat constructor; unfold encodable; simpl; exact Hr.
  - destruct (additive_eval _ Ha) as (val & Hv).
    rewrite (binary_code_shape op e1 e2 val r Hv).
    assert (Hab : additive e1 = true /\ additive e2 = true).
    { simpl in Ha. destruct op; try discriminate; now apply andb_prop in Ha. }
    destruct Hab as (H1 & H2).
    apply Forall_app; split; [now apply IHe1|].
    apply Forall_app; split; [repeat constructor|].
    apply Forall_app; split; [now apply IHe2|].
    apply Forall_app; split; [repeat constructor|].
    apply Forall_app; split.
    + simpl in Ha. destruct op; try discriminate Ha; repeat constructor.
    + destruct (negb (reg_eqb r REG_RAX)); repeat constructor.
      unfold encodable; simpl. now rewrite Hr.
Qed.

(** On the bytes of an additive expression the machine does what the
    instructions say. *)
Lemma additive_machine_code (e : ASTNode) (r : X86Register) (m : Machine) :
  additive e = true -> low_reg r = true ->
  run_bytes (encode_all (expression_code e r)) m = exec (expression_code e r) m.
Proof. intros Ha Hr. apply run_bytes_encoded. now apply additive_encodable. Qed.

(** C6 fails on the code.  [(1 + 2) * (3 + 4)] denotes 21 and the program
    whose [main] returns it lowers.  The lowering brackets the right operand
    between [push rax] and [pop rax] and ends the expression with
    [mul rax, rbx], but the encoder has no case for the multiply and stores
    the padding byte [0x90] for it: the first 60 bytes of the compiled
    program are the prologue and the bytes of the expression, the last of
    them [0x90], and running them leaves 3, the left operand, in RAX. *)
Theorem compiled_product_of_sums_is_three :
  eval product_of_sums = Some 21
  /\ fst (native_codegen_program main_returns_product native_codegen_create) = true
  /\ expression_code product_of_sums REG_RAX
     = expression_code (AST_BINARY_EXPR BINARY_ADD (number 1) (number 2)) REG_RAX
       ++ [plain INST_PUSH [reg_operand REG_RAX]]
       ++ expression_code (AST_BINARY_EXPR BINARY_ADD (number 3) (number 4)) REG_RBX
       ++ [plain INST_POP [reg_operand REG_RAX];
           plain INST_MUL [reg_operand REG_RAX; reg_operand REG_RBX]]
  /\ encode_instruction (plain INST_MUL [reg_operand REG_RAX; reg_operand REG_RBX])
     = [0x90]
  /\ firstn 60 (code_buffer (snd (generate_machine_code (lowered main_returns_product))))
     = [0x55; 0x48; 0x89; 0xE5]
       ++ encode_all (expression_code product_of_sums REG_RAX)
  /\ last (encode_all (expression_code product_of_sums REG_RAX)) 0 = 0x90
  /\ option_map (fun m => regs m REG_RAX)
       (run_bytes
          (firstn 60 (code_buffer (snd (generate_machine_code
                                          (lowered main_returns_product)))))
          (machine_with_stack 0x7ffff000))
     = Some 3
  /\ option_map (fun m => regs m REG_RAX)
       (run_bytes
          (firstn 60 (code_buffer (snd (generate_machine_code
                                          (lowered main_returns_product)))))
          (machine_with_stack 0x7ffff000))
     <> Some 21.
Proof.
  split; [reflexivity|]. split; [vm_compute; reflexivity|].
  split; [vm_compute; reflexivity|]. split; [reflexivity|].
  split; [vm_compute; reflexivity|]. split; [vm_compute; reflexivity|].
  assert (E : option_map (fun m => regs m REG_RAX)
       (run_bytes
          (firstn 60 (code_buffer (snd (generate_machine_code
                                          (lowered main_returns_product)))))
          (machine_with_stack 0x7ffff000))
     = Some 3) by (vm_compute; reflexivity).
  split; [exact E|]. rewrite E. discriminate.
Qed.

(* ================================================================== *)
(** ** Every lowered program *)

Lemma instructions_append (i : Instruction) (cg : NativeCodeGen) :
  instructions (append_instruction i cg) = instructions cg ++ [i].
Proof. reflexivity. Qed.

Lemma appends_unlabeled_refl (cg : NativeCodeGen) : appends_unlabeled cg cg.
Proof. exists []. now rewrite app_nil_r. Qed.

Lemma appends_unlabeled_trans (a b c : NativeCodeGen) :
  appends_unlabeled a b -> appends_unlabeled b c -> appends_unlabeled a c.
Proof.
  intros (c1 & E1 & F1) (c2 & E2 & F2). exists (c1 ++ c2). split.
  - now rewrite E2, E1, app_assoc.
  - now apply Forall_app.
Qed.

Lemma appends_unlabeled_same_instructions (cg cg' : NativeCodeGen) :
  instructions cg' = instructions cg -> appends_unlabeled cg cg'.
Proof. intros E. exists []. now rewrite app_nil_r. Qed.

(** The lowering of a statement adds instructions at the end of the list
    and none of them carries a label. *)
Lemma statement_appends_unlabeled (stmt : ASTNode) (cg : NativeCodeGen) :
  appends_unlabeled cg (snd (native_codegen_statement stmt cg)).
Proof.
  apply respects_statement;
    try (intros x y; now apply appends_unlabeled_same_instructions).
  - exact appends_unlabeled_refl.
  - exact appends_unlabeled_trans.
  - intros i Hi y. exists [i]. split; [reflexivity | now constructor].
Qed.

Lemma unlabeled_without (label : string) (code : list Instruction) :
  Forall (fun i => inst_label i = None) code ->
  Forall (fun i => has_label i label = false) code.
Proof.
  apply Forall_impl. intros i Hi. unfold has_label. now rewrite Hi.
Qed.

(** A function label is never [_start]: it begins with [f]. *)
Lemma function_label_is_not_start (cg : NativeCodeGen) :
  String.eqb (fst (create_label "func" cg)) "_start" = false.
Proof. reflexivity. Qed.

(** A lowered function adds its label, which is not [_start], and after it
    instructions without a label, the first of which is [push rbp]. *)
Lemma function_appends (name : string) (body : ASTNode) (cg cg' : NativeCodeGen) :
  native_codegen_function name body cg = (true, cg') ->
  exists code,
    instructions cg' = instructions cg ++ code
    /\ Forall (fun i => has_label i "_start" = false) code
    /\ (0 < List.length (encode_all code))%nat.
Proof.
  unfold native_codegen_function, add_function_symbol.
  pose proof (function_label_is_not_start cg) as Hl.
  destruct (create_label "func" cg) as [l cg0] eqn:El. simpl in Hl.
  assert (Ei : instructions cg0 = instructions cg).
  { unfold create_label in El. now inversion El. }
  cbv beta iota zeta. unfold step at 1 2 3 4 5.
  set (start := set_stack_offset 8 _).
  assert (Es : instructions start
               = instructions cg
                 ++ [ {| opcode := INST_NOP; operands := []; inst_label := Some l |};
                      plain INST_PUSH [reg_operand REG_RBP];
                      plain INST_MOV [reg_operand REG_RBP; reg_operand REG_RSP] ]).
  { subst start. simpl. rewrite Ei. now rewrite <- !app_assoc. }
  intros H. unfold and_then in H.
  pose proof (statement_appends_unlabeled body start) as (code & Ec & Fc).
  destruct (native_codegen_statement body start) as [ok cg1]. cbn [snd] in Ec.
  destruct ok; [|discriminate].
  inversion H; subst cg'; clear H.
  exists ([ {| opcode := INST_NOP; operands := []; inst_label := Some l |};
            plain INST_PUSH [reg_operand REG_RBP];
            plain INST_MOV [reg_operand REG_RBP; reg_operand REG_RSP] ]
          ++ code
          ++ [ plain INST_MOV [reg_operand REG_RAX; imm_operand 0];
               plain INST_MOV [reg_operand REG_RSP; reg_operand REG_RBP];
               plain INST_POP [reg_operand REG_RBP];
               plain INST_RET [] ]).
  split; [|split].
  - unfold step, succeed, emit_instruction, emit_instruction_reg,
      emit_instruction_reg_reg, emit_instruction_reg_imm.
    cbn [snd]. rewrite !instructions_append, Ec, Es.
    now rewrite <- !app_assoc.
  - apply Forall_app. split.
    + repeat constructor. unfold has_label; simpl. exact Hl.
    + apply Forall_app. split; [now apply unlabeled_without | repeat constructor].
  - rewrite encode_all_app, length_app. simpl. lia.
Qed.

Lemma program_declarations_append (decls : list ASTNode) :
  forall has_main main_func cg has_main' main_func' cg',
    program_declarations decls has_main main_func cg
    = ((true, has_main', main_func'), cg') ->
    exists code,
      instructions cg' = instructions cg ++ code
      /\ Forall (fun i => has_label i "_start" = false) code
      /\ (has_main' = true ->
          has_main = true \/ (0 < List.length (encode_all code))%nat).
Proof.
  induction decls as [|decl rest IH];
    intros has_main main_func cg has_main' main_func' cg' H.
  - simpl in H. inversion H; subst.
    exists []. rewrite app_nil_r. repeat split; auto.
  - assert (Skip : program_declarations rest has_main main_func cg
                   = ((true, has_main', main_func'), cg') ->
                   exists code,
                     instructions cg' = instructions cg ++ code
                     /\ Forall (fun i => has_label i "_start" = false) code
                     /\ (has_main' = true ->
                         has_main = true \/ (0 < List.length (encode_all code))%nat))
      by apply IH.
    destruct decl; try (apply Skip; exact H).
    simpl in H.
    destruct (native_codegen_function name decl cg) as [ok cg1] eqn:Ef.
    destruct ok; simpl in H; [|discriminate].
    destruct (function_appends name decl cg cg1 Ef) as (c1 & E1 & F1 & L1).
    destruct (IH _ _ _ _ _ _ H) as (c2 & E2 & F2 & _).
    exists (c1 ++ c2). split; [|split].
    + now rewrite E2, E1, app_assoc.
    + now apply Forall_app.
    + intros _. right. rewrite encode_all_app, length_app. lia.
Qed.

Lemma label_offset_after (label : string) (pre : list Instruction) :
  Forall (fun i => has_label i label = false) pre ->
  forall inst rest offset,
    has_label inst label = true ->
    label_offset (pre ++ inst :: rest) label offset
    = Some (offset + Z.of_nat (List.length (encode_all pre))).
Proof.
  induction 1 as [|i pre Hi Hpre IH]; intros inst rest offset Hl; simpl.
  - rewrite Hl. f_equal. lia.
  - rewrite Hi, IH by exact Hl. f_equal.
    unfold encoded_length. rewrite length_app.
    destruct (is_label_marker i); simpl; lia.
Qed.

(** The end of the instruction list of every program that lowers: the
    marker of [_start], a call, and the exit sequence that loads 0 into RDI
    after the return value was moved there. *)
Lemma program_start_sequence (decls : list ASTNode) (cg cg' : NativeCodeGen) :
  native_codegen_program decls cg = (true, cg') ->
  exists pre target,
    instructions cg'
    = instructions cg ++ pre
      ++ [ {| opcode := INST_NOP; operands := []; inst_label := Some "_start"%string |};
           plain INST_CALL [label_operand target];
           plain INST_MOV [reg_operand REG_RDI; reg_operand REG_RAX];
           plain INST_MOV [reg_operand REG_RAX; imm_operand 60];
           plain INST_MOV [reg_operand REG_RDI; imm_operand 0];
           plain INST_SYSCALL [] ]
    /\ Forall (fun i => has_label i "_start" = false) pre
    /\ (0 < List.length (encode_all pre))%nat.
Proof.
  unfold native_codegen_program.
  destruct (program_declarations decls false None cg)
    as [[[ok has_main] main_func] cg1] eqn:Ep.
  destruct ok; simpl; [|discriminate].
  destruct has_main; simpl; [|discriminate].
  destruct (program_declarations_append decls _ _ _ _ _ _ Ep) as (pre & E & F & L).
  destruct (L eq_refl) as [L'|L']; [discriminate|].
  intros H. inversion H; subst cg'; clear H.
  exists pre.
  exists (match main_func with Some f => func_label f | None => "func_0"%string end).
  split; [|split; assumption].
  unfold step, succeed, emit_syscall_exit.
  destruct main_func; simpl; rewrite E; now rewrite <- !app_assoc.
Qed.

(** For every program lowered from a fresh context, [_start] resolves to a
    code offset that is not 0, so its address is not the entry address of
    the header. *)
Lemma start_is_not_the_entry (decls : list ASTNode) (cg' : NativeCodeGen) :
  native_codegen_program decls native_codegen_create = (true, cg') ->
  exists offset,
    label_offset (instructions cg') "_start" 0 = Some offset
    /\ 0 < offset
    /\ e_entry elf_header
       <> BASE_ADDRESS + sizeof_ELF64_Header + sizeof_ELF64_ProgramHeader + offset.
Proof.
  intros H. destruct (program_start_sequence _ _ _ H) as (pre & target & E & F & L).
  simpl in E. exists (Z.of_nat (List.length (encode_all pre))).
  split; [|split].
  - rewrite E. rewrite (label_offset_after "_start" pre F) by reflexivity.
    reflexivity.
  - lia.
  - unfold elf_header; cbn [e_entry]. lia.
Qed.

(** Every branch site of every instruction list has the displacement 0 (a
    call) or none at all (a jump, which is encoded as padding). *)
Lemma branch_displacements (insts : list Instruction) :
  forall offset s,
    In s (branch_sites insts offset) ->
    displacement s = Some 0 \/ displacement s = None.
Proof.
  induction insts as [|inst next IH]; intros offset s Hs; simpl in Hs; [contradiction|].
  destruct (is_branch (opcode inst)) eqn:Eb; [|now apply IH in Hs].
  destruct (map op_value (operands inst)) as [|[r|i|b o|l] [|v vs]];
    try (now apply IH in Hs).
  destruct Hs as [<-|Hs]; [|now apply IH in Hs].
  simpl. unfold encode_instruction.
  destruct (opcode inst); try discriminate Eb; auto.
Qed.

(* ================================================================== *)
(** ** Failure and the error flag *)

Lemma quiet_refl (cg : NativeCodeGen) : quiet cg cg.
Proof. repeat split. Qed.

Lemma quiet_trans (a b c : NativeCodeGen) : quiet a b -> quiet b c -> quiet a c.
Proof. intros (H1 & H2 & H3) (H4 & H5 & H6). repeat split; congruence. Qed.

Lemma quiet_then_raised (a b c : NativeCodeGen) : quiet a b -> raised b c -> raised a c.
Proof.
  intros (H1 & H2 & H3) (H4 & msg & H5 & H6). split; [exact H4|].
  exists msg. split; [exact H5|]. now rewrite H6, H3.
Qed.

Lemma quiet_then_outcome (ok : bool) (a b c : NativeCodeGen) :
  quiet a b -> outcome ok b c -> outcome ok a c.
Proof.
  destruct ok; simpl; [apply quiet_trans | apply quiet_then_raised].
Qed.

Lemma error_is_raised (msg : string) (cg : NativeCodeGen) :
  raised cg (native_codegen_error msg cg).
Proof. split; [reflexivity|]. exists msg. split; reflexivity. Qed.

Lemma faithful_succeed : reports_faithfully succeed.
Proof. intros cg. apply quiet_refl. Qed.

Lemma faithful_fail (msg : string) : reports_faithfully (fail msg).
Proof. intros cg. apply error_is_raised. Qed.

Lemma faithful_step (f : NativeCodeGen -> NativeCodeGen) (k : Gen bool) :
  (forall cg, quiet cg (f cg)) -> reports_faithfully k ->
  reports_faithfully (step f k).
Proof.
  intros Hf Hk cg. unfold step.
  eapply quiet_then_outcome; [apply Hf | apply Hk].
Qed.

Lemma faithful_and_then (m k : Gen bool) :
  reports_faithfully m -> reports_faithfully k ->
  reports_faithfully (and_then m k).
Proof.
  intros Hm Hk cg. unfold and_then.
  specialize (Hm cg). destruct (m cg) as [ok cg1]. simpl in Hm.
  destruct ok; simpl; [|exact Hm].
  eapply quiet_then_outcome; [exact Hm | apply Hk].
Qed.

Lemma quiet_append (i : Instruction) (cg : NativeCodeGen) :
  quiet cg (append_instruction i cg).
Proof. repeat split. Qed.

Ltac faithful_emits :=
  repeat (apply faithful_step; [intros ?; apply quiet_append|]);
  try apply faithful_succeed.

Lemma faithful_literal (l : LiteralValue) (r : X86Register) :
  reports_faithfully (native_codegen_literal l r).
Proof.
  destruct l; simpl; try faithful_emits.
  all: intros cg; repeat split.
Qed.

Lemma faithful_identifier (name : string) (r : X86Register) :
  reports_faithfully (native_codegen_identifier name r).
Proof.
  intros cg. unfold native_codegen_identifier.
  destruct (lookup_variable cg name); [repeat split | apply error_is_raised].
Qed.

Lemma faithful_binary_operation (op : BinaryOperator) :
  reports_faithfully (binary_operation op).
Proof. destruct op; simpl; try apply faithful_fail; faithful_emits. Qed.

(** The literal at the head of the table is found under its own label. *)
Lemma head_literal_is_found (str : StringLiteral) (rest : list StringLiteral) :
  find_string_literal (str :: rest) (str_label str) = Some str.
Proof. simpl. now rewrite String.eqb_refl. Qed.

Lemma write_of_head_is_quiet (cg : NativeCodeGen) :
  quiet cg match string_literals cg with
           | str :: _ => emit_syscall_write (str_label str) cg
           | [] => cg
           end.
Proof.
  destruct (string_literals cg) as [|str rest] eqn:E; [apply quiet_refl|].
  unfold emit_syscall_write. rewrite E, head_literal_is_found. repeat split.
Qed.

Lemma faithful_print_argument (a : ASTNode) : reports_faithfully (print_argument a).
Proof.
  intros cg. unfold print_argument.
  pose proof (write_of_head_is_quiet cg) as H.
  destruct a; simpl; try apply quiet_refl; try exact H.
  destruct literal; simpl; try apply quiet_refl; exact H.
Qed.

Lemma faithful_expression (e : ASTNode) :
  forall r, reports_faithfully (native_codegen_expression e r).
Proof.
  induction e using ASTNode_nested_ind; intros r; simpl;
    try apply faithful_fail.
  - apply faithful_literal.
  - apply faithful_identifier.
  - unfold native_codegen_binary_expr.
    apply faithful_and_then; [apply IHe1|].
    apply faithful_step; [intros ?; apply quiet_append|].
    apply faithful_and_then; [apply IHe2|].
    apply faithful_step; [intros ?; apply quiet_append|].
    apply faithful_and_then; [apply faithful_binary_operation|].
    destruct (negb _); faithful_emits.
  - unfold native_codegen_unary_expr.
    apply faithful_and_then; [apply IHe|].
    destruct op; faithful_emits.
  - unfold native_codegen_call_expr.
    destruct e; try apply faithful_fail.
    destruct (String.eqb name "print"); [|apply faithful_fail].
    destruct args as [|a [|b rest]]; try apply faithful_fail.
    apply faithful_and_then; [|apply faithful_print_argument].
    inversion H; subst. auto.
Qed.

Lemma faithful_statement (stmt : ASTNode) :
  reports_faithfully (native_codegen_statement stmt).
Proof.
  induction stmt using ASTNode_nested_ind; simpl; try apply faithful_fail.
  - apply faithful_expression.
  - intros cg. unfold native_codegen_var_declaration, add_variable_symbol.
    cbv beta iota zeta.
    destruct i as [e|]; [|repeat split].
    match goal with
    | |- context [set_variables ?v (set_stack_offset ?w cg)] =>
        eapply quiet_then_outcome with (b := set_variables v (set_stack_offset w cg));
          [repeat split|]
    end.
    apply (faithful_and_then _ _ (faithful_expression e REG_RAX)).
    faithful_emits.
  - unfold native_codegen_return_stmt.
    apply faithful_and_then; [|faithful_emits].
    destruct v as [e|]; [apply faithful_expression | faithful_emits].
  - induction H as [|s rest Hs Hrest IH]; [apply faithful_succeed|].
    apply faithful_and_then; assumption.
Qed.

Lemma faithful_function (name : string) (body : ASTNode) :
  reports_faithfully (native_codegen_function name body).
Proof.
  intros cg. unfold native_codegen_function, add_function_symbol, create_label.
  cbv beta iota zeta.
  match goal with
  | |- outcome (fst (?m ?c)) cg (snd (?m ?c)) =>
      apply quiet_then_outcome with (b := c); [repeat split|];
        generalize c; change (reports_faithfully m)
  end.
  apply faithful_step; [intros ?; repeat split|].
  repeat (apply faithful_step; [intros ?; apply quiet_append|]).
  apply faithful_step; [intros ?; repeat split|].
  apply faithful_and_then; [apply faithful_statement | faithful_emits].
Qed.

Lemma faithful_program_declarations (decls : list ASTNode) :
  forall has_main main_func cg,
    outcome (fst (fst (fst (program_declarations decls has_main main_func cg))))
      cg (snd (program_declarations decls has_main main_func cg)).
Proof.
  induction decls as [|decl rest IH]; intros has_main main_func cg.
  - apply quiet_refl.
  - destruct decl; try apply IH.
    simpl.
    pose proof (faithful_function name decl cg) as Hf.
    destruct (native_codegen_function name decl cg) as [ok cg1]. simpl in Hf.
    destruct ok; simpl; [|exact Hf].
    eapply quiet_then_outcome; [exact Hf | apply IH].
Qed.

Lemma faithful_program (decls : list ASTNode) :
  reports_faithfully (native_codegen_program decls).
Proof.
  intros cg. unfold native_codegen_program.
  pose proof (faithful_program_declarations decls false None cg) as Hd.
  destruct (program_declarations decls false None cg)
    as [[[ok has_main] main_func] cg1]. simpl in Hd.
  destruct ok; simpl; [|exact Hd].
  destruct has_main; simpl.
  - apply (quiet_trans _ _ _ Hd).
    unfold step, succeed, emit_syscall_exit. destruct main_func; repeat split.
  - eapply quiet_then_raised; [exact Hd | apply error_is_raised].
Qed.

(** X1.  The result of the lowering tells whether an error was reported:
    when [native_codegen_generate] returns [true] the error flag, the
    stored message and [stderr] are as they were; when it returns [false]
    the flag is set and exactly one error line was written, which carries
    the stored message. *)
Theorem lowering_reports_faithfully :
  forall (program : option ASTNode) (cg : NativeCodeGen),
    if fst (native_codegen_generate program cg)
    then had_error (snd (native_codegen_generate program cg)) = had_error cg
         /\ error_message (snd (native_codegen_generate program cg))
            = error_message cg
         /\ stderr_log (snd (native_codegen_generate program cg)) = stderr_log cg
    else had_error (snd (native_codegen_generate program cg)) = true
         /\ exists msg,
              error_message (snd (native_codegen_generate program cg)) = Some msg
              /\ stderr_log (snd (native_codegen_generate program cg))
                 = stderr_log cg
                   ++ [("Native code generation error: " ++ msg ++ newline)%string].
Proof.
  intros program cg.
  assert (H : reports_faithfully (native_codegen_generate program)).
  { destruct program as [p|]; [|apply faithful_fail].
    destruct p; try apply faithful_fail. apply faithful_program. }
  exact (H cg).
Qed.

(* ================================================================== *)
(** ** Programs with and without [main] *)

Lemma loop_has_main (decls : list ASTNode) :
  forall has_main main_func cg has_main' main_func' cg',
    program_declarations decls has_main main_func cg
    = ((true, has_main', main_func'), cg') ->
    has_main' = has_main || declares_main decls.
Proof.
  induction decls as [|decl rest IH];
    intros has_main main_func cg has_main' main_func' cg' H.
  - simpl in H. inversion H. now rewrite orb_false_r.
  - assert (Skip : program_declarations rest has_main main_func cg
                   = ((true, has_main', main_func'), cg') ->
                   has_main' = has_main || declares_main rest) by apply IH.
    destruct decl; try (simpl declares_main; apply Skip; exact H).
    simpl in H.
    destruct (native_codegen_function name decl cg) as [ok cg1].
    destruct ok; simpl in H; [|discriminate].
    apply IH in H. rewrite H. simpl declares_main.
    destruct (String.eqb name "main"); simpl; [now rewrite orb_true_r|reflexivity].
Qed.

(** X2.  A program none of whose declarations is a function named [main]
    does not lower: the result is [false], the error flag is set, no entry
    sequence is added to the instructions the loop over the functions left,
    and when every function lowered the stored message is
    ["No main function found"]. *)
Theorem program_without_main_fails :
  forall (decls : list ASTNode) (cg : NativeCodeGen),
    declares_main decls = false ->
    fst (native_codegen_program decls cg) = false
    /\ had_error (snd (native_codegen_program decls cg)) = true
    /\ instructions (snd (native_codegen_program decls cg))
       = instructions (snd (program_declarations decls false None cg))
    /\ error_message (snd (native_codegen_program decls cg))
       = if fst (fst (fst (program_declarations decls false None cg)))
         then Some "No main function found"%string
         else error_message (snd (program_declarations decls false None cg)).
Proof.
  intros decls cg Hmain.
  pose proof (faithful_program decls cg) as Hf.
  unfold native_codegen_program in *.
  destruct (program_declarations decls false None cg)
    as [[[ok has_main] main_func] cg1] eqn:Ep.
  destruct ok; simpl in *.
  - apply loop_has_main in Ep. rewrite Hmain in Ep. simpl in Ep. subst has_main.
    simpl in *. repeat split.
  - destruct Hf as (Hf & _). repeat split; assumption.
Qed.

Lemma program_without_main_fails_witness :
  declares_main [AST_FUNCTION_DECLARATION "f" [] TYPE_VOID (AST_BLOCK_STMT [])] = false
  /\ fst (native_codegen_program
            [AST_FUNCTION_DECLARATION "f" [] TYPE_VOID (AST_BLOCK_STMT [])]
            native_codegen_create) = false
  /\ error_message (snd (native_codegen_program
            [AST_FUNCTION_DECLARATION "f" [] TYPE_VOID (AST_BLOCK_STMT [])]
            native_codegen_create))
     = Some "No main function found"%string.
Proof.
  split; [reflexivity|].
  destruct (program_without_main_fails
              [AST_FUNCTION_DECLARATION "f" [] TYPE_VOID (AST_BLOCK_STMT [])]
              native_codegen_create eq_refl) as (H1 & _ & _ & H4).
  split; [exact H1 | exact H4].
Defined.

(* ================================================================== *)
(** ** What the lowering adds and what it leaves *)

Section Lowering_invariant.

Variable R : NativeCodeGen -> NativeCodeGen -> Prop.
Hypothesis R_refl : forall cg, R cg cg.
Hypothesis R_trans : forall a b c, R a b -> R b c -> R a c.
Hypothesis R_emit :
  forall i, body_instruction i = true -> respects_fn R (append_instruction i).
Hypothesis R_error : forall msg, respects_fn R (native_codegen_error msg).
Hypothesis R_write : forall label, respects_fn R (emit_syscall_write label).
Hypothesis R_add_string : forall content, respects R (add_string_literal content).
Hypothesis R_add_variable :
  forall name t c, respects R (add_variable_symbol name t c).

Ltac emits :=
  repeat (apply (respects_step R R_trans);
          [intros ?; apply R_emit; reflexivity|]);
  try apply (respects_succeed R R_refl).

Lemma kept_by_literal (l : LiteralValue) (r : X86Register) :
  respects R (native_codegen_literal l r).
Proof.
  destruct l as [d|s|b|]; cbn [native_codegen_literal]; try emits.
  intros cg. pose proof (R_add_string s cg) as H.
  destruct (add_string_literal s cg) as [str cg1]. cbn [snd] in *.
  eapply R_trans; [exact H | now apply R_emit].
Qed.

Lemma kept_by_identifier (name : string) (r : X86Register) :
  respects R (native_codegen_identifier name r).
Proof.
  intros cg. unfold native_codegen_identifier.
  destruct (lookup_variable cg name); [now apply R_emit | apply R_error].
Qed.

Lemma kept_by_binary_operation (op : BinaryOperator) :
  respects R (binary_operation op).
Proof. destruct op; simpl; try apply (respects_fail R R_error); emits. Qed.

Lemma kept_by_print_argument (a : ASTNode) : respects R (print_argument a).
Proof.
  intros cg. unfold print_argument.
  assert (H : R cg match string_literals cg with
                   | str :: _ => emit_syscall_write (str_label str) cg
                   | [] => cg
                   end).
  { destruct (string_literals cg); [apply R_refl | apply R_write]. }
  destruct a; simpl; try apply R_refl; try exact H.
  destruct literal; simpl; try apply R_refl; exact H.
Qed.

Lemma kept_by_expression (e : ASTNode) :
  forall r, respects R (native_codegen_expression e r).
Proof.
  induction e using ASTNode_nested_ind; intros r; simpl;
    try apply (respects_fail R R_error).
  - apply kept_by_literal.
  - apply kept_by_identifier.
  - unfold native_codegen_binary_expr.
    apply (respects_and_then R R_trans); [apply IHe1|].
    apply (respects_step R R_trans); [intros ?; now apply R_emit|].
    apply (respects_and_then R R_trans); [apply IHe2|].
    apply (respects_step R R_trans); [intros ?; now apply R_emit|].
    apply (respects_and_then R R_trans); [apply kept_by_binary_operation|].
    destruct (negb _); emits.
  - unfold native_codegen_unary_expr.
    apply (respects_and_then R R_trans); [apply IHe|].
    destruct op; emits.
  - unfold native_codegen_call_expr.
    destruct e; try apply (respects_fail R R_error).
    destruct (String.eqb name "print"); [|apply (respects_fail R R_error)].
    destruct args as [|a [|b rest]]; try apply (respects_fail R R_error).
    apply (respects_and_then R R_trans); [|apply kept_by_print_argument].
    inversion H; subst. auto.
Qed.

Lemma kept_by_statement (stmt : ASTNode) :
  respects R (native_codegen_statement stmt).
Proof.
  induction stmt using ASTNode_nested_ind; simpl;
    try apply (respects_fail R R_error).
  - apply kept_by_expression.
  - intros cg. unfold native_codegen_var_declaration.
    pose proof (R_add_variable n t c cg) as Hv.
    destruct (add_variable_symbol n t c cg) as [symbol cg1]. cbn [snd] in Hv.
    destruct i as [e|]; [|exact Hv].
    eapply R_trans; [exact Hv|].
    apply (respects_and_then R R_trans); [apply kept_by_expression | emits].
  - unfold native_codegen_return_stmt.
    apply (respects_and_then R R_trans); [|emits].
    destruct v as [e|]; [apply kept_by_expression | emits].
  - induction H as [|s rest Hs Hrest IH]; [apply (respects_succeed R R_refl)|].
    apply (respects_and_then R R_trans); assumption.
Qed.

Hypothesis R_append : forall i, respects_fn R (append_instruction i).
Hypothesis R_add_function : forall name, respects R (add_function_symbol name).
Hypothesis R_current_function : forall v, respects_fn R (set_current_function v).
Hypothesis R_stack_offset : forall v, respects_fn R (set_stack_offset v).

Lemma kept_by_function (name : string) (body : ASTNode) :
  respects R (native_codegen_function name body).
Proof.
  intros cg. unfold native_codegen_function.
  pose proof (R_add_function name cg) as Hf.
  destruct (add_function_symbol name cg) as [symbol cg1]. cbn [snd] in Hf.
  eapply R_trans; [exact Hf|]. generalize cg1.
  apply (respects_step R R_trans); [apply R_current_function|].
  apply (respects_step R R_trans); [intros x; apply R_append|].
  apply (respects_step R R_trans); [intros x; apply R_append|].
  apply (respects_step R R_trans); [intros x; apply R_append|].
  apply (respects_step R R_trans); [apply R_stack_offset|].
  apply (respects_and_then R R_trans); [apply kept_by_statement | emits].
Qed.

Lemma kept_by_program_declarations (decls : list ASTNode) :
  forall has_main main_func cg,
    R cg (snd (program_declarations decls has_main main_func cg)).
Proof.
  induction decls as [|decl rest IH]; intros has_main main_func cg.
  - apply R_refl.
  - destruct decl; try apply IH.
    simpl.
    pose proof (kept_by_function name decl cg) as Hf.
    destruct (native_codegen_function name decl cg) as [ok cg1]. simpl in Hf.
    destruct ok; simpl; [|exact Hf].
    eapply R_trans; [exact Hf | apply IH].
Qed.

Lemma kept_by_program (decls : list ASTNode) :
  respects R (native_codegen_program decls).
Proof.
  intros cg. unfold native_codegen_program.
  pose proof (kept_by_program_declarations decls false None cg) as Hd.
  destruct (program_declarations decls false None cg)
    as [[[ok has_main] main_func] cg1]. simpl in Hd.
  destruct ok; simpl; [|exact Hd].
  destruct has_main; simpl.
  - apply (R_trans _ _ _ Hd).
    unfold step, succeed, emit_syscall_exit; cbn [snd].
    repeat (eapply R_trans; [|apply R_append]).
    unfold emit_label, emit_instruction_label.
    destruct main_func; (eapply R_trans; [|apply R_append]); apply R_append.
  - eapply R_trans; [exact Hd | apply R_error].
Qed.

Lemma kept_by_generate (program : option ASTNode) :
  respects R (native_codegen_generate program).
Proof.
  destruct program as [p|]; [|intros cg; apply R_error].
  destruct p; try (intros cg; apply R_error). apply kept_by_program.
Qed.

End Lowering_invariant.

Lemma grows_refl (cg : NativeCodeGen) : grows cg cg.
Proof.
  repeat split; try (exists []; now rewrite ?app_nil_r).
Qed.

Lemma grows_trans (a b c : NativeCodeGen) : grows a b -> grows b c -> grows a c.
Proof.
  intros ((i1 & I1) & (s1 & S1) & (f1 & F1) & (v1 & V1) & B1 & C1 & (o1 & O1))
         ((i2 & I2) & (s2 & S2) & (f2 & F2) & (v2 & V2) & B2 & C2 & (o2 & O2)).
  repeat split; try congruence.
  - exists (i1 ++ i2). now rewrite I2, I1, app_assoc.
  - exists (s2 ++ s1). now rewrite S2, S1, app_assoc.
  - exists (f2 ++ f1). now rewrite F2, F1, app_assoc.
  - exists (v2 ++ v1). now rewrite V2, V1, app_assoc.
  - exists (o1 ++ o2). now rewrite O2, O1, app_assoc.
Qed.

Ltac grows_by_one :=
  unfold respects_fn, respects, emit_syscall_write; intros;
  try match goal with
      | |- context [find_string_literal ?l ?x] => destruct (find_string_literal l x)
      end;
  repeat split; simpl;
  try (exists []; now rewrite ?app_nil_r);
  try (eexists; reflexivity);
  try (now eexists (_ :: nil)).

(** X3.  The lowering only adds: after [native_codegen_generate], whether
    it succeeds or fails, the instructions it found are still the beginning
    of the instruction list, the string, function and variable tables it
    found are still the bottom of the tables, the code buffer is untouched
    and [stdout] has only grown. *)
Theorem lowering_only_adds :
  forall (program : option ASTNode) (cg : NativeCodeGen),
    (exists code,
        instructions (snd (native_codegen_generate program cg))
        = instructions cg ++ code)
    /\ (exists strs,
          string_literals (snd (native_codegen_generate program cg))
          = strs ++ string_literals cg)
    /\ (exists funcs,
          functions (snd (native_codegen_generate program cg))
          = funcs ++ functions cg)
    /\ (exists vars,
          variables (snd (native_codegen_generate program cg))
          = vars ++ variables cg)
    /\ code_buffer (snd (native_codegen_generate program cg)) = code_buffer cg
    /\ code_capacity (snd (native_codegen_generate program cg)) = code_capacity cg
    /\ (exists lines,
          stdout_log (snd (native_codegen_generate program cg))
          = stdout_log cg ++ lines).
Proof.
  intros program cg.
  change (grows cg (snd (native_codegen_generate program cg))).
  apply kept_by_generate;
    try exact grows_refl; try exact grows_trans; grows_by_one.
Qed.

(* ================================================================== *)
(** ** The code of statements and functions *)

Lemma functions_append (i : Instruction) (cg : NativeCodeGen) :
  functions (append_instruction i cg) = functions cg.
Proof. reflexivity. Qed.

Lemma current_function_append (i : Instruction) (cg : NativeCodeGen) :
  current_function (append_instruction i cg) = current_function cg.
Proof. reflexivity. Qed.

Lemma body_step_refl (cg : NativeCodeGen) : body_step cg cg.
Proof. split; [|split; reflexivity]. exists []. now rewrite app_nil_r. Qed.

Lemma body_step_trans (a b c : NativeCodeGen) :
  body_step a b -> body_step b c -> body_step a c.
Proof.
  intros ((c1 & E1 & F1) & G1 & H1) ((c2 & E2 & F2) & G2 & H2).
  split; [|split; congruence].
  exists (c1 ++ c2). split.
  - now rewrite E2, E1, app_assoc.
  - now rewrite forallb_app, F1, F2.
Qed.

Lemma body_step_same_instructions (cg cg' : NativeCodeGen) :
  instructions cg' = instructions cg ->
  functions cg' = functions cg ->
  current_function cg' = current_function cg ->
  body_step cg cg'.
Proof.
  intros E F C. split; [|split; assumption].
  exists []. now rewrite app_nil_r.
Qed.

(** X4.  Whatever the statement and whether its lowering succeeds or not,
    the instructions it adds are added at the end, carry no label and are
    moves, pushes, pops, additions, subtractions, multiplications,
    divisions, compares and returns: no call, jump or syscall is ever
    emitted for a function body, and the function table and the current
    function are left alone. *)
Theorem statement_emits_body_instructions :
  forall (stmt : ASTNode) (cg : NativeCodeGen),
    (exists code,
        instructions (snd (native_codegen_statement stmt cg))
        = instructions cg ++ code
        /\ forallb body_instruction code = true)
    /\ functions (snd (native_codegen_statement stmt cg)) = functions cg
    /\ current_function (snd (native_codegen_statement stmt cg))
       = current_function cg.
Proof.
  intros stmt cg.
  change (body_step cg (snd (native_codegen_statement stmt cg))).
  apply kept_by_statement.
  - exact body_step_refl.
  - exact body_step_trans.
  - intros i Hi x. split; [|split; reflexivity].
    exists [i]. split; [reflexivity|]. simpl. now rewrite Hi.
  - intros msg x. now apply body_step_same_instructions.
  - intros label x. apply body_step_same_instructions;
      unfold emit_syscall_write; now destruct (find_string_literal _ _).
  - intros content x. now apply body_step_same_instructions.
  - intros name t c x. now apply body_step_same_instructions.
Qed.

Lemma supported_when_lowered (stmt : ASTNode) :
  forall cg, fst (native_codegen_statement stmt cg) = true ->
             supported_statement stmt = true.
Proof.
  induction stmt using ASTNode_nested_ind; intros cg Hok;
    try reflexivity; try (simpl in Hok; discriminate).
  simpl in *. revert cg Hok.
  induction H as [|s rest Hs Hrest IH]; intros cg Hok; [reflexivity|].
  apply and_then_true in Hok. destruct Hok as (Ok1 & Ok2 & _).
  rewrite (Hs cg Ok1). simpl. exact (IH _ Ok2).
Qed.

(** X5.  A function that lowers has a body made of variable declarations,
    returns, expression statements and blocks of these (an [if], [while] or
    [for] statement makes the lowering fail), and its code is its label
    [func_<counter>], the prologue [push rbp; mov rbp, rsp], the body
    instructions, and the default epilogue
    [mov rax, 0; mov rsp, rbp; pop rbp; ret], which is there whether or not
    the body returned; the function is put on top of the function table
    under that label and becomes the current function. *)
Theorem lowered_function_frame :
  forall (name : string) (body : ASTNode) (cg : NativeCodeGen),
    fst (native_codegen_function name body cg) = true ->
    supported_statement body = true
    /\ (exists body_code,
          instructions (snd (native_codegen_function name body cg))
          = instructions cg
            ++ [ {| opcode := INST_NOP; operands := [];
                    inst_label := Some (fst (create_label "func" cg)) |};
                 plain INST_PUSH [reg_operand REG_RBP];
                 plain INST_MOV [reg_operand REG_RBP; reg_operand REG_RSP] ]
            ++ body_code
            ++ [ plain INST_MOV [reg_operand REG_RAX; imm_operand 0];
                 plain INST_MOV [reg_operand REG_RSP; reg_operand REG_RBP];
                 plain INST_POP [reg_operand REG_RBP];
                 plain INST_RET [] ]
          /\ forallb body_instruction body_code = true)
    /\ functions (snd (native_codegen_function name body cg))
       = {| func_name := name; func_label := fst (create_label "func" cg);
            func_stack_size := 0 |} :: functions cg
    /\ current_function (snd (native_codegen_function name body cg)) = Some name.
Proof.
  intros name body cg Hok.
  set (l := fst (create_label "func" cg)).
  set (start :=
         set_stack_offset 8
           (emit_instruction_reg_reg INST_MOV REG_RBP REG_RSP
              (emit_instruction_reg INST_PUSH REG_RBP
                 (emit_label l
                    (set_current_function (Some name)
                       (snd (add_function_symbol name cg))))))).
  assert (Ok : fst (native_codegen_statement body start) = true
               /\ snd (native_codegen_function name body cg)
                  = emit_instruction INST_RET
                      (emit_instruction_reg INST_POP REG_RBP
                         (emit_instruction_reg_reg INST_MOV REG_RSP REG_RBP
                            (emit_instruction_reg_imm INST_MOV REG_RAX 0
                               (snd (native_codegen_statement body start)))))).
  { unfold native_codegen_function in *.
    change (add_function_symbol name cg)
      with (fst (add_function_symbol name cg), snd (add_function_symbol name cg)) in *.
    cbv beta iota zeta in *. unfold step at 1 2 3 4 5 in Hok.
    unfold step at 1 2 3 4 5.
    apply and_then_true in Hok. destruct Hok as (Ok & _ & E).
    split; [exact Ok|]. rewrite E. reflexivity. }
  destruct Ok as (Ok & ->).
  destruct (statement_emits_body_instructions body start)
    as ((code & Ec & Fc) & Hf & Hc).
  split; [exact (supported_when_lowered body start Ok)|].
  unfold emit_instruction, emit_instruction_reg, emit_instruction_reg_reg,
    emit_instruction_reg_imm.
  split; [|split].
  - exists code. split; [|exact Fc].
    rewrite !instructions_append, Ec. subst start.
    unfold emit_instruction_reg_reg, emit_instruction_reg, emit_label.
    change (instructions (set_stack_offset 8 ?x)) with (instructions x).
    cbn [instructions set_stack_offset].
    rewrite !instructions_append. now rewrite <- !app_assoc.
  - rewrite !functions_append, Hf. reflexivity.
  - rewrite !current_function_append, Hc. reflexivity.
Qed.

Lemma lowered_function_frame_witness :
  fst (native_codegen_function "main"
         (AST_BLOCK_STMT [AST_RETURN_STMT (Some (number 42))])
         native_codegen_create) = true
  /\ supported_statement (AST_BLOCK_STMT [AST_RETURN_STMT (Some (number 42))]) = true
  /\ functions (snd (native_codegen_function "main"
                       (AST_BLOCK_STMT [AST_RETURN_STMT (Some (number 42))])
                       native_codegen_create))
     = [{| func_name := "main"; func_label := "func_0"; func_stack_size := 0 |}]
  /\ current_function (snd (native_codegen_function "main"
                              (AST_BLOCK_STMT [AST_RETURN_STMT (Some (number 42))])
                              native_codegen_create))
     = Some "main"%string.
Proof.
  assert (Hok : fst (native_codegen_function "main"
                       (AST_BLOCK_STMT [AST_RETURN_STMT (Some (number 42))])
                       native_codegen_create) = true) by reflexivity.
  destruct (lowered_function_frame "main"
              (AST_BLOCK_STMT [AST_RETURN_STMT (Some (number 42))])
              native_codegen_create Hok) as (H1 & _ & H3 & H4).
  split; [exact Hok|]. split; [exact H1|]. split; [exact H3 | exact H4].
Defined.

(* ================================================================== *)
(** ** Calls and the builtin [print] *)

Lemma expression_call_eq (callee : ASTNode) (args : list ASTNode) (r : X86Register) :
  native_codegen_expression (AST_CALL_EXPR callee args) r
  = native_codegen_call_expr native_codegen_expression callee args r.
Proof. reflexivity. Qed.

(** X6.  [print] of a string literal is carried out while compiling: the
    lowering succeeds, interns the literal under a fresh [str_<counter>]
    label with its length, writes the line
    ["Zen program output: <content>"] to [stdout] once, and emits a single
    instruction, the move of the placeholder address [0x600000] into RAX;
    nothing in the emitted code writes the text. *)
Theorem print_of_literal_writes_while_compiling :
  forall (content : string) (r : X86Register) (cg : NativeCodeGen),
    let call := AST_CALL_EXPR (AST_IDENTIFIER_EXPR "print")
                  [AST_LITERAL_EXPR (LITERAL_STRING content)] in
    fst (native_codegen_expression call r cg) = true
    /\ instructions (snd (native_codegen_expression call r cg))
       = instructions cg ++ [plain INST_MOV [reg_operand REG_RAX; imm_operand 0x600000]]
    /\ stdout_log (snd (native_codegen_expression call r cg))
       = stdout_log cg ++ [output_line content]
    /\ string_literals (snd (native_codegen_expression call r cg))
       = {| str_label := fst (create_label "str" cg);
            str_content := content;
            str_length := Z.of_nat (String.length content) |} :: string_literals cg
    /\ label_counter (snd (native_codegen_expression call r cg))
       = wrap_int32 (label_counter cg + 1)
    /\ had_error (snd (native_codegen_expression call r cg)) = had_error cg.
Proof.
  intros content r cg call. subst call.
  rewrite expression_call_eq. unfold native_codegen_call_expr.
  change (String.eqb "print" "print") with true. cbv iota.
  unfold and_then.
  change (native_codegen_expression (AST_LITERAL_EXPR (LITERAL_STRING content)) REG_RAX cg)
    with (true,
          emit_instruction_reg_imm INST_MOV REG_RAX 0x600000
            (snd (add_string_literal content cg))).
  cbv iota beta. unfold print_argument.
  set (str := {| str_label := fst (create_label "str" cg);
                 str_content := content;
                 str_length := Z.of_nat (String.length content) |}).
  change (string_literals
            (emit_instruction_reg_imm INST_MOV REG_RAX 0x600000
               (snd (add_string_literal content cg))))
    with (str :: string_literals cg).
  cbv iota beta. unfold emit_syscall_write.
  change (string_literals
            (emit_instruction_reg_imm INST_MOV REG_RAX 0x600000
               (snd (add_string_literal content cg))))
    with (str :: string_literals cg).
  rewrite head_literal_is_found.
  repeat split.
Qed.

(** X7.  [print] of a declared variable does not look at the variable: it
    emits the load of the variable into RAX and writes, while compiling,
    the content of the string literal interned last, or nothing when no
    literal was interned yet. *)
Theorem print_of_variable_writes_last_literal :
  forall (name : string) (var : VariableSymbol) (r : X86Register)
         (cg : NativeCodeGen),
    lookup_variable cg name = Some var ->
    let call := AST_CALL_EXPR (AST_IDENTIFIER_EXPR "print")
                  [AST_IDENTIFIER_EXPR name] in
    fst (native_codegen_expression call r cg) = true
    /\ instructions (snd (native_codegen_expression call r cg))
       = instructions cg
         ++ [plain INST_MOV [reg_operand REG_RAX;
                             mem_operand REG_RBP (wrap_int32 (- var_stack_offset var))]]
    /\ stdout_log (snd (native_codegen_expression call r cg))
       = stdout_log cg
         ++ match string_literals cg with
            | str :: _ => [output_line (str_content str)]
            | [] => []
            end
    /\ had_error (snd (native_codegen_expression call r cg)) = had_error cg.
Proof.
  intros name var r cg Hvar call. subst call.
  rewrite expression_call_eq. unfold native_codegen_call_expr.
  change (String.eqb "print" "print") with true. cbv iota.
  unfold and_then.
  cbn [native_codegen_expression]. unfold native_codegen_identifier.
  rewrite Hvar. cbv iota beta. unfold print_argument.
  change (string_literals (emit_instruction_reg_mem INST_MOV REG_RAX REG_RBP
                             (wrap_int32 (- var_stack_offset var)) cg))
    with (string_literals cg).
  destruct (string_literals cg) as [|str rest] eqn:E.
  - cbv iota beta. repeat split. cbn [snd stdout_log]. simpl. now rewrite app_nil_r.
  - cbv iota beta. unfold emit_syscall_write.
    change (string_literals (emit_instruction_reg_mem INST_MOV REG_RAX REG_RBP
                               (wrap_int32 (- var_stack_offset var)) cg))
      with (string_literals cg).
    rewrite E, head_literal_is_found. repeat split.
Qed.

Lemma print_of_variable_writes_last_literal_witness :
  lookup_variable
    (snd (add_variable_symbol "x" TYPE_STRING false
            (snd (add_string_literal "hello" native_codegen_create)))) "x"
  = Some {| var_name := "x"; var_zen_type := TYPE_STRING; var_is_const := false;
            var_stack_offset := 0 |}
  /\ stdout_log
       (snd (native_codegen_expression
               (AST_CALL_EXPR (AST_IDENTIFIER_EXPR "print") [AST_IDENTIFIER_EXPR "x"])
               REG_RAX
               (snd (add_variable_symbol "x" TYPE_STRING false
                       (snd (add_string_literal "hello" native_codegen_create))))))
     = [output_line "hello"].
Proof.
  assert (H : lookup_variable
    (snd (add_variable_symbol "x" TYPE_STRING false
            (snd (add_string_literal "hello" native_codegen_create)))) "x"
  = Some {| var_name := "x"; var_zen_type := TYPE_STRING; var_is_const := false;
            var_stack_offset := 0 |}) by reflexivity.
  split; [exact H|].
  destruct (print_of_variable_writes_last_literal "x" _ REG_RAX _ H)
    as (_ & _ & H3 & _).
  exact H3.
Defined.

(** X8.  No other call is lowered: a call whose callee is not the
    identifier [print], or that has no argument or more than one, fails
    with the error flag set and without emitting an instruction. *)
Theorem other_calls_are_rejected :
  forall (callee : ASTNode) (args : list ASTNode) (r : X86Register)
         (cg : NativeCodeGen),
    is_print_call callee args = false ->
    fst (native_codegen_expression (AST_CALL_EXPR callee args) r cg) = false
    /\ had_error (snd (native_codegen_expression (AST_CALL_EXPR callee args) r cg))
       = true
    /\ instructions (snd (native_codegen_expression (AST_CALL_EXPR callee args) r cg))
       = instructions cg
    /\ error_message (snd (native_codegen_expression (AST_CALL_EXPR callee args) r cg))
       = Some match callee with
              | AST_IDENTIFIER_EXPR name =>
                  if String.eqb name "print"
                  then "print requires exactly one argument"%string
                  else "Function calls not yet implemented"%string
              | _ => "Only direct function calls supported"%string
              end.
Proof.
  intros callee args r cg H.
  rewrite expression_call_eq. unfold native_codegen_call_expr.
  destruct callee; try (repeat split; reflexivity).
  unfold is_print_call in H.
  destruct (String.eqb name "print") eqn:E; [|repeat split; reflexivity].
  destruct args as [|a [|b rest]]; try discriminate H; repeat split; reflexivity.
Qed.

Lemma other_calls_are_rejected_witness :
  is_print_call (AST_IDENTIFIER_EXPR "helper") [] = false
  /\ fst (native_codegen_expression
            (AST_CALL_EXPR (AST_IDENTIFIER_EXPR "helper") []) REG_RAX
            native_codegen_create) = false
  /\ error_message
       (snd (native_codegen_expression
               (AST_CALL_EXPR (AST_IDENTIFIER_EXPR "helper") []) REG_RAX
               native_codegen_create))
     = Some "Function calls not yet implemented"%string.
Proof.
  split; [reflexivity|].
  destruct (other_calls_are_rejected (AST_IDENTIFIER_EXPR "helper") [] REG_RAX
              native_codegen_create eq_refl) as (H1 & _ & _ & H4).
  split; [exact H1 | exact H4].
Defined.

(* ================================================================== *)
(** ** The call of [main] *)

Lemma function_grows (name : string) (body : ASTNode) (cg : NativeCodeGen) :
  grows cg (snd (native_codegen_function name body cg)).
Proof.
  apply kept_by_function;
    try exact grows_refl; try exact grows_trans; grows_by_one.
Qed.

Lemma program_declarations_grow (decls : list ASTNode) has_main main_func cg :
  grows cg (snd (program_declarations decls has_main main_func cg)).
Proof.
  apply kept_by_program_declarations;
    try exact grows_refl; try exact grows_trans; grows_by_one.
Qed.

Lemma label_offset_of_marked (insts : list Instruction) (l : string) :
  forall start,
    (exists i, In i insts /\ inst_label i = Some l) ->
    exists offset, label_offset insts l start = Some offset.
Proof.
  induction insts as [|inst next IH]; intros start (i & Hin & Hl); [contradiction|].
  simpl. destruct (has_label inst l) eqn:E; [eauto|].
  destruct Hin as [->|Hin].
  - unfold has_label in E. rewrite Hl, String.eqb_refl in E. discriminate.
  - apply IH. eauto.
Qed.

Lemma main_recorded_grows has_main main_func cg cg' :
  grows cg cg' -> main_recorded has_main main_func cg ->
  main_recorded has_main main_func cg'.
Proof.
  intros ((code & Ei) & _ & (funcs & Ef) & _) H Hm.
  destruct (H Hm) as (f & E & Hin & Hmain & i & Hi & Hl).
  exists f. repeat split; trivial.
  - rewrite Ef. apply in_or_app. now right.
  - exists i. split; [|exact Hl]. rewrite Ei. apply in_or_app. now left.
Qed.

Lemma loop_records_main (decls : list ASTNode) :
  forall has_main main_func cg has_main' main_func' cg',
    program_declarations decls has_main main_func cg
    = ((true, has_main', main_func'), cg') ->
    main_recorded has_main main_func cg ->
    main_recorded has_main' main_func' cg'.
Proof.
  induction decls as [|decl rest IH];
    intros has_main main_func cg has_main' main_func' cg' H Hrec.
  - simpl in H. inversion H; subst. exact Hrec.
  - assert (Skip : program_declarations rest has_main main_func cg
                   = ((true, has_main', main_func'), cg') ->
                   main_recorded has_main' main_func' cg')
      by (intros H'; eapply IH; eassumption).
    destruct decl; try (apply Skip; exact H).
    simpl in H.
    pose proof (lowered_function_frame name decl cg) as Hframe.
    pose proof (function_grows name decl cg) as Hgrow.
    destruct (native_codegen_function name decl cg) as [ok cg1].
    destruct ok; simpl in H; [|discriminate].
    destruct (Hframe eq_refl) as (_ & (code & Ei & _) & Ef & _).
    cbn [snd] in Ei, Ef, Hgrow.
    eapply IH; [exact H|].
    destruct (String.eqb name "main") eqn:En.
    + set (sym := {| func_name := name; func_label := fst (create_label "func" cg);
                     func_stack_size := 0 |}) in *.
      assert (Hm : is_main sym = true) by exact En.
      unfold main_recorded. rewrite Ef. cbn [find]. rewrite Hm.
      intros _. exists sym. split; [reflexivity|].
      split; [left; reflexivity|]. split; [exact Hm|].
      exists {| opcode := INST_NOP; operands := [];
                inst_label := Some (func_label sym) |}.
      split; [|reflexivity]. rewrite Ei.
      apply in_or_app. right. left. reflexivity.
    + eapply main_recorded_grows; eassumption.
Qed.

(** X9.  In every program that lowers, the call of [_start] targets the
    label of a function of the table that is named [main], and that label
    marks an instruction of the list, so it resolves to a code offset; the
    fallback target is never what makes the call. *)
Theorem start_calls_a_main_function :
  forall (decls : list ASTNode) (cg cg' : NativeCodeGen),
    native_codegen_program decls cg = (true, cg') ->
    exists f,
      In f (functions cg')
      /\ func_name f = "main"%string
      /\ In (plain INST_CALL [label_operand (func_label f)]) (instructions cg')
      /\ exists offset, label_offset (instructions cg') (func_label f) 0 = Some offset.
Proof.
  intros decls cg cg'. unfold native_codegen_program.
  destruct (program_declarations decls false None cg)
    as [[[ok has_main] main_func] cg1] eqn:Ep.
  destruct ok; simpl; [|discriminate].
  destruct has_main; simpl; [|discriminate].
  assert (Hrec : main_recorded true main_func cg1).
  { eapply loop_records_main; [exact Ep|]. intros H; discriminate H. }
  destruct (Hrec eq_refl) as (f & -> & Hin & Hmain & i & Hi & Hl).
  intros H. inversion H; subst cg'; clear H.
  exists f. unfold step, succeed, emit_syscall_exit, emit_instruction,
    emit_instruction_reg_imm, emit_instruction_reg_reg, emit_instruction_label,
    emit_label. cbn [snd].
  split; [exact Hin|]. split; [now apply String.eqb_eq|].
  rewrite !instructions_append. split.
  - rewrite <- !app_assoc. apply in_or_app. right. simpl. right. now left.
  - apply label_offset_of_marked. exists i. split; [|exact Hl].
    rewrite <- !app_assoc. apply in_or_app. now left.
Qed.

Lemma start_calls_a_main_function_witness :
  native_codegen_program main_returns_42 native_codegen_create
  = (true, lowered main_returns_42)
  /\ exists f,
       In f (functions (lowered main_returns_42))
       /\ func_name f = "main"%string
       /\ In (plain INST_CALL [label_operand (func_label f)])
             (instructions (lowered main_returns_42))
       /\ exists offset,
            label_offset (instructions (lowered main_returns_42)) (func_label f) 0
            = Some offset.
Proof.
  assert (H : native_codegen_program main_returns_42 native_codegen_create
              = (true, lowered main_returns_42)) by reflexivity.
  split; [exact H|].
  exact (start_calls_a_main_function main_returns_42 native_codegen_create
           (lowered main_returns_42) H).
Defined.

(* ================================================================== *)
(** ** The file written *)

Lemma length_le_bytes (n : nat) (v : Z) : List.length (le_bytes n v) = n.
Proof. revert v; induction n as [|n IH]; intros v; simpl; [reflexivity|]. now rewrite IH. Qed.

Lemma le_value_le_bytes (n : nat) :
  forall v, le_value (le_bytes n v) = v mod 256 ^ Z.of_nat n.
Proof.
  induction n as [|n IH]; intros v.
  - simpl. now rewrite Z.mod_1_r.
  - change (le_value (le_bytes (S n) v))
      with (v mod 256 + 256 * le_value (le_bytes n (v / 256))).
    rewrite IH, Nat2Z.inj_succ, Z.pow_succ_r by lia.
    rewrite Z.rem_mul_r by (try apply Z.pow_pos_nonneg; lia). reflexivity.
Qed.

Lemma elf_header_is_64_bytes :
  elf_header_bytes elf_header
  = [0x7f; 0x45; 0x4c; 0x46; 2; 1; 1; 0; 0; 0; 0; 0; 0; 0; 0; 0;
     2; 0; 62; 0; 1; 0; 0; 0;
     0x78; 0; 0x40; 0; 0; 0; 0; 0;
     64; 0; 0; 0; 0; 0; 0; 0;
     0; 0; 0; 0; 0; 0; 0; 0;
     0; 0; 0; 0; 64; 0; 56; 0; 1; 0; 0; 0; 0; 0; 0; 0].
Proof. vm_compute. reflexivity. Qed.

Lemma prog_header_is_56_bytes (cg : NativeCodeGen) :
  prog_header_bytes (prog_header cg)
  = [1; 0; 0; 0; 5; 0; 0; 0;
     0; 0; 0; 0; 0; 0; 0; 0;
     0; 0; 0x40; 0; 0; 0; 0; 0;
     0; 0; 0x40; 0; 0; 0; 0; 0]
    ++ le_bytes 8 (p_filesz (prog_header cg))
    ++ le_bytes 8 (p_memsz (prog_header cg))
    ++ [0; 0x10; 0; 0; 0; 0; 0; 0].
Proof. reflexivity. Qed.

(** X10.  When the output file can be opened, [generate_elf_executable]
    succeeds and the file is the 64-byte header, the 56-byte program header
    and the code buffer, which is what the buffer held before followed by
    the encoding of the instruction list.  The file starts with
    [7f 'E' 'L' 'F' 02 01], the entry field holds [0x400078], and the
    size-in-file and size-in-memory fields both hold the length of the whole
    file.  When the file cannot be opened the result is [false], nothing is
    written and the stored message is ["Could not create output file"];
    the code buffer has been filled all the same. *)
Theorem elf_file_layout :
  forall cg : NativeCodeGen,
    (fst (fst (generate_elf_executable true cg)) = true
     /\ exists file,
          snd (fst (generate_elf_executable true cg)) = Some file
          /\ file = firstn 64 file ++ firstn 56 (skipn 64 file)
                    ++ code_buffer (snd (generate_elf_executable true cg))
          /\ Z.of_nat (List.length file)
             = 120 + code_size (snd (generate_elf_executable true cg))
          /\ firstn 6 file = [0x7f; ascii_code "E"; ascii_code "L"; ascii_code "F"; 2; 1]
          /\ le_value (firstn 8 (skipn 24 file)) = 0x400078
          /\ le_value (firstn 8 (skipn 96 file))
             = wrap_u64 (Z.of_nat (List.length file))
          /\ le_value (firstn 8 (skipn 104 file))
             = wrap_u64 (Z.of_nat (List.length file)))
    /\ code_buffer (snd (generate_elf_executable true cg))
       = code_buffer cg ++ encode_all (instructions cg)
    /\ fst (generate_elf_executable false cg) = (false, None)
    /\ error_message (snd (generate_elf_executable false cg))
       = Some "Could not create output file"%string
    /\ code_buffer (snd (generate_elf_executable false cg))
       = code_buffer cg ++ encode_all (instructions cg).
Proof.
  intros cg. unfold generate_elf_executable, generate_machine_code.
  cbv beta iota zeta. cbn [negb fst snd].
  set (cg1 := encode_loop (instructions cg) cg).
  assert (Hbuf : code_buffer cg1 = code_buffer cg ++ encode_all (instructions cg))
    by apply encode_loop_buffer.
  split; [|repeat split; exact Hbuf].
  split; [reflexivity|].
  eexists. split; [reflexivity|].
  rewrite elf_header_is_64_bytes, prog_header_is_56_bytes.
  assert (Hlen : Z.of_nat (List.length
                   ([0x7f; 0x45; 0x4c; 0x46; 2; 1; 1; 0; 0; 0; 0; 0; 0; 0; 0; 0;
                     2; 0; 62; 0; 1; 0; 0; 0;
                     0x78; 0; 0x40; 0; 0; 0; 0; 0;
                     64; 0; 0; 0; 0; 0; 0; 0;
                     0; 0; 0; 0; 0; 0; 0; 0;
                     0; 0; 0; 0; 64; 0; 56; 0; 1; 0; 0; 0; 0; 0; 0; 0]
                    ++ ([1; 0; 0; 0; 5; 0; 0; 0;
                         0; 0; 0; 0; 0; 0; 0; 0;
                         0; 0; 0x40; 0; 0; 0; 0; 0;
                         0; 0; 0x40; 0; 0; 0; 0; 0]
                        ++ le_bytes 8 (p_filesz (prog_header cg1))
                        ++ le_bytes 8 (p_memsz (prog_header cg1))
                        ++ [0; 0x10; 0; 0; 0; 0; 0; 0])
                    ++ code_buffer cg1))
                 = 120 + code_size cg1).
  { rewrite !length_app, !length_le_bytes. unfold code_size. simpl List.length. lia. }
  split; [reflexivity|]. split; [exact Hlen|]. split; [reflexivity|].
  split; [reflexivity|].
  rewrite Hlen.
  assert (Hfield : le_value (le_bytes 8 (p_filesz (prog_header cg1)))
                   = wrap_u64 (120 + code_size cg1)).
  { rewrite le_value_le_bytes. unfold prog_header, wrap_u64; cbn [p_filesz].
    change (256 ^ Z.of_nat 8) with (2 ^ 64).
    rewrite Z.mod_mod by lia. reflexivity. }
  split; exact Hfield.
Qed.

(* ================================================================== *)
(** ** The code buffer *)

Lemma encode_loop_app (done rest : list Instruction) :
  forall cg, encode_loop (done ++ rest) cg = encode_loop rest (encode_loop done cg).
Proof.
  induction done as [|inst next IH]; intros cg; [reflexivity|].
  simpl. destruct (is_label_marker inst); apply IH.
Qed.

Lemma encoded_in_ten_bytes (inst : Instruction) :
  (List.length (encode_instruction inst) <= 10)%nat.
Proof.
  unfold encode_instruction.
  destruct (opcode inst); try (simpl; lia);
    destruct (operands inst) as [|a [|b [|c ops]]]; try (simpl; lia);
    try (destruct (op_value a); simpl; lia);
    destruct (op_value a), (op_value b); simpl; lia.
Qed.

Lemma code_size_store bytes cg :
  code_size (store_bytes bytes cg) = code_size cg + Z.of_nat (List.length bytes).
Proof. unfold code_size, store_bytes. simpl. rewrite length_app. lia. Qed.

Lemma ensure_capacity_room cg :
  20 <= code_capacity cg ->
  code_size cg <= code_capacity cg ->
  2 * (code_size cg + 20) <= 2 ^ 64 ->
  code_size (ensure_capacity cg) = code_size cg
  /\ code_size cg + 20 <= code_capacity (ensure_capacity cg)
  /\ code_capacity cg <= code_capacity (ensure_capacity cg).
Proof.
  intros Hc Hs Hb. unfold ensure_capacity.
  assert (0 <= code_size cg) by (unfold code_size; lia).
  unfold wrap_u64. rewrite (Z.mod_small (code_size cg + 20)) by lia.
  destruct (code_size cg + 20 >? code_capacity cg) eqn:E.
  - apply Z.gtb_lt in E. unfold code_size in *. simpl.
    rewrite Z.mod_small by lia. lia.
  - rewrite Z.gtb_ltb in E. apply Z.ltb_ge in E. lia.
Qed.

Lemma encode_loop_within_capacity (insts : list Instruction) :
  forall cg,
    20 <= code_capacity cg ->
    code_size cg <= code_capacity cg ->
    2 * (code_size cg + 10 * Z.of_nat (List.length insts) + 20) <= 2 ^ 64 ->
    20 <= code_capacity (encode_loop insts cg)
    /\ code_size (encode_loop insts cg) <= code_capacity (encode_loop insts cg)
    /\ code_size (encode_loop insts cg)
       <= code_size cg + 10 * Z.of_nat (List.length insts).
Proof.
  induction insts as [|inst next IH]; intros cg Hc Hs Hb.
  - simpl. lia.
  - cbn [encode_loop]. rewrite length_cons, Nat2Z.inj_succ in *.
    destruct (is_label_marker inst).
    + destruct (IH cg) as (A & B & C); lia.
    + destruct (ensure_capacity_room cg) as (E1 & E2 & E3); try lia.
      pose proof (encoded_in_ten_bytes inst) as Hten.
      pose proof (code_size_store (encode_instruction inst) (ensure_capacity cg)) as Hst.
      assert (Hcap : code_capacity (store_bytes (encode_instruction inst) (ensure_capacity cg))
                     = code_capacity (ensure_capacity cg)) by reflexivity.
      destruct (IH (store_bytes (encode_instruction inst) (ensure_capacity cg)))
        as (A & B & C); lia.
Qed.

(** X11.  The twenty bytes of headroom the encoder asks for are enough: from
    a buffer of at least twenty bytes that holds its content, and as long as
    the sizes stay below [2^64], every instruction is stored within the
    capacity that the check made just before it has left, and the buffer
    holds its content when the loop ends. *)
Theorem encoder_stores_within_capacity :
  forall (insts : list Instruction) (cg : NativeCodeGen),
    20 <= code_capacity cg ->
    code_size cg <= code_capacity cg ->
    2 * (code_size cg + 10 * Z.of_nat (List.length insts) + 20) <= 2 ^ 64 ->
    (forall done inst rest,
        insts = done ++ inst :: rest ->
        is_label_marker inst = false ->
        code_size (encode_loop done cg)
        + Z.of_nat (List.length (encode_instruction inst))
        <= code_capacity (ensure_capacity (encode_loop done cg)))
    /\ code_size (encode_loop insts cg) <= code_capacity (encode_loop insts cg).
Proof.
  intros insts cg Hc Hs Hb. split.
  - intros done inst rest -> _.
    rewrite length_app, length_cons in Hb.
    destruct (encode_loop_within_capacity done cg) as (A & B & C); try lia.
    destruct (ensure_capacity_room (encode_loop done cg)) as (E1 & E2 & E3); try lia.
    pose proof (encoded_in_ten_bytes inst). lia.
  - apply encode_loop_within_capacity; assumption.
Qed.

Lemma encoder_stores_within_capacity_witness :
  20 <= code_capacity (lowered main_returns_42)
  /\ code_size (lowered main_returns_42) <= code_capacity (lowered main_returns_42)
  /\ 2 * (code_size (lowered main_returns_42)
          + 10 * Z.of_nat (List.length (instructions (lowered main_returns_42))) + 20)
     <= 2 ^ 64
  /\ code_size (encode_loop (instructions (lowered main_returns_42))
                  (lowered main_returns_42))
     <= code_capacity (encode_loop (instructions (lowered main_returns_42))
                         (lowered main_returns_42)).
Proof.
  assert (H1 : 20 <= code_capacity (lowered main_returns_42))
    by (vm_compute; discriminate).
  assert (H2 : code_size (lowered main_returns_42)
               <= code_capacity (lowered main_returns_42))
    by (vm_compute; discriminate).
  assert (H3 : 2 * (code_size (lowered main_returns_42)
                    + 10 * Z.of_nat (List.length (instructions (lowered main_returns_42)))
                    + 20) <= 2 ^ 64)
    by (vm_compute; discriminate).
  split; [exact H1|]. split; [exact H2|]. split; [exact H3|].
  exact (proj2 (encoder_stores_within_capacity
                  (instructions (lowered main_returns_42))
                  (lowered main_returns_42) H1 H2 H3)).
Defined.

(* ================================================================== *)
(** ** Registers in the encoded bytes *)

(** X12.  The encoder reads the low three bits of a register number and
    never sets an extension bit: two instructions with the same opcode whose
    operands agree up to that (registers with the same [register_encoding],
    equal immediates, any memory operands, any labels) get the same bytes,
    so an instruction on R8 to R15 is encoded as the one on RAX to RDI. *)
Theorem encoding_ignores_register_extension :
  forall (op : X86Instruction) (ops ops' : list Operand) (l l' : option string),
    Forall2 (fun a b => same_encoding_field a b = true) ops ops' ->
    encode_instruction {| opcode := op; operands := ops; inst_label := l |}
    = encode_instruction {| opcode := op; operands := ops'; inst_label := l' |}.
Proof.
  intros op ops ops' l l' H. unfold encode_instruction. cbn [opcode operands].
  assert (Hreg : forall a b, same_encoding_field a b = true ->
            match op_value a, op_value b with
            | OPERAND_REGISTER r, OPERAND_REGISTER s =>
                Z.land (reg_num r) 7 = Z.land (reg_num s) 7
            | OPERAND_IMMEDIATE i, OPERAND_IMMEDIATE j => i = j
            | OPERAND_MEMORY _ _, OPERAND_MEMORY _ _ => True
            | OPERAND_LABEL _, OPERAND_LABEL _ => True
            | _, _ => False
            end).
  { intros a b. unfold same_encoding_field, register_encoding.
    destruct (op_value a), (op_value b); try discriminate; try (intros; exact I);
      apply Z.eqb_eq. }
  destruct op; try reflexivity.
  all: destruct H as [|a a' ops1 ops1' Ha H]; [reflexivity|];
    apply Hreg in Ha;
    destruct H as [|b b' ops2 ops2' Hb H];
    [ destruct (op_value a), (op_value a'); try contradiction; try reflexivity;
      now rewrite Ha
    | apply Hreg in Hb;
      destruct H as [|c c' ops3 ops3' Hc H]; [|reflexivity];
      destruct (op_value a), (op_value a'); try contradiction;
      destruct (op_value b), (op_value b'); try contradiction; try reflexivity;
      unfold modrm_reg_reg; now rewrite ?Ha, ?Hb ].
Qed.

Lemma encoding_ignores_register_extension_witness :
  Forall2 (fun a b => same_encoding_field a b = true)
    [reg_operand REG_R8; reg_operand REG_R15] [reg_operand REG_RAX; reg_operand REG_RDI]
  /\ encode_instruction (plain INST_ADD [reg_operand REG_R8; reg_operand REG_R15])
     = encode_instruction (plain INST_ADD [reg_operand REG_RAX; reg_operand REG_RDI]).
Proof.
  assert (H : Forall2 (fun a b => same_encoding_field a b = true)
    [reg_operand REG_R8; reg_operand REG_R15] [reg_operand REG_RAX; reg_operand REG_RDI])
    by (repeat constructor).
  split; [exact H|].
  exact (encoding_ignores_register_extension INST_ADD _ _ None None H).
Defined.

(* ================================================================== *)
(** ** Operators without a byte form *)

Lemma expression_appends_unlabeled (e : ASTNode) (r : X86Register) (cg : NativeCodeGen) :
  appends_unlabeled cg (snd (native_codegen_expression e r cg)).
Proof.
  apply respects_expression;
    try (intros x y; now apply appends_unlabeled_same_instructions).
  - exact appends_unlabeled_refl.
  - exact appends_unlabeled_trans.
  - intros i Hi y. exists [i]. split; [reflexivity | now constructor].
Qed.

(** X13.  A product and a quotient of the same operands compile to the same
    bytes: the two lowerings succeed or fail together and differ in one
    instruction, [mul rax, rbx] against [div rax, rbx], and the encoder
    stores the single byte [0x90] for either. *)
Theorem multiply_and_divide_share_their_bytes :
  forall (lhs rhs : ASTNode) (r : X86Register) (cg : NativeCodeGen),
    let product := native_codegen_expression (AST_BINARY_EXPR BINARY_MULTIPLY lhs rhs) r cg in
    let quotient := native_codegen_expression (AST_BINARY_EXPR BINARY_DIVIDE lhs rhs) r cg in
    fst product = fst quotient
    /\ encode_all (instructions (snd product)) = encode_all (instructions (snd quotient))
    /\ (fst product = true ->
        exists operands_code move,
          instructions (snd product)
          = instructions cg ++ operands_code
            ++ [plain INST_MUL [reg_operand REG_RAX; reg_operand REG_RBX]] ++ move
          /\ instructions (snd quotient)
          = instructions cg ++ operands_code
            ++ [plain INST_DIV [reg_operand REG_RAX; reg_operand REG_RBX]] ++ move
          /\ encode_instruction (plain INST_MUL [reg_operand REG_RAX; reg_operand REG_RBX])
             = [0x90]
          /\ encode_instruction (plain INST_DIV [reg_operand REG_RAX; reg_operand REG_RBX])
             = [0x90]).
Proof.
  intros lhs rhs r cg product quotient. subst product quotient.
  rewrite !expression_binary_eq. unfold native_codegen_binary_expr, and_then, step.
  pose proof (expression_appends_unlabeled lhs REG_RAX cg) as (c1 & Hl & _).
  destruct (native_codegen_expression lhs REG_RAX cg) as [ok1 cg1].
  cbn [snd] in Hl.
  destruct ok1; [|cbn [fst snd]; repeat split; discriminate].
  pose proof (expression_appends_unlabeled rhs REG_RBX
                (emit_instruction_reg INST_PUSH REG_RAX cg1)) as (c2 & Hr & _).
  destruct (native_codegen_expression rhs REG_RBX (emit_instruction_reg INST_PUSH REG_RAX cg1))
    as [ok2 cg2].
  cbn [snd] in Hr.
  destruct ok2; [|cbn [fst snd]; repeat split; discriminate].
  unfold binary_operation, step, succeed, emit_instruction_reg_reg, emit_instruction_reg in *.
  rewrite instructions_append in Hr.
  destruct (negb (reg_eqb r REG_RAX)); cbn [fst snd];
    rewrite !instructions_append, Hr, Hl, !encode_all_app.
  - split; [reflexivity|]. split; [reflexivity|]. intros _.
    exists (c1 ++ [plain INST_PUSH [reg_operand REG_RAX]] ++ c2
            ++ [plain INST_POP [reg_operand REG_RAX]]),
           [plain INST_MOV [reg_operand r; reg_operand REG_RAX]].
    repeat split; now rewrite <- ?app_assoc.
  - split; [reflexivity|]. split; [reflexivity|]. intros _.
    exists (c1 ++ [plain INST_PUSH [reg_operand REG_RAX]] ++ c2
            ++ [plain INST_POP [reg_operand REG_RAX]]), [].
    repeat split; now rewrite <- ?app_assoc.
Qed.

(** X14.  A unary operator adds one instruction to the code of its operand,
    [mul r, -1] for the minus and [cmp r, 0] for the negation, and fails
    exactly when the operand fails; in the machine code the instruction is
    the single byte [0x90], so the bytes of [-e] and of [!e] are the bytes
    of [e] followed by a no-operation. *)
Theorem unary_operator_is_a_nop :
  forall (op : UnaryOperator) (operand : ASTNode) (r : X86Register) (cg : NativeCodeGen),
    let inner := native_codegen_expression operand r cg in
    let outer := native_codegen_expression (AST_UNARY_EXPR op operand) r cg in
    fst outer = fst inner
    /\ instructions (snd outer)
       = instructions (snd inner)
         ++ (if fst inner
             then [plain match op with UNARY_MINUS => INST_MUL | UNARY_NOT => INST_CMP end
                     [reg_operand r;
                      imm_operand match op with UNARY_MINUS => -1 | UNARY_NOT => 0 end]]
             else [])
    /\ encode_all (instructions (snd outer))
       = encode_all (instructions (snd inner)) ++ (if fst inner then [0x90] else []).
Proof.
  intros op operand r cg inner outer. subst inner outer.
  rewrite expression_unary_eq. unfold native_codegen_unary_expr, and_then.
  destruct (native_codegen_expression operand r cg) as [ok cg1]. cbn [fst snd].
  destruct ok; [|cbn [fst snd]; now rewrite !app_nil_r].
  destruct op; unfold step, succeed, emit_instruction_reg_imm; cbn [fst snd];
    rewrite instructions_append, encode_all_app; repeat split; reflexivity.
Qed.

(* ================================================================== *)
(** ** Loads and stores of variables in the code buffer *)

Lemma expression_keeps_code_buffer (e : ASTNode) (r : X86Register) (cg : NativeCodeGen) :
  code_buffer (snd (native_codegen_expression e r cg)) = code_buffer cg.
Proof.
  apply (respects_expression (fun a b => code_buffer b = code_buffer a));
    unfold respects_fn; simpl; auto.
  intros a b c H1 H2. congruence.
Qed.

Lemma generated_code_buffer (cg : NativeCodeGen) :
  code_buffer (snd (generate_machine_code cg))
  = code_buffer cg ++ encode_all (instructions cg).
Proof. unfold generate_machine_code. cbn [snd]. apply encode_loop_buffer. Qed.

(** C10, as the code has it.  A [mov] with one register operand and one
    memory operand, in either order, with any register, base, offset,
    operand sizes and label, at any place of the instruction list: the
    encoder stores the three bytes [48 89 C0] for it at that place of the
    code buffer.  The load that [native_codegen_identifier] emits for a
    declared variable and the store that [native_codegen_var_declaration]
    emits after its initializer has lowered are of this form and reach the
    code buffer as these three bytes.  They are the bytes of
    [mov rax, rax], and running them leaves every register and every memory
    cell as it was: the encoded loads and stores of variables neither read
    nor write the slot of the variable. *)
Theorem variable_move_is_encoded_as_fallback :
  forall (r b : X86Register) (off sz1 sz2 : Z) (lbl : option string)
         (before after : list Instruction)
         (name : string) (type : ZenType) (is_const : bool) (init : ASTNode)
         (cg : NativeCodeGen),
    code_buffer
      (snd (generate_machine_code
              (set_instructions
                 (before
                  ++ {| opcode := INST_MOV;
                        operands := [{| op_value := OPERAND_REGISTER r; op_size := sz1 |};
                                     {| op_value := OPERAND_MEMORY b off; op_size := sz2 |}];
                        inst_label := lbl |} :: after) cg)))
    = code_buffer cg ++ encode_all before ++ [0x48; 0x89; 0xC0] ++ encode_all after
    /\ code_buffer
         (snd (generate_machine_code
                 (set_instructions
                    (before
                     ++ {| opcode := INST_MOV;
                           operands := [{| op_value := OPERAND_MEMORY b off; op_size := sz1 |};
                                        {| op_value := OPERAND_REGISTER r; op_size := sz2 |}];
                           inst_label := lbl |} :: after) cg)))
       = code_buffer cg ++ encode_all before ++ [0x48; 0x89; 0xC0] ++ encode_all after
    /\ (forall var : VariableSymbol,
          lookup_variable cg name = Some var ->
          native_codegen_identifier name r cg
          = (true,
             append_instruction
               (plain INST_MOV
                  [reg_operand r;
                   mem_operand REG_RBP (wrap_int32 (- var_stack_offset var))]) cg)
          /\ code_buffer
               (snd (generate_machine_code (snd (native_codegen_identifier name r cg))))
             = code_buffer (snd (generate_machine_code cg)) ++ [0x48; 0x89; 0xC0])
    /\ (fst (native_codegen_var_declaration name type is_const (Some init) cg) = true ->
        exists code,
          instructions
            (snd (native_codegen_var_declaration name type is_const (Some init) cg))
          = instructions cg ++ code
            ++ [plain INST_MOV
                  [mem_operand REG_RBP (wrap_int32 (- stack_offset cg));
                   reg_operand REG_RAX]]
          /\ code_buffer
               (snd (generate_machine_code
                       (snd (native_codegen_var_declaration name type is_const
                               (Some init) cg))))
             = code_buffer (snd (generate_machine_code cg))
               ++ encode_all code ++ [0x48; 0x89; 0xC0])
    /\ encode_instruction (plain INST_MOV [reg_operand REG_RAX; reg_operand REG_RAX])
       = [0x48; 0x89; 0xC0]
    /\ (forall m : Machine,
          exists m', run_bytes [0x48; 0x89; 0xC0] m = Some m'
                     /\ (forall x, regs m' x = regs m x)
                     /\ (forall a, mem m' a = mem m a)).
Proof.
  intros r b off sz1 sz2 lbl before after name type is_const init cg.
  split; [|split; [|split; [|split; [|split]]]].
  - rewrite generated_code_buffer, instructions_set, encode_all_app. reflexivity.
  - rewrite generated_code_buffer, instructions_set, encode_all_app. reflexivity.
  - intros var Hvar. unfold native_codegen_identifier. rewrite Hvar.
    split; [reflexivity|]. cbn [snd].
    rewrite !generated_code_buffer. unfold emit_instruction_reg_mem.
    rewrite instructions_append, encode_all_app, app_assoc. reflexivity.
  - unfold native_codegen_var_declaration. cbn [add_variable_symbol].
    unfold and_then, step, succeed.
    set (cg1 := set_variables _ _).
    pose proof (expression_appends_unlabeled init REG_RAX cg1) as (code & Hc & _).
    pose proof (expression_keeps_code_buffer init REG_RAX cg1) as Hb.
    destruct (native_codegen_expression init REG_RAX cg1) as [ok cg2].
    cbn [snd] in Hc, Hb. destruct ok; cbn [fst snd]; [|discriminate].
    intros _. exists code. unfold emit_instruction_mem_reg.
    rewrite !generated_code_buffer, instructions_append, Hc.
    change (instructions cg1) with (instructions cg).
    change (code_buffer (append_instruction _ cg2)) with (code_buffer cg2).
    rewrite Hb. change (code_buffer cg1) with (code_buffer cg).
    split; [now rewrite <- app_assoc|].
    rewrite !encode_all_app, <- !app_assoc. reflexivity.
  - reflexivity.
  - intros m. exists (set_reg REG_RAX (regs m REG_RAX) m).
    split; [reflexivity|]. split.
    + intros x; simpl. destruct (reg_eqb x REG_RAX) eqn:E; [|reflexivity].
      destruct x; try discriminate; reflexivity.
    + reflexivity.
Qed.

Lemma variable_move_is_encoded_as_fallback_witness :
  lookup_variable frame_with_one_local "x"
  = Some {| var_name := "x"; var_zen_type := TYPE_I32; var_is_const := false;
            var_stack_offset := 8 |}
  /\ fst (native_codegen_var_declaration "y" TYPE_I32 false (Some (number 2))
            frame_with_one_local) = true
  /\ code_buffer
       (snd (generate_machine_code
               (snd (native_codegen_identifier "x" REG_RBX frame_with_one_local))))
     = code_buffer (snd (generate_machine_code frame_with_one_local))
       ++ [0x48; 0x89; 0xC0]
  /\ exists code,
       instructions
         (snd (native_codegen_var_declaration "y" TYPE_I32 false (Some (number 2))
                 frame_with_one_local))
       = instructions frame_with_one_local ++ code
         ++ [plain INST_MOV
               [mem_operand REG_RBP (wrap_int32 (- stack_offset frame_with_one_local));
                reg_operand REG_RAX]]
       /\ code_buffer
            (snd (generate_machine_code
                    (snd (native_codegen_var_declaration "y" TYPE_I32 false
                            (Some (number 2)) frame_with_one_local))))
          = code_buffer (snd (generate_machine_code frame_with_one_local))
            ++ encode_all code ++ [0x48; 0x89; 0xC0].
Proof.
  assert (H1 : lookup_variable frame_with_one_local "x"
               = Some {| var_name := "x"; var_zen_type := TYPE_I32;
                         var_is_const := false; var_stack_offset := 8 |})
    by reflexivity.
  assert (H2 : fst (native_codegen_var_declaration "y" TYPE_I32 false (Some (number 2))
                      frame_with_one_local) = true) by reflexivity.
  destruct (variable_move_is_encoded_as_fallback REG_RBX REG_RBP (-8) 8 8 None [] []
              "x" TYPE_I32 false (number 2) frame_with_one_local)
    as (_ & _ & Hload & _).
  destruct (variable_move_is_encoded_as_fallback REG_RBX REG_RBP (-8) 8 8 None [] []
              "y" TYPE_I32 false (number 2) frame_with_one_local)
    as (_ & _ & _ & Hstore & _).
  split; [exact H1|]. split; [exact H2|].
  split; [exact (proj2 (Hload _ H1)) | exact (Hstore H2)].
Defined.

(** C10 as stated fails: an encoded instruction does write the slot of a
    variable.  In [func main() -> i32 { let x: i32 = 7; return 5 + x; }]
    the variable [x] has the slot [rbp - 8]; its store and its load are the
    bytes [48 89 C0] at offsets 14 and 28 of the code, and the byte at
    offset 27 is [50], the [push rax] of the left operand.  No stack space
    is reserved below the frame pointer, so the push stores at [rbp - 8]:
    run from the entry of [main], the slot holds 0 before the byte at offset
    27 and 5 after it. *)
Theorem encoded_push_writes_variable_slot :
  fst (native_codegen_program main_adds_to_local native_codegen_create) = true
  /\ variables (lowered main_adds_to_local)
     = [{| var_name := "x"; var_zen_type := TYPE_I32; var_is_const := false;
           var_stack_offset := 8 |}]
  /\ firstn 8 (skipn 3 (instructions (lowered main_adds_to_local)))
     = [plain INST_MOV [reg_operand REG_RAX; imm_operand 7];
        plain INST_MOV [mem_operand REG_RBP (-8); reg_operand REG_RAX];
        plain INST_MOV [reg_operand REG_RAX; imm_operand 5];
        plain INST_PUSH [reg_operand REG_RAX];
        plain INST_MOV [reg_operand REG_RBX; mem_operand REG_RBP (-8)];
        plain INST_POP [reg_operand REG_RAX];
        plain INST_ADD [reg_operand REG_RAX; reg_operand REG_RBX];
        plain INST_MOV [reg_operand REG_RSP; reg_operand REG_RBP]]
  /\ firstn 32 (code_buffer (snd (generate_machine_code (lowered main_adds_to_local))))
     = [0x55; 0x48; 0x89; 0xE5;
        0x48; 0xB8; 7; 0; 0; 0; 0; 0; 0; 0;
        0x48; 0x89; 0xC0;
        0x48; 0xB8; 5; 0; 0; 0; 0; 0; 0; 0;
        0x50;
        0x48; 0x89; 0xC0;
        0x58]
  /\ decode [0x50] = Some (plain INST_PUSH [reg_operand REG_RAX], [])
  /\ option_map (fun m => (regs m REG_RBP, mem m (regs m REG_RBP - 8)))
       (run_bytes
          (firstn 27 (code_buffer (snd (generate_machine_code
                                          (lowered main_adds_to_local)))))
          (machine_with_stack 0x7ffff000))
     = Some (0x7fffeff8, 0)
  /\ option_map (fun m => (regs m REG_RBP, mem m (regs m REG_RBP - 8)))
       (run_bytes
          (firstn 28 (code_buffer (snd (generate_machine_code
                                          (lowered main_adds_to_local)))))
          (machine_with_stack 0x7ffff000))
     = Some (0x7fffeff8, 5).
Proof. repeat split; vm_compute; reflexivity. Qed.

(* ================================================================== *)
(** ** Declaration and use of a variable *)

(** X15.  After a variable declaration, whether its initializer lowered or
    not, the name resolves to the new symbol, whatever was declared under
    that name before; the symbol has the slot at the old stack cursor and
    the cursor has moved by eight.  A use of the name loads from the very
    slot the declaration stores its initializer to.  The symbol is entered
    before the initializer is lowered, so a declaration whose initializer is
    the variable itself lowers. *)
Theorem declared_variable_is_found :
  forall (name : string) (type : ZenType) (is_const : bool)
         (initializer : option ASTNode) (r : X86Register) (cg : NativeCodeGen),
    let declared := native_codegen_var_declaration name type is_const initializer cg in
    let slot := mem_operand REG_RBP (wrap_int32 (- stack_offset cg)) in
    lookup_variable (snd declared) name
    = Some {| var_name := name; var_zen_type := type; var_is_const := is_const;
              var_stack_offset := stack_offset cg |}
    /\ variables (snd declared)
       = {| var_name := name; var_zen_type := type; var_is_const := is_const;
            var_stack_offset := stack_offset cg |} :: variables cg
    /\ stack_offset (snd declared) = wrap_int32 (stack_offset cg + 8)
    /\ native_codegen_identifier name r (snd declared)
       = (true, append_instruction (plain INST_MOV [reg_operand r; slot]) (snd declared))
    /\ match initializer with
       | Some _ =>
           fst declared = true ->
           exists code,
             instructions (snd declared)
             = instructions cg ++ code ++ [plain INST_MOV [slot; reg_operand REG_RAX]]
       | None => fst declared = true /\ instructions (snd declared) = instructions cg
       end
    /\ fst (native_codegen_var_declaration name type is_const
              (Some (AST_IDENTIFIER_EXPR name)) cg) = true.
Proof.
  intros name type is_const initializer r cg declared slot.
  set (var := {| var_name := name; var_zen_type := type; var_is_const := is_const;
                 var_stack_offset := stack_offset cg |}).
  set (cg1 := set_variables (var :: variables cg)
                (set_stack_offset (wrap_int32 (stack_offset cg + 8)) cg)).
  assert (Hscope : variables (snd declared) = var :: variables cg
                   /\ stack_offset (snd declared) = wrap_int32 (stack_offset cg + 8)).
  { subst declared. unfold native_codegen_var_declaration.
    cbn [add_variable_symbol]. destruct initializer as [init|]; [|split; reflexivity].
    unfold and_then, step, succeed.
    pose proof (expression_same_scope init REG_RAX cg1) as (Hv & Hs).
    fold var. fold cg1.
    destruct (native_codegen_expression init REG_RAX cg1) as [ok cg2].
    cbn [snd] in Hv, Hs.
    destruct ok; cbn [snd]; unfold emit_instruction_mem_reg, append_instruction;
      cbn [variables stack_offset set_instructions]; rewrite Hv, Hs; split; reflexivity. }
  destruct Hscope as (Hvars & Hoff).
  assert (Hfound : lookup_variable (snd declared) name = Some var).
  { unfold lookup_variable. rewrite Hvars. cbn [find_variable var_name var].
    now rewrite String.eqb_refl. }
  split; [exact Hfound|]. split; [exact Hvars|]. split; [exact Hoff|].
  split.
  { unfold native_codegen_identifier. rewrite Hfound. reflexivity. }
  split.
  - subst declared. unfold native_codegen_var_declaration. cbn [add_variable_symbol].
    destruct initializer as [init|]; [|split; reflexivity].
    unfold and_then, step, succeed. fold var. fold cg1.
    pose proof (expression_appends_unlabeled init REG_RAX cg1) as (code & Hc & _).
    destruct (native_codegen_expression init REG_RAX cg1) as [ok cg2].
    cbn [snd] in Hc. destruct ok; cbn [fst snd]; [|discriminate].
    intros _. exists code. unfold emit_instruction_mem_reg.
    rewrite instructions_append, Hc, <- app_assoc. reflexivity.
  - unfold native_codegen_var_declaration. cbn [add_variable_symbol].
    unfold and_then, step, succeed. cbn [native_codegen_expression].
    unfold native_codegen_identifier, lookup_variable.
    cbn [variables set_variables find_variable var_name].
    now rewrite String.eqb_refl.
Qed.

(* ================================================================== *)
(** ** Fresh labels *)

Lemma substring_whole (s : string) :
  forall n : nat, (String.length s <= n)%nat -> substring 0 n s = s.
Proof.
  induction s as [|c s IH]; intros n H.
  - now destruct n.
  - destruct n as [|n]; simpl in *; [lia|]. rewrite IH by lia. reflexivity.
Qed.

Lemma append_inj_r (p a b : string) : (p ++ a = p ++ b)%string -> a = b.
Proof. induction p as [|c p IH]; simpl; intros H; [exact H|]. apply IH. congruence. Qed.

Lemma string_of_Z_inj (a b : Z) : string_of_Z a = string_of_Z b -> a = b.
Proof.
  unfold string_of_Z. intros H.
  assert (Hnil : forall z, Z.to_int z <> Decimal.Pos Decimal.Nil
                           /\ Z.to_int z <> Decimal.Neg Decimal.Nil).
  { intros [|p|p]; simpl; split; try discriminate;
      intros E; injection E; apply DecimalPos.Unsigned.to_uint_nonnil. }
  apply DecimalZ.to_int_inj.
  assert (E : Some (Z.to_int a) = Some (Z.to_int b)).
  { rewrite <- (NilZero.isi (Z.to_int a)), <- (NilZero.isi (Z.to_int b));
      try apply Hnil. now rewrite H. }
  congruence.
Qed.

Lemma wrap_int32_succ_neq (n : Z) : wrap_int32 (n + 1) <> n.
Proof.
  unfold wrap_int32, wrap_signed.
  change (2 ^ (32 - 1)) with 2147483648. change (2 ^ 32) with 4294967296.
  intros E.
  pose proof (Z.div_mod (n + 1 + 2147483648) 4294967296 ltac:(lia)) as D.
  lia.
Qed.

(** X16.  Labels that fit the 63 characters kept by [create_label] are
    told apart by the counter: two labels made with the same prefix are
    equal exactly when the counters were, and the label made next with the
    same prefix is a different one. *)
Theorem labels_differ_with_the_counter :
  forall (prefix : string) (cg cg' : NativeCodeGen),
    (String.length (prefix ++ "_" ++ string_of_Z (label_counter cg)) <= 63)%nat ->
    (String.length (prefix ++ "_" ++ string_of_Z (label_counter cg')) <= 63)%nat ->
    (fst (create_label prefix cg) = fst (create_label prefix cg')
     <-> label_counter cg = label_counter cg')
    /\ (label_counter cg' = label_counter (snd (create_label prefix cg)) ->
        fst (create_label prefix cg) <> fst (create_label prefix cg')).
Proof.
  intros prefix cg cg' L L'.
  assert (Hiff : fst (create_label prefix cg) = fst (create_label prefix cg')
                 <-> label_counter cg = label_counter cg').
  { unfold create_label; cbn [fst]. rewrite !substring_whole by assumption. split.
    - intros E. apply append_inj_r in E. apply (append_inj_r "_") in E.
      now apply string_of_Z_inj.
    - now intros ->. }
  split; [exact Hiff|].
  intros Hnext E. apply Hiff in E. rewrite Hnext in E.
  apply (wrap_int32_succ_neq (label_counter cg)). symmetry. exact E.
Qed.

Lemma labels_differ_with_the_counter_witness :
  (String.length ("func" ++ "_" ++ string_of_Z (label_counter native_codegen_create))
   <= 63)%nat
  /\ (String.length
        ("func" ++ "_"
         ++ string_of_Z (label_counter (snd (create_label "func" native_codegen_create))))
      <= 63)%nat
  /\ fst (create_label "func" native_codegen_create)
     <> fst (create_label "func" (snd (create_label "func" native_codegen_create))).
Proof.
  assert (H1 : (String.length
                  ("func" ++ "_" ++ string_of_Z (label_counter native_codegen_create))
                <= 63)%nat) by (vm_compute; lia).
  assert (H2 : (String.length
                  ("func" ++ "_"
                   ++ string_of_Z
                        (label_counter (snd (create_label "func" native_codegen_create))))
                <= 63)%nat) by (vm_compute; lia).
  split; [exact H1|]. split; [exact H2|].
  exact (proj2 (labels_differ_with_the_counter "func" native_codegen_create
                  (snd (create_label "func" native_codegen_create)) H1 H2)
               eq_refl).
Defined.

(* ================================================================== *)
(** ** What the program loop reads *)

Lemma program_declarations_of_functions (decls : list ASTNode) :
  forall has_main main_func cg,
    program_declarations decls has_main main_func cg
    = program_declarations
        (map (fun f => AST_FUNCTION_DECLARATION (fst f) [] TYPE_VOID (snd f))
             (function_declarations decls))
        has_main main_func cg.
Proof.
  induction decls as [|decl rest IH]; intros has_main main_func cg; [reflexivity|].
  destruct decl as [| | | | | | | |name params ret body| | | | | |];
    cbn [program_declarations function_declarations flat_map app map fst snd];
    try apply IH.
  fold (function_declarations rest).
  destruct (native_codegen_function name body cg) as [ok cg1].
  destruct ok; cbn [negb]; [apply IH | reflexivity].
Qed.

(** X17.  The lowering of a program reads the names and the bodies of its
    function declarations and nothing else: declarations of other kinds at
    the top level are passed over without an error, and the parameters and
    the return type of a function are not looked at.  Two programs with the
    same functions in the same order are lowered alike. *)
Theorem program_is_lowered_from_its_functions :
  forall (decls decls' : list ASTNode) (cg : NativeCodeGen),
    function_declarations decls = function_declarations decls' ->
    native_codegen_program decls cg = native_codegen_program decls' cg.
Proof.
  intros decls decls' cg H. unfold native_codegen_program.
  rewrite (program_declarations_of_functions decls),
          (program_declarations_of_functions decls'), H.
  reflexivity.
Qed.

Lemma program_is_lowered_from_its_functions_witness :
  function_declarations
    (AST_VAR_DECLARATION "x" TYPE_I32 false None
     :: [AST_FUNCTION_DECLARATION "main"
           [{| param_name := "a"; param_type := TYPE_I32 |}] TYPE_VOID
           (AST_BLOCK_STMT [AST_RETURN_STMT (Some (number 42))])])
  = function_declarations main_returns_42
  /\ native_codegen_program
       (AST_VAR_DECLARATION "x" TYPE_I32 false None
        :: [AST_FUNCTION_DECLARATION "main"
              [{| param_name := "a"; param_type := TYPE_I32 |}] TYPE_VOID
              (AST_BLOCK_STMT [AST_RETURN_STMT (Some (number 42))])])
       native_codegen_create
     = native_codegen_program main_returns_42 native_codegen_create.
Proof.
  assert (H : function_declarations
                (AST_VAR_DECLARATION "x" TYPE_I32 false None
                 :: [AST_FUNCTION_DECLARATION "main"
                       [{| param_name := "a"; param_type := TYPE_I32 |}] TYPE_VOID
                       (AST_BLOCK_STMT [AST_RETURN_STMT (Some (number 42))])])
              = function_declarations main_returns_42) by reflexivity.
  split; [exact H|].
  exact (program_is_lowered_from_its_functions _ _ native_codegen_create H).
Defined.

(* ================================================================== *)
(** ** The driver *)

Lemma faithful_generate (program : option ASTNode) :
  reports_faithfully (native_codegen_generate program).
Proof.
  destruct program as [p|]; [|apply faithful_fail].
  destruct p; try apply faithful_fail. apply faithful_program.
Qed.

Lemma generate_grows (program : option ASTNode) (cg : NativeCodeGen) :
  grows cg (snd (native_codegen_generate program cg)).
Proof.
  apply kept_by_generate;
    try exact grows_refl; try exact grows_trans; grows_by_one.
Qed.

Lemma encode_loop_logs (insts : list Instruction) :
  forall cg,
    stderr_log (encode_loop insts cg) = stderr_log cg
    /\ stdout_log (encode_loop insts cg) = stdout_log cg.
Proof.
  induction insts as [|inst next IH]; intros cg; cbn [encode_loop]; [auto|].
  destruct (is_label_marker inst); [apply IH|].
  destruct (IH (store_bytes (encode_instruction inst) (ensure_capacity cg))) as (-> & ->).
  unfold store_bytes, ensure_capacity. destruct (_ >? _); auto.
Qed.

(** X18.  The native backend of the driver returns 0 exactly when the
    lowering succeeds and the output file can be opened, and 1 otherwise;
    what [system] returns and what the program it runs does have no part in
    the status.  On 0 the file written is the two headers followed by the
    encoding of the lowered instructions, and neither the driver nor the
    code generator has written to [stderr]: after [compile] the stream is
    empty, after [run] it holds what the shell and the program started by
    [system] wrote on it, and nothing else.  Otherwise no file is written.
    When the lowering fails the encoder is not run and [stderr] holds two
    lines, the error line of the code generator and the line of the driver,
    with the same message: the lowering never fails without a stored
    message, so ["Unknown error"] is never printed.  The listing asked for
    with [--code] changes none of this. *)
Theorem native_backend_outcome :
  forall (program : ASTNode) (show_code : bool) (command : Command)
         (output_file : string) (open_ok : bool) (run_result : Z)
         (run_stdout run_stderr : list string),
    let lowering := native_codegen_generate (Some program) native_codegen_create in
    let code := encode_all (instructions (snd lowering)) in
    let result :=
      native_backend program show_code command output_file open_ok run_result
        run_stdout run_stderr in
    exit_status result = (if fst lowering && open_ok then 0 else 1)
    /\ written result
       = (if fst lowering && open_ok
          then Some (elf_header_bytes elf_header
                     ++ prog_header_bytes (prog_header (context result))
                     ++ code)
          else None)
    /\ code_buffer (context result) = (if fst lowering then code else [])
    /\ stderr_log (context result)
       = (if fst lowering
          then if open_ok
               then match command with
                    | CMD_RUN => run_stderr
                    | CMD_COMPILE => []
                    end
               else [error_line "Could not create output file";
                     ("Error: Could not generate executable '" ++ output_file ++ "'"
                      ++ newline)%string]
          else match error_message (snd lowering) with
               | Some msg =>
                   [error_line msg;
                    ("Native code generation failed: " ++ msg ++ newline)%string]
               | None => []
               end)
    /\ (fst lowering = false -> error_message (snd lowering) <> None).
Proof.
  intros program show_code command output_file open_ok run_result run_stdout
         run_stderr lowering code result.
  pose proof (faithful_generate (Some program) native_codegen_create) as Hf.
  pose proof (generate_grows (Some program) native_codegen_create)
    as (_ & _ & _ & _ & Hbuf & _ & _).
  fold lowering in Hf, Hbuf.
  subst result code. unfold native_backend. fold lowering.
  destruct lowering as [ok cg]. cbn [fst snd] in *.
  change (code_buffer native_codegen_create) with (@nil Z) in Hbuf.
  destruct ok; cbn [negb andb].
  - destruct Hf as (_ & _ & Herr).
    change (stderr_log native_codegen_create) with (@nil string) in Herr.
    assert (H1 : forall cg1, instructions cg1 = instructions cg ->
                             code_buffer cg1 = [] -> stderr_log cg1 = [] ->
              code_buffer (encode_loop (instructions cg1) cg1)
              = encode_all (instructions cg)
              /\ stderr_log (encode_loop (instructions cg1) cg1) = []).
    { intros cg1 Hi Hb He. rewrite encode_loop_buffer, Hb, Hi. split; [reflexivity|].
      destruct (encode_loop_logs (instructions cg) cg1) as (-> & _).
      exact He. }
    assert (H2 : exists cg1, (if show_code then print_code cg else cg) = cg1
                 /\ instructions cg1 = instructions cg
                 /\ code_buffer cg1 = [] /\ stderr_log cg1 = []).
    { eexists; split; [reflexivity|]. destruct show_code; auto. }
    destruct H2 as (cg1 & -> & Hi & Hb & He).
    destruct (H1 cg1 Hi Hb He) as (Hcode & Hlog).
    unfold generate_elf_executable, generate_machine_code.
    cbv beta iota zeta. cbn [negb].
    destruct open_ok; cbn [negb].
    + destruct command;
        cbn [exit_status written context code_buffer stderr_log set_stdout set_stderr];
        unfold prog_header, code_size; cbn [code_buffer set_stdout set_stderr];
        rewrite Hcode, ?Hlog; repeat split; discriminate.
    + cbn [exit_status written context code_buffer stderr_log set_stderr
             native_codegen_error set_error].
      rewrite Hcode, Hlog. repeat split; discriminate.
  - destruct Hf as (_ & msg & Hm & Hl).
    change (stderr_log native_codegen_create) with (@nil string) in Hl.
    cbn [exit_status written context code_buffer stderr_log set_stderr].
    rewrite Hm, Hl, Hbuf. repeat split. discriminate.
Qed.

(* ================================================================== *)
(** ** Immediates in the encoded bytes *)

Lemma double_to_int64_range (d : Q) : - 2 ^ 63 <= double_to_int64 d < 2 ^ 63.
Proof.
  unfold double_to_int64. cbv zeta.
  destruct (_ && _) eqn:E; [|lia].
  apply andb_prop in E as (A & B).
  apply Z.leb_le in A. apply Z.ltb_lt in B. lia.
Qed.

Lemma wrap_int64_of_bytes (imm : Z) :
  - 2 ^ 63 <= imm < 2 ^ 63 -> wrap_int64 (le_value (imm64_bytes imm)) = imm.
Proof.
  intros H. rewrite le_value_imm64_bytes. unfold wrap_int64, wrap_signed.
  change (2 ^ (64 - 1)) with (2 ^ 63).
  rewrite Zplus_mod_idemp_l.
  rewrite Z.mod_small by lia. lia.
Qed.

Lemma mov_immediate_opcode (r : X86Register) :
  u8 (0xB8 + Z.land (reg_num r) 7) = 0xB8 + register_encoding r.
Proof. destruct r; reflexivity. Qed.

(** X19.  Every literal lowers, to one move of an immediate into the
    destination register: the truncated number, the placeholder address
    [0x600000] for a string, 1 or 0 for a boolean, 0 for null.  The encoder
    turns the move into [48], [B8 + register_encoding r] and eight bytes
    that, read little-endian as a signed 64-bit integer, are that
    immediate. *)
Theorem literal_value_reaches_the_bytes :
  forall (l : LiteralValue) (r : X86Register) (cg : NativeCodeGen),
    let lowering := native_codegen_expression (AST_LITERAL_EXPR l) r cg in
    let field := imm64_bytes (literal_immediate l) in
    fst lowering = true
    /\ encode_all (instructions (snd lowering))
       = encode_all (instructions cg) ++ [0x48; 0xB8 + register_encoding r] ++ field
    /\ List.length field = 8%nat
    /\ wrap_int64 (le_value field) = literal_immediate l.
Proof.
  intros l r cg lowering field. subst lowering field.
  assert (Hrange : - 2 ^ 63 <= literal_immediate l < 2 ^ 63).
  { destruct l as [d|s|b|]; cbn [literal_immediate];
      [apply double_to_int64_range | lia | destruct b; lia | lia]. }
  split; [now destruct l|]. split; [|split; [reflexivity | now apply wrap_int64_of_bytes]].
  assert (H : instructions (snd (native_codegen_expression (AST_LITERAL_EXPR l) r cg))
              = instructions cg
                ++ [plain INST_MOV [reg_operand r; imm_operand (literal_immediate l)]])
    by now destruct l.
  rewrite H, encode_all_app. f_equal.
  unfold encode_all. cbn [flat_map is_label_marker opcode plain inst_label app].
  unfold encode_instruction. cbn [opcode operands plain op_value reg_operand imm_operand].
  rewrite mov_immediate_opcode, app_nil_r. reflexivity.
Qed.

(* ================================================================== *)
(** ** Locals and the operand stack *)

(** X20.  No stack space is reserved for locals, so the first local of a
    function lies where the next push writes.  In a frame whose stack and
    frame pointers are equal, as the prologue leaves them, the code of
    [literal + x] for a variable [x] in the first slot pushes the literal
    over [x] before it loads [x]: under the reference semantics it leaves
    twice the value of the literal in RAX, whatever [x] held. *)
Theorem pushed_operand_overwrites_first_local :
  forall (l : LiteralValue) (v : Z) (name : string) (var : VariableSymbol)
         (cg : NativeCodeGen) (m : Machine),
    eval (AST_LITERAL_EXPR l) = Some v ->
    lookup_variable cg name = Some var ->
    var_stack_offset var = 8 ->
    regs m REG_RSP = regs m REG_RBP ->
    8 <= regs m REG_RSP < 2 ^ 64 ->
    exists code m',
      native_codegen_expression
        (AST_BINARY_EXPR BINARY_ADD (AST_LITERAL_EXPR l) (AST_IDENTIFIER_EXPR name))
        REG_RAX cg
      = (true, set_instructions (instructions cg ++ code) cg)
      /\ exec code m = Some m'
      /\ regs m' REG_RAX = wrap_u64 (v + v)
      /\ regs m' REG_RSP = regs m REG_RSP.
Proof.
  intros l v name var cg m Hv Hvar Hoff Hfp Hsp.
  assert (L : exists imm,
             (forall c, native_codegen_expression (AST_LITERAL_EXPR l) REG_RAX c
                        = (true, append_instruction
                                   (plain INST_MOV [reg_operand REG_RAX; imm_operand imm]) c))
             /\ wrap_u64 imm = v).
  { destruct l as [d|s|b|]; try discriminate; simpl in Hv; injection Hv as <-;
      eexists; (split; [intros c; reflexivity|]);
      [reflexivity | now destruct b | reflexivity]. }
  destruct L as (imm & Hlit & Himm).
  exists [plain INST_MOV [reg_operand REG_RAX; imm_operand imm];
          plain INST_PUSH [reg_operand REG_RAX];
          plain INST_MOV [reg_operand REG_RBX; mem_operand REG_RBP (-8)];
          plain INST_POP [reg_operand REG_RAX];
          plain INST_ADD [reg_operand REG_RAX; reg_operand REG_RBX]].
  eexists. split; [|split; [reflexivity|]].
  - rewrite expression_binary_eq. unfold native_codegen_binary_expr, and_then, step.
    rewrite Hlit. cbn [native_codegen_expression].
    unfold native_codegen_identifier, lookup_variable in *.
    unfold emit_instruction_reg, append_instruction at 1 2.
    cbn [variables set_instructions]. rewrite Hvar, Hoff.
    change (wrap_int32 (- (8))) with (-8).
    unfold binary_operation, step, succeed, emit_instruction_reg_reg,
      emit_instruction_reg_mem.
    change (negb (reg_eqb REG_RAX REG_RAX)) with false. cbv beta iota.
    unfold append_instruction. cbn [instructions set_instructions].
    rewrite !set_instructions_twice, <- !app_assoc. reflexivity.
  - cbn [regs mem set_reg store reg_eqb reg_num Z.eqb].
    cbn. rewrite <- Hfp.
    assert (E1 : wrap_u64 (regs m REG_RSP - 8) = regs m REG_RSP - 8)
      by (apply wrap_u64_small; lia).
    assert (E2 : wrap_u64 (regs m REG_RSP + -8) = regs m REG_RSP - 8)
      by (replace (regs m REG_RSP + -8) with (regs m REG_RSP - 8) by lia; exact E1).
    rewrite ?E1, ?E2, ?Z.eqb_refl, ?Himm.
    split; [reflexivity|]. rewrite Z.sub_add. apply wrap_u64_small. lia.
Qed.

Lemma pushed_operand_overwrites_first_local_witness :
  eval (number 5) = Some 5
  /\ lookup_variable frame_with_one_local "x"
     = Some {| var_name := "x"; var_zen_type := TYPE_I32; var_is_const := false;
               var_stack_offset := 8 |}
  /\ regs (machine_in_frame 4096) REG_RSP = regs (machine_in_frame 4096) REG_RBP
  /\ 8 <= regs (machine_in_frame 4096) REG_RSP < 2 ^ 64
  /\ exists code m',
       native_codegen_expression
         (AST_BINARY_EXPR BINARY_ADD (number 5) (AST_IDENTIFIER_EXPR "x"))
         REG_RAX frame_with_one_local
       = (true, set_instructions (instructions frame_with_one_local ++ code)
                  frame_with_one_local)
       /\ exec code (machine_in_frame 4096) = Some m'
       /\ regs m' REG_RAX = wrap_u64 (5 + 5)
       /\ regs m' REG_RSP = regs (machine_in_frame 4096) REG_RSP.
Proof.
  assert (H1 : eval (number 5) = Some 5) by reflexivity.
  assert (H2 : lookup_variable frame_with_one_local "x"
               = Some {| var_name := "x"; var_zen_type := TYPE_I32;
                         var_is_const := false; var_stack_offset := 8 |})
    by reflexivity.
  assert (H3 : regs (machine_in_frame 4096) REG_RSP
               = regs (machine_in_frame 4096) REG_RBP) by reflexivity.
  assert (H4 : 8 <= regs (machine_in_frame 4096) REG_RSP < 2 ^ 64)
    by (vm_compute; split; [discriminate | reflexivity]).
  split; [exact H1|]. split; [exact H2|]. split; [exact H3|]. split; [exact H4|].
  exact (pushed_operand_overwrites_first_local
           (LITERAL_NUMBER (inject_Z 5)) 5 "x" _ frame_with_one_local
           (machine_in_frame 4096) H1 H2 eq_refl H3 H4).
Defined.

(* ================================================================== *)
(** ** Sums and differences in the machine code *)

(** X21.  For an expression of number, boolean and null literals joined by
    [+] and [-], at any nesting depth: the lowering succeeds from every
    context and appends the code of the expression, and the encoder adds the
    bytes of that code to the buffer.  Run under the reference semantics
    with room on the stack, the bytes leave the value of the expression in
    the destination register and the stack pointer and the memory from it
    upwards as they were: the left value pushed around the right operand
    comes back unchanged. *)
Theorem additive_expression_is_compiled :
  forall (e : ASTNode) (r : X86Register) (m : Machine),
    additive e = true ->
    low_reg r = true ->
    r <> REG_RSP ->
    8 * stack_need e <= regs m REG_RSP < 2 ^ 64 ->
    exists val,
      eval e = Some val
      /\ (forall cg,
            native_codegen_expression e r cg
            = (true, set_instructions (instructions cg ++ expression_code e r) cg))
      /\ (forall cg,
            code_buffer
              (snd (generate_machine_code (snd (native_codegen_expression e r cg))))
            = code_buffer (snd (generate_machine_code cg))
              ++ encode_all (expression_code e r))
      /\ exists m',
           run_bytes (encode_all (expression_code e r)) m = Some m'
           /\ regs m' r = val
           /\ regs m' REG_RSP = regs m REG_RSP
           /\ forall a, regs m REG_RSP <= a -> mem m' a = mem m a.
Proof.
  intros e r m Ha Hlow Hr Hroom.
  destruct (additive_eval e Ha) as (val & Hv).
  exists val. split; [exact Hv|].
  split; [now apply arith_expression_code with (v := val)|].
  split.
  - intros cg. rewrite (arith_expression_code e val r Hv cg). cbn [snd].
    rewrite !generated_code_buffer, instructions_set, encode_all_app, app_assoc.
    reflexivity.
  - rewrite additive_machine_code by assumption. now apply arith_exec.
Qed.

Lemma additive_expression_is_compiled_witness :
  additive sum_of_sums = true
  /\ low_reg REG_RAX = true
  /\ REG_RAX <> REG_RSP
  /\ 8 * stack_need sum_of_sums <= regs (machine_with_stack 0x7ffff000) REG_RSP < 2 ^ 64
  /\ exists val,
       eval sum_of_sums = Some val
       /\ val = 10
       /\ exists m',
            run_bytes (encode_all (expression_code sum_of_sums REG_RAX))
              (machine_with_stack 0x7ffff000) = Some m'
            /\ regs m' REG_RAX = val.
Proof.
  assert (Ha : additive sum_of_sums = true) by reflexivity.
  assert (Hl : low_reg REG_RAX = true) by reflexivity.
  assert (Hr : REG_RAX <> REG_RSP) by discriminate.
  assert (Hroom : 8 * stack_need sum_of_sums
                  <= regs (machine_with_stack 0x7ffff000) REG_RSP < 2 ^ 64)
    by (vm_compute; split; [discriminate | reflexivity]).
  destruct (additive_expression_is_compiled sum_of_sums REG_RAX
              (machine_with_stack 0x7ffff000) Ha Hl Hr Hroom)
    as (val & Hv & _ & _ & m' & X & V & _).
  repeat (split; [assumption|]).
  exists val. split; [exact Hv|]. split.
  - assert (E : eval sum_of_sums = Some 10) by reflexivity. congruence.
  - exists m'. split; assumption.
Defined.
